(** * Video-summary pipeline: a shallow embedding and its verified properties

    The development follows the Python sources:
    - [Py]          the built-in string operations the sources rely on
                    ([str.strip], [str.split], [str.replace], [str.join], [str(int)]);
    - [os_path]     [posixpath.dirname], [basename], [splitext], [join];
    - [utils]       [app/utils.py]: [get_unique_filename], [get_video_name],
                    [clean_output_directories], [validate_config];
    - [summarizer]  [app/summarizer.py]: [_chunk_text], the summarizer classes
                    and [Summarizer.summarize];
    - [transcriber] [app/transcriber.py];
    - [video_loader], [audio_extractor], [note_generator], [model_selector]
                    the modules of [app/] of these names;
    - [run_all]     [scripts/run_all.py]: [validate_file_output], [process_video]
                    and the cleaning [main] does.

    Python [str] values are lists of characters (code points below 256),
    Python [int] values are [Z], lengths and counters that only count up are
    [nat], the file system is a finite map from paths to file contents, and
    code that raises, logs or writes is a computation over an explicit world
    (file system, log records, calls of the speech model). *)

From Stdlib Require Import Ascii String ZArith Lia List DecimalString DecimalNat.
From stdpp Require Import gmap strings list.

Local Open Scope Z_scope.

(** ** Python strings *)

Module Py.

(** A Python [str]. *)
Definition str : Type := list ascii.

(** A literal. *)
Definition py (s : string) : str := list_ascii_of_string s.

Definition chr_nl : ascii := ascii_of_nat 10.
Definition chr_cr : ascii := ascii_of_nat 13.
Definition chr_dot : ascii := ascii_of_nat 46.
Definition chr_slash : ascii := ascii_of_nat 47.
Definition chr_underscore : ascii := ascii_of_nat 95.

(** [str.isspace] on one character: the code points below 256 that Python
    treats as whitespace. *)
Definition isspace (c : ascii) : bool :=
  let n := nat_of_ascii c in
  ((9 <=? n)%nat && (n <=? 13)%nat) || ((28 <=? n)%nat && (n <=? 32)%nat)
  || (n =? 133)%nat || (n =? 160)%nat.

(** [c.isdigit()] as the regular expression class [\d] sees it below 256. *)
Definition isdigit (c : ascii) : bool :=
  let n := nat_of_ascii c in (48 <=? n)%nat && (n <=? 57)%nat.

Fixpoint lstrip (s : str) : str :=
  match s with
  | [] => []
  | c :: s' => if isspace c then lstrip s' else s
  end.

Definition rstrip (s : str) : str := rev (lstrip (rev s)).

(** [s.strip()] *)
Definition strip (s : str) : str := lstrip (rstrip s).

(** [s.split(sep)] for a one-character separator: one piece more than there
    are separators, empty pieces kept. *)
Fixpoint split_char (sep : ascii) (s : str) : list str :=
  match s with
  | [] => [[]]
  | c :: s' =>
      if Ascii.eqb c sep then [] :: split_char sep s'
      else match split_char sep s' with
           | [] => [[c]]
           | w :: ws => (c :: w) :: ws
           end
  end.

(** [s.split()]: the maximal runs of non-whitespace characters. [cur] is the
    word being read, reversed. *)
Fixpoint split_ws_from (cur : option str) (s : str) : list str :=
  let flush := match cur with Some w => [rev w] | None => [] end in
  match s with
  | [] => flush
  | c :: s' =>
      if isspace c then flush ++ split_ws_from None s'
      else split_ws_from (Some (c :: match cur with Some w => w | None => [] end)) s'
  end.

Definition split_ws (s : str) : list str := split_ws_from None s.

(** [s.replace(old, new)] for a one-character [old]. *)
Definition replace_char (old : ascii) (new : str) (s : str) : str :=
  flat_map (fun c => if Ascii.eqb c old then new else [c]) s.

(** [sep.join(l)] *)
Fixpoint join (sep : str) (l : list str) : str :=
  match l with
  | [] => []
  | x :: xs => match xs with [] => x | _ :: _ => x ++ sep ++ join sep xs end
  end.

(** [str(n)] for a non-negative integer. *)
Definition str_of_nat (n : nat) : str :=
  list_ascii_of_string (NilEmpty.string_of_uint (Nat.to_uint n)).

(** Truthiness of a string: [if s:] *)
Definition truthy (s : str) : bool :=
  match s with [] => false | _ :: _ => true end.

(** [s.rfind(c)] for a one-character [c]: the index of its last occurrence,
    or [-1]. *)
Fixpoint rfind (c : ascii) (s : str) : Z :=
  match s with
  | [] => -1
  | x :: s' =>
      let r := rfind c s' in
      if 0 <=? r then r + 1 else if Ascii.eqb x c then 0 else -1
  end.

(** The slices [s[:i]] and [s[i:]] (a negative [i] does not occur below). *)
Definition slice_to (i : Z) (s : str) : str := firstn (Z.to_nat i) s.
Definition slice_from (i : Z) (s : str) : str := skipn (Z.to_nat i) s.

Fixpoint lstrip_char (c : ascii) (s : str) : str :=
  match s with
  | [] => []
  | x :: s' => if Ascii.eqb x c then lstrip_char c s' else s
  end.

(** [s.rstrip(c)] for a one-character [c]. *)
Definition rstrip_char (c : ascii) (s : str) : str := rev (lstrip_char c (rev s)).

Definition startswith_char (c : ascii) (s : str) : bool :=
  match s with [] => false | x :: _ => Ascii.eqb x c end.

Definition endswith_char (c : ascii) (s : str) : bool := startswith_char c (rev s).


(** [s.startswith(prefix)] *)
Fixpoint startswith (s prefix : str) {struct prefix} : bool :=
  match prefix, s with
  | [], _ => true
  | c :: prefix', x :: s' => Ascii.eqb x c && startswith s' prefix'
  | _ :: _, [] => false
  end.

(** [sub in s] *)
Fixpoint contains (s sub : str) : bool :=
  startswith s sub || match s with [] => false | _ :: s' => contains s' sub end.

End Py.
Export Py.

(** ** posixpath *)

Module os_path.

(** [os.path.dirname] *)
Definition dirname (p : str) : str :=
  let i := rfind chr_slash p + 1 in
  let head := slice_to i p in
  if truthy head && negb (forallb (fun c => Ascii.eqb c chr_slash) head)
  then rstrip_char chr_slash head
  else head.

(** [os.path.basename] *)
Definition basename (p : str) : str :=
  let i := rfind chr_slash p + 1 in slice_from i p.

(** [os.path.splitext]: the extension starts at the last dot of the last
    component, unless only dots precede it there. *)
Definition splitext (p : str) : str * str :=
  let sepIndex := rfind chr_slash p in
  let dotIndex := rfind chr_dot p in
  if (sepIndex <? dotIndex)
     && existsb (fun c => negb (Ascii.eqb c chr_dot))
          (slice_from (sepIndex + 1) (slice_to dotIndex p))
  then (slice_to dotIndex p, slice_from dotIndex p)
  else (p, []).

(** [os.path.join(a, b)] *)
Definition join (a b : str) : str :=
  if startswith_char chr_slash b then b
  else if negb (truthy a) || endswith_char chr_slash a then a ++ b
  else a ++ chr_slash :: b.

End os_path.

(** ** The world the pipeline runs in *)

Module world.

(** File contents. *)
Abbreviation bytes := (list ascii).

(** The file system: a finite map from paths to file contents. *)
Abbreviation filesystem := (gmap str bytes).

(** [os.path.exists] *)
Definition path_exists (fs : filesystem) (p : str) : bool :=
  match fs !! p with Some _ => true | None => false end.

(** Exceptions: the class and [str(e)]. [ExternalError] stands for whatever
    a collaborator raises (inference, ffmpeg, network, I/O, decoding);
    [LoopFuelExhausted] is the model's own mark for a loop that ran out of
    fuel and is never produced ([get_unique_filename_total]). *)
Inductive exn_class : Type :=
  ValueError | KeyError | FileNotFoundError | ExternalError | LoopFuelExhausted.

Record exn : Type := Exn { exn_cls : exn_class; exn_msg : str }.

(** The two loggers: [setup_logging(video_name)] of the scripts and the
    module logger [logging.getLogger(__name__)] of [app/transcriber.py]. *)
Inductive logger : Type :=
| run_logger (video_name : str)
| transcriber_logger.

Inductive level : Type := INFO | ERROR.

Record log_record : Type := LogRecord {
  log_logger : logger;
  log_level : level;
  log_msg : str
}.

#[export] Instance level_eq_dec : EqDecision level.
Proof. solve_decision. Defined.

(** The keyword arguments that differ between the two calls of
    [self.model.transcribe] ([language], [task] and [verbose] are the same
    in both). *)
Record decode_options : Type := DecodeOptions {
  initial_prompt : option str;
  condition_on_previous_text : option bool;
  word_timestamps : option bool;
  beam_size : option Z;
  best_of : option Z
}.

(** The world: the file system, the records handed to the loggers so far
    (oldest first) and the calls made to the speech model (oldest first).
    The file system leaves out the log files that the handlers of
    [setup_logging] append to, [data/outputs/logs/<video>_<timestamp>.log]
    and [..._error.log]: no stage reads them, and what they hold is what
    [w_logs] holds for the run's logger. *)
Record World : Type := MkWorld {
  w_fs : filesystem;
  w_logs : list log_record;
  w_calls : list decode_options
}.

(** A computation either returns or raises, and leaves a world behind. *)
Definition M (A : Type) : Type := World → (exn + A) * World.

Definition ret {A : Type} (a : A) : M A := λ w, (inr a, w).

Definition bind {A B : Type} (m : M A) (k : A → M B) : M B :=
  λ w, match m w with
       | (inl e, w') => (inl e, w')
       | (inr a, w') => k a w'
       end.

(** [raise e] *)
Definition raise {A : Type} (e : exn) : M A := λ w, (inl e, w).

(** [try: m except Exception as e: handler(e)] *)
Definition try_except {A : Type} (m : M A) (handler : exn → M A) : M A :=
  λ w, match m w with
       | (inl e, w') => handler e w'
       | (inr a, w') => (inr a, w')
       end.

(** A collaborator's pure result, raised or returned. *)
Definition lift {A : Type} (r : exn + A) : M A := λ w, (r, w).

Definition get_fs : M filesystem := λ w, (inr (w_fs w), w).

(** A call of a method of a logger: the record is handed to the logger.
    Whether it reaches a handler is for [emitted] to say. *)
Definition emit (l : logger) (lv : level) (msg : str) : M unit :=
  λ w, (inr tt, {| w_fs := w_fs w;
                   w_logs := w_logs w ++ [LogRecord l lv msg];
                   w_calls := w_calls w |}).

(** [logger.info(msg)] and [logger.error(msg)] *)
Definition log_info (l : logger) (msg : str) : M unit := emit l INFO msg.
Definition log_error (l : logger) (msg : str) : M unit := emit l ERROR msg.

(** Whether a record reaches a handler when [scripts/run_all.py] or
    [scripts/run_transcription.py] runs. The logger of [setup_logging] has
    the level [DEBUG] and handlers for [INFO] and above. The module logger of
    [app/transcriber.py] has no handler and no level, and these scripts do
    not configure the root logger, whose level is [WARNING]: an [INFO] record
    of the module logger is dropped, an [ERROR] record goes to the handler of
    last resort. *)
Definition reaches_handler (r : log_record) : bool :=
  match log_logger r, log_level r with
  | run_logger _, _ => true
  | transcriber_logger, ERROR => true
  | transcriber_logger, INFO => false
  end.

(** The records that are emitted, of those handed to the loggers. *)
Definition emitted (records : list log_record) : list log_record :=
  List.filter reaches_handler records.

(** Text is stored as UTF-8: one byte below 128, two bytes from 128 to 255. *)
Definition utf8_encode (text : str) : bytes :=
  flat_map (λ c, let n := nat_of_ascii c in
                 if (n <? 128)%nat then [c]
                 else [ascii_of_nat (192 + n / 64); ascii_of_nat (128 + n mod 64)])
    text.

(** Decoding, for the code points a [str] holds here; anything else is a
    decoding error. *)
Fixpoint utf8_decode (b : bytes) : option str :=
  match b with
  | [] => Some []
  | c :: b' =>
      let n := nat_of_ascii c in
      if (n <? 128)%nat then option_map (cons c) (utf8_decode b')
      else match b' with
           | c2 :: b'' =>
               let n2 := nat_of_ascii c2 in
               if ((n =? 194)%nat || (n =? 195)%nat)
                  && (128 <=? n2)%nat && (n2 <? 192)%nat
               then option_map (cons (ascii_of_nat ((n - 192) * 64 + (n2 - 128))))
                      (utf8_decode b'')
               else None
           | [] => None
           end
  end.

Definition no_such_file (path : str) : exn :=
  Exn FileNotFoundError (py "[Errno 2] No such file or directory: '" ++ path ++ py "'").

(** [with open(path, "w", encoding="utf-8") as f: f.write(text)] when it
    succeeds: the file at [path] is created or replaced. A write that can
    fail is [note_generator.open_and_write]. *)
Definition write_text (path text : str) : M unit :=
  λ w, (inr tt, {| w_fs := <[path := utf8_encode text]> (w_fs w);
                   w_logs := w_logs w;
                   w_calls := w_calls w |}).

(** What reading in text mode does to the ends of lines ([newline=None]):
    a carriage return followed by a line feed, and a carriage return alone,
    become one line feed. *)
Fixpoint universal_newlines (text : str) : str :=
  match text with
  | [] => []
  | c :: text' =>
      if Ascii.eqb c chr_cr then
        chr_nl :: match text' with
                  | c' :: text'' =>
                      if Ascii.eqb c' chr_nl then universal_newlines text''
                      else universal_newlines text'
                  | [] => []
                  end
      else c :: universal_newlines text'
  end.

(** [with open(path, "r", encoding="utf-8") as f: f.read()] *)
Definition read_text (path : str) : M str :=
  λ w, match w_fs w !! path with
       | None => (inl (no_such_file path), w)
       | Some b => match utf8_decode b with
                   | Some text => (inr (universal_newlines text), w)
                   | None => (inl (Exn ExternalError (py "UnicodeDecodeError")), w)
                   end
       end.

(** [os.path.getsize]: raises for a missing file. *)
Definition getsize (path : str) : M Z :=
  λ w, match w_fs w !! path with
       | None => (inl (no_such_file path), w)
       | Some b => (inr (Z.of_nat (length b)), w)
       end.

(** Whether a record with this level and message was logged. *)
Definition logged (lv : level) (msg : str) (w : World) : bool :=
  existsb (λ r, bool_decide (log_level r = lv ∧ log_msg r = msg)) (w_logs w).

(** A Python [dict] with string keys and values, in insertion order:
    [d[k] = v] replaces the value of an existing key in place. *)
Definition dict : Type := list (str * str).

Fixpoint dict_set (d : dict) (k v : str) : dict :=
  match d with
  | [] => [(k, v)]
  | (k', v') :: d' =>
      if decide (k' = k) then (k, v) :: d' else (k', v') :: dict_set d' k v
  end.

End world.
Export world.

#[export] Instance M_ret : MRet M := @ret.
#[export] Instance M_bind : MBind M := λ A B k m, bind m k.

(** ** The external collaborators

    Model loading, inference, media tools and the derivative generators are
    outside the pipeline core: they are taken as given, may raise, and those
    that write files act on the world. *)

Module external.

Record collaborators : Type := Collaborators {
  (* [ModelSelector()] raising: the profiles cannot be read *)
  model_selector_init : option exn;
  (* [setup_logging(video_name)] raising: the directory of the logs or a
     log file cannot be made *)
  logging_init : str → option exn;
  (* [Transcriber(model_selector.models)] raising: the directory of the
     transcripts cannot be made *)
  transcriber_runner_init : option exn;
  (* [Summarizer(model_selector.models)] raising: the directory of the
     summaries cannot be made *)
  summarizer_runner_init : option exn;
  (* [model_name in model_selector.models] *)
  has_profile : str → bool;
  (* [WhisperTranscriber.__init__] ([whisper.load_model]) raising *)
  whisper_init : option exn;
  (* [whisper.load_audio(audio_path)]: raises, or the duration as
     [f"{duration/60:.2f}"] renders it *)
  whisper_load_audio : str → exn + str;
  (* [self.model.transcribe(audio_path, ...)["text"]] *)
  whisper_model : decode_options → str → exn + str;
  (* [VoskTranscriber.__init__] raising *)
  vosk_init : option exn;
  (* [wave.open] and the recognizer: the ["text"] entry, if any, of each
     accepted result, and that of the final result *)
  vosk_results : str → exn + (list (option str) * option str);
  (* the constructor of the summarizer class of a model raising *)
  summarizer_init : str → option exn;
  (* [self.tokenizer.encode] of a summarization model *)
  tokenizer_encode : str → str → list nat;
  (* encode, [self.model.generate] and decode of a transformer model on a
     prompt *)
  generate : str → str → exn + str;
  (* [GPT2Summarizer.summarize] *)
  gpt2_summarize : str → exn + str;
  (* [VideoLoader(config).load] *)
  video_load : str → M str;
  (* [AudioExtractor().extract] *)
  audio_extract : str → M str;
  (* [MindMapGenerator()] raising *)
  mindmap_init : option exn;
  (* [mindmap_generator.generate] *)
  mindmap_generate : str → M str;
  (* [NoteGenerator()] raising: the pipelines cannot be loaded *)
  notes_init : option exn;
  (* [note_generator.generate] *)
  notes_generate : str → M (str * str)
}.

(** A constructor call, or another call made for its effect outside the
    world, that may raise. *)
Definition construct (raised : option exn) : M unit :=
  match raised with
  | Some e => raise e
  | None => mret tt
  end.

(** [self.config[model_name]] *)
Definition config_lookup (ext : collaborators) (model_name : str) : M unit :=
  if has_profile ext model_name then mret tt
  else raise (Exn KeyError (py "'" ++ model_name ++ py "'")).

End external.
Export external.

(** ** app/utils.py *)

Module utils.

(** [re.match(r"^(.+)_(\d+)$", name)], returning [match.group(1)]. The
    digits hold no underscore, so the underscore of a match is the last one
    of [name]; before it comes a non-empty group without a newline ([.]
    excludes it), after it a non-empty run of digits, and [$] also accepts
    one final newline. *)
Definition match_counter (name : str) : option str :=
  let i := rfind chr_underscore name in
  let group1 := slice_to i name in
  let rest := slice_from (i + 1) name in
  let digits := if endswith_char chr_nl rest then removelast rest else rest in
  if (1 <=? i) && forallb (fun c => negb (Ascii.eqb c chr_nl)) group1
     && truthy digits && forallb isdigit digits
  then Some group1 else None.

(** [if match: name = match.group(1)] *)
Definition strip_counter (name : str) : str :=
  match match_counter name with Some group1 => group1 | None => name end.

(** [f"{name}_{counter}{ext}"] *)
Definition counter_name (name : str) (counter : nat) (ext : str) : str :=
  name ++ chr_underscore :: str_of_nat counter ++ ext.

(** The [while os.path.exists(base_path)] loop, [fuel] bounding the number of
    existence tests. *)
Fixpoint unique_loop (fuel : nat) (fs : filesystem) (directory ext name base_path : str)
    (counter : nat) : option str :=
  match fuel with
  | O => None
  | S fuel' =>
      if path_exists fs base_path then
        let name := strip_counter name in
        let new_name := counter_name name counter ext in
        unique_loop fuel' fs directory ext name (os_path.join directory new_name)
          (S counter)
      else Some base_path
  end.

(** [get_unique_filename]. The loop tests the desired path and then one new
    candidate per iteration; [size fs + 2] tests always suffice
    ([get_unique_filename_total]). *)
Definition get_unique_filename (fs : filesystem) (base_path : str) : option str :=
  if negb (path_exists fs base_path) then Some base_path
  else
    let directory := os_path.dirname base_path in
    let filename := os_path.basename base_path in
    let '(name, ext) := os_path.splitext filename in
    unique_loop (size fs + 2) fs directory ext name base_path 1.

(** [get_video_name] *)
Definition get_video_name (video_path : str) : str :=
  fst (os_path.splitext (os_path.basename video_path)).

(** The stem the loop uses in its [n]-th iteration: one more trailing
    counter stripped each time. *)
Fixpoint nth_stem (name : str) (n : nat) : str :=
  match n with
  | O => name
  | S n' => strip_counter (nth_stem name n')
  end.

(** The [n]-th candidate of the loop for a desired path. *)
Definition candidate (base_path : str) (n : nat) : str :=
  let '(name, ext) := os_path.splitext (os_path.basename base_path) in
  os_path.join (os_path.dirname base_path) (counter_name (nth_stem name n) n ext).

(** The candidate [stem_n.ext] of the specification: the desired stem with
    its trailing counter stripped once, the same stem for every [n]. *)
Definition fixed_candidate (base_path : str) (n : nat) : str :=
  let '(name, ext) := os_path.splitext (os_path.basename base_path) in
  os_path.join (os_path.dirname base_path) (counter_name (strip_counter name) n ext).

(** [n] calls in a row for one desired path, nothing written in between:
    the allocator itself creates no file, so each call sees the same file
    system. *)
Fixpoint allocate_only (n : nat) (fs : filesystem) (desired : str) : list (option str) :=
  match n with
  | O => []
  | S n' => get_unique_filename fs desired :: allocate_only n' fs desired
  end.

(** Calls in a row for one desired path as [Transcriber.transcribe] makes
    them: each returned path is written (with the next of [contents]) before
    the next call. The result lists, per call, the file system the call saw
    and the path it returned. *)
Fixpoint allocate_and_write (fs : filesystem) (desired : str) (contents : list bytes)
  : option (list (filesystem * str)) :=
  match contents with
  | [] => Some []
  | b :: contents' =>
      match get_unique_filename fs desired with
      | None => None
      | Some path =>
          match allocate_and_write (<[path := b]> fs) desired contents' with
          | None => None
          | Some calls => Some ((fs, path) :: calls)
          end
      end
  end.


(** The directories [clean_output_directories] works on. *)
Definition output_dirs : list str :=
  [py "data/outputs/transcripts"; py "data/outputs/summaries";
   py "data/outputs/mindmaps"; py "data/outputs/notes"; py "data/outputs/faqs";
   py "data/audios"].

(** The file system holds the paths of the regular files. A directory is
    there when a file lies under it (an empty directory holds nothing to
    clean), and its entries are the first components of the paths under
    it. *)
Fixpoint first_component (s : str) : str :=
  match s with
  | [] => []
  | x :: s' => if Ascii.eqb x chr_slash then [] else x :: first_component s'
  end.

(** The entry of [dir_path] that the path [p] lies under, if it lies under
    it. *)
Definition entry_of (dir_path p : str) : option str :=
  if startswith p (dir_path ++ [chr_slash]) then
    let name := first_component (skipn (length dir_path + 1) p) in
    if truthy name then Some name else None
  else None.

(** The names of the entries of a directory. *)
Definition entries (fs : filesystem) (dir_path : str) : list str :=
  remove_dups (omap (entry_of dir_path) (map_to_list fs).*1).

(** The [OSError]s of the calls below, by their [str(e)]. *)
Definition not_a_directory (path : str) : exn :=
  Exn ExternalError (py "[Errno 20] Not a directory: '" ++ path ++ py "'").

Definition is_a_directory (path : str) : exn :=
  Exn ExternalError (py "[Errno 21] Is a directory: '" ++ path ++ py "'").

(** The file system becomes [fs]. *)
Definition set_fs (fs : filesystem) : M unit :=
  λ w, (inr tt, {| w_fs := fs; w_logs := w_logs w; w_calls := w_calls w |}).

(** [os.path.isdir] *)
Definition isdir (fs : filesystem) (path : str) : bool :=
  existsb (λ p, startswith p (path ++ [chr_slash])) (map_to_list fs).*1.

(** [os.path.exists] of a path that may be a directory. *)
Definition exists_file_or_dir (fs : filesystem) (path : str) : bool :=
  path_exists fs path || isdir fs path.

(** [os.listdir(dir_path)] of an existing path, in the order the file
    system gives the entries. *)
Definition listdir (dir_path : str) : M (list str) :=
  fs ← get_fs;
  if path_exists fs dir_path then raise (not_a_directory dir_path)
  else mret (entries fs dir_path).

(** [os.remove(path)]: removes a regular file and refuses a directory. *)
Definition remove (path : str) : M unit :=
  fs ← get_fs;
  if path_exists fs path then set_fs (delete path fs)
  else if isdir fs path then raise (is_a_directory path)
  else raise (no_such_file path).

(** [shutil.rmtree(dir_path)] followed by [os.makedirs(dir_path)], for an
    existing path: every file under the directory goes, at any depth. *)
Definition rmtree_makedirs (dir_path : str) : M unit :=
  fs ← get_fs;
  if path_exists fs dir_path then raise (not_a_directory dir_path)
  else set_fs (filter (λ kv, startswith kv.1 (dir_path ++ [chr_slash]) = false) fs).

(** [for file in os.listdir(dir_path): if file.startswith(video_name):
    os.remove(os.path.join(dir_path, file))] *)
Fixpoint remove_matching (dir_path video_name : str) (files : list str) : M unit :=
  match files with
  | [] => mret tt
  | file :: files' =>
      (if startswith file video_name then remove (os_path.join dir_path file)
       else mret tt);;
      remove_matching dir_path video_name files'
  end.

(** One iteration of [for dir_path in output_dirs]. *)
Definition clean_directory (video_name : option str) (dir_path : str) : M unit :=
  fs ← get_fs;
  if negb (exists_file_or_dir fs dir_path) then mret tt
  else
    match video_name with
    | Some (c :: name) =>
        files ← listdir dir_path;
        remove_matching dir_path (c :: name) files
    | Some [] | None => rmtree_makedirs dir_path
    end.

Fixpoint clean_directories (video_name : option str) (dirs : list str) : M unit :=
  match dirs with
  | [] => mret tt
  | dir_path :: dirs' =>
      clean_directory video_name dir_path;;
      clean_directories video_name dirs'
  end.

(** [clean_output_directories]: [video_name] is [None] when the argument is
    left out. *)
Definition clean_output_directories (video_name : option str) : M unit :=
  clean_directories video_name output_dirs.

(** A value [yaml.safe_load] returns. [YScalar] stands for the scalars that
    are not strings (null for an empty document, booleans, numbers, dates,
    binaries): none of them supports [in] with a string or indexing by
    one. *)
#[warnings="-register-all"]
Inductive yaml : Type :=
| YScalar
| YStr (s : str)
| YSeq (items : list yaml)
| YSet (items : list yaml)
| YMap (entries : list (yaml * yaml)).

(** What the operators raise on a value of the wrong kind. *)
Inductive operator_error : Type := TypeError | MissingKey.

(** [value == key] for a string [key]. *)
Definition is_str (key : str) (value : yaml) : bool :=
  match value with
  | YStr s => bool_decide (s = key)
  | _ => false
  end.

(** [key in container] for a string [key]: a substring of a string, an item
    of a sequence or a set, a key of a mapping. *)
Definition py_in (key : str) (container : yaml) : operator_error + bool :=
  match container with
  | YScalar => inl TypeError
  | YStr s => inr (contains s key)
  | YSeq items | YSet items => inr (existsb (is_str key) items)
  | YMap entries => inr (existsb (λ kv, is_str key kv.1) entries)
  end.

(** [container[key]] for a string [key]. *)
Definition py_index (container : yaml) (key : str) : operator_error + yaml :=
  match container with
  | YMap entries =>
      match find (λ kv, is_str key kv.1) entries with
      | Some kv => inr kv.2
      | None => inl MissingKey
      end
  | _ => inl TypeError
  end.

(** [all(key in container for key in keys)] *)
Fixpoint all_in (keys : list str) (container : yaml) : operator_error + bool :=
  match keys with
  | [] => inr true
  | key :: keys' =>
      match py_in key container with
      | inl e => inl e
      | inr false => inr false
      | inr true => all_in keys' container
      end
  end.

(** [isinstance(value, dict)] *)
Definition is_dict (value : yaml) : bool :=
  match value with YMap _ => true | _ => false end.

(** [validate_config] *)
Definition validate_config (config : yaml) : operator_error + bool :=
  match all_in [py "video_source"; py "models"] config with
  | inl e => inl e
  | inr false => inr false
  | inr true =>
      match py_in (py "models") config with
      | inl e => inl e
      | inr false => inr true
      | inr true =>
          match py_index config (py "models") with
          | inl e => inl e
          | inr models =>
              if negb (is_dict models) then inr false
              else
                match all_in [py "transcription"; py "summarization"] models with
                | inl e => inl e
                | inr false => inr false
                | inr true => inr true
                end
          end
      end
  end.

End utils.

(** ** app/summarizer.py *)

Module summarizer.

Module TransformerSummarizer.

Section Chunker.
(** [self.tokenizer.encode], whatever the token type is. *)
Context {Token : Type} (encode : str → list Token).

(** [[s.strip() for s in text.replace('\n', '. ').split('.') if s.strip()]] *)
Definition sentences_of (text : str) : list str :=
  map strip
    (List.filter (fun s => truthy (strip s))
       (split_char chr_dot (replace_char chr_nl (py ". ") text))).

(** The three loop variables of [_chunk_text]. *)
Record chunk_state : Type := ChunkState {
  chunks : list str;
  current_chunk : list str;
  current_length : Z
}.

(** One iteration of [for sentence in sentences]. *)
Definition chunk_step (max_chunk_size : Z) (st : chunk_state) (sentence : str)
  : chunk_state :=
  let sentence_tokens := Z.of_nat (length (encode sentence)) in
  if current_length st + sentence_tokens >? max_chunk_size then
    {| chunks := chunks st ++ [join (py " ") (current_chunk st)];
       current_chunk := [sentence];
       current_length := sentence_tokens |}
  else
    {| chunks := chunks st;
       current_chunk := current_chunk st ++ [sentence];
       current_length := current_length st + sentence_tokens |}.

Definition chunk_init : chunk_state :=
  {| chunks := []; current_chunk := []; current_length := 0 |}.

(** [TransformerSummarizer._chunk_text] *)
Definition _chunk_text (text : str) (max_chunk_size : Z) : list str :=
  let st := fold_left (chunk_step max_chunk_size) (sentences_of text) chunk_init in
  match current_chunk st with
  | [] => chunks st
  | _ :: _ => chunks st ++ [join (py " ") (current_chunk st)]
  end.

(** The token count of one unit, and the running token count the loop
    keeps for a group of units. *)
Definition unit_tokens (u : str) : nat := length (encode u).

Definition group_tokens (g : list str) : nat :=
  fold_right (fun u n => (unit_tokens u + n)%nat) 0%nat g.

(** A group of units respects the budget [B]: its running token count is
    at most [B], or it is one unit that alone exceeds [B]. *)
Definition within_budget (B : nat) (g : list str) : Prop :=
  (group_tokens g ≤ B)%nat ∨ ∃ u, g = [u] ∧ (B < unit_tokens u)%nat.

(** What the loop maintains: [gs] are the groups of units behind the
    chunks closed so far, and the open group is within budget with its
    count kept in [current_length]. *)
Definition chunk_inv (B : nat) (st : chunk_state) (gs : list (list str)) : Prop :=
  chunks st = map (join (py " ")) gs
  ∧ Forall (within_budget B) gs
  ∧ current_length st = Z.of_nat (group_tokens (current_chunk st))
  ∧ within_budget B (current_chunk st).

End Chunker.

(** The units of a text said without the string methods, to compare
    [sentences_of] with: the text is cut at every full stop and every
    newline, whitespace is taken off both ends of each piece, and the empty
    pieces are left out. *)
Definition is_stop (c : ascii) : bool := Ascii.eqb c chr_dot || Ascii.eqb c chr_nl.

Fixpoint cut_at_stops (text : str) : list str :=
  match text with
  | [] => [[]]
  | c :: text' =>
      if is_stop c then [] :: cut_at_stops text'
      else match cut_at_stops text' with
           | [] => [[c]]
           | piece :: pieces => (c :: piece) :: pieces
           end
  end.

Definition units_between_stops (text : str) : list str :=
  List.filter truthy (map strip (cut_at_stops text)).

(** The [for chunk in chunks] loop of [summarize]: one generated summary
    per chunk, in order. *)
Fixpoint summarize_chunks (ext : collaborators) (model_name : str) (chunks : list str)
  : M (list str) :=
  match chunks with
  | [] => mret []
  | chunk :: rest =>
      summary ← lift (generate ext model_name (py "summarize: " ++ chunk));
      summaries ← summarize_chunks ext model_name rest;
      mret (summary :: summaries)
  end.

(** [TransformerSummarizer.summarize], for the model [model_name]. *)
Definition summarize (ext : collaborators) (model_name : str) (text : str) : M str :=
  let chunks := _chunk_text (tokenizer_encode ext model_name) text 1024 in
  summaries ← summarize_chunks ext model_name chunks;
  mret (join (py " ") summaries).

End TransformerSummarizer.

(** The word counter [len(s.split())] as a tokenizer: one token per word. *)
Definition word_encode (s : str) : list str := split_ws s.

(** A tokenizer of one token per character. *)
Definition char_encode (s : str) : list ascii := s.

Inductive summarizer_class : Type := Transformer | GPT2.

Module SummarizerFactory.

(** [SummarizerFactory.create]: Bart, T5, Pegasus and MT5 are
    [TransformerSummarizer]s that differ in the model they load. *)
Definition create (ext : collaborators) (model_name : str) : M summarizer_class :=
  if bool_decide (model_name ∈ [py "bart"; py "t5"; py "pegasus"; py "mt5"]) then
    match summarizer_init ext model_name with
    | Some e => raise e
    | None => mret Transformer
    end
  else if bool_decide (model_name = py "gpt2") then
    match summarizer_init ext model_name with
    | Some e => raise e
    | None => mret GPT2
    end
  else raise (Exn ValueError (py "Unsupported summarization model: " ++ model_name)).

End SummarizerFactory.

Module Summarizer.

Definition output_dir : str := py "data/outputs/summaries".

(** The path [summarize] writes to. *)
Definition output_path_of (transcript_path model_name : str) : str :=
  let transcript_filename := os_path.basename transcript_path in
  let summary_filename :=
    fst (os_path.splitext transcript_filename)
      ++ py "_" ++ model_name ++ py ".md" in
  os_path.join output_dir summary_filename.

(** The second half of [summarize]: "Save summary". *)
Definition save_summary (transcript_path model_name summary : str) : M str :=
  let output_path := output_path_of transcript_path model_name in
  write_text output_path summary;;
  mret output_path.

(** [Summarizer.summarize] *)
Definition summarize (ext : collaborators) (transcript_path model_name : str) : M str :=
  transcript ← read_text transcript_path;
  config_lookup ext model_name;;
  summarizer ← SummarizerFactory.create ext model_name;
  summary ← match summarizer with
            | Transformer => TransformerSummarizer.summarize ext model_name transcript
            | GPT2 => lift (gpt2_summarize ext transcript)
            end;
  save_summary transcript_path model_name summary.

End Summarizer.

End summarizer.

(** ** app/transcriber.py *)

Module transcriber.

(** [len(transcript.split())] *)
Definition word_count (transcript : str) : nat := length (split_ws transcript).

Module WhisperTranscriber.

(** The keyword arguments of the first call of [self.model.transcribe]. *)
Definition first_options : decode_options :=
  {| initial_prompt :=
       Some (py "This is a lecture or educational video transcription.");
     condition_on_previous_text := Some true;
     word_timestamps := Some false;
     beam_size := None;
     best_of := None |}.

(** Those of the second call. *)
Definition retry_options : decode_options :=
  {| initial_prompt := None;
     condition_on_previous_text := None;
     word_timestamps := None;
     beam_size := Some 5;
     best_of := Some 5 |}.

(** [self.model.transcribe(audio_path, ...)["text"]], the call recorded. *)
Definition call_model (ext : collaborators) (options : decode_options)
    (audio_path : str) : M str :=
  λ w, (whisper_model ext options audio_path,
        {| w_fs := w_fs w; w_logs := w_logs w; w_calls := w_calls w ++ [options] |}).

Definition too_short_msg (word_count : nat) : str :=
  py "Transcription seems too short (only " ++ str_of_nat word_count ++ py " words)".

(** The body of the [try] block of [transcribe]. *)
Definition transcribe_body (ext : collaborators) (audio_path : str) : M str :=
  log_info transcriber_logger (py "Loading audio file: " ++ audio_path);;
  minutes ← lift (whisper_load_audio ext audio_path);
  log_info transcriber_logger (py "Audio duration: " ++ minutes ++ py " minutes");;
  transcript ← call_model ext first_options audio_path;
  let wc := word_count transcript in
  log_info transcriber_logger
    (py "Transcription complete. Word count: " ++ str_of_nat wc);;
  if negb (truthy transcript) then
    raise (Exn ValueError (py "Empty transcription result"))
  else
    transcript ←
      (if (wc <? 10)%nat then
         let error_msg := too_short_msg wc in
         log_error transcriber_logger error_msg;;
         log_info transcriber_logger
           (py "Retrying transcription with different parameters...");;
         transcript ← call_model ext retry_options audio_path;
         let wc := word_count transcript in
         if (wc <? 10)%nat then raise (Exn ValueError error_msg)
         else mret transcript
       else mret transcript);
    log_info transcriber_logger (py "Transcription successful");;
    mret transcript.

(** [WhisperTranscriber.transcribe] *)
Definition transcribe (ext : collaborators) (audio_path : str) : M str :=
  try_except (transcribe_body ext audio_path)
    (λ e, log_error transcriber_logger
            (py "Error in Whisper transcription: " ++ exn_msg e);;
          raise e).

End WhisperTranscriber.

Module VoskTranscriber.

(** [if "text" in result and result["text"]: transcription.append(...)] *)
Definition append_text (transcription : list str) (result : option str) : list str :=
  match result with
  | Some text => if truthy text then transcription ++ [text] else transcription
  | None => transcription
  end.

(** [VoskTranscriber.transcribe] *)
Definition transcribe (ext : collaborators) (audio_path : str) : M str :=
  '(results, final_result) ← lift (vosk_results ext audio_path);
  let transcription := fold_left append_text results [] in
  let transcription := append_text transcription final_result in
  mret (join (py " ") transcription).

End VoskTranscriber.

Inductive transcriber_class : Type := Whisper | Vosk.

Module TranscriberFactory.

(** [TranscriberFactory.create] *)
Definition create (ext : collaborators) (model_name : str) : M transcriber_class :=
  if bool_decide (model_name = py "whisper_base") then
    match whisper_init ext with Some e => raise e | None => mret Whisper end
  else if bool_decide (model_name = py "vosk") then
    match vosk_init ext with Some e => raise e | None => mret Vosk end
  else raise (Exn ValueError (py "Unsupported transcription model: " ++ model_name)).

End TranscriberFactory.

Module Transcriber.

Definition output_dir : str := py "data/outputs/transcripts".

(** [base_output_path] of [transcribe]. *)
Definition base_output_path_of (audio_path model_name : str) : str :=
  let audio_filename := os_path.basename audio_path in
  let transcript_filename :=
    fst (os_path.splitext audio_filename) ++ py "_" ++ model_name ++ py ".txt" in
  os_path.join output_dir transcript_filename.

(** [get_unique_filename] on the file system of the moment. *)
Definition unique_filename (base_path : str) : M str :=
  fs ← get_fs;
  match utils.get_unique_filename fs base_path with
  | Some path => mret path
  | None => raise (Exn LoopFuelExhausted base_path)
  end.

(** The second half of [transcribe]: "Save transcript with unique
    filename". *)
Definition save_transcript (audio_path model_name transcript : str) : M str :=
  let base_output_path := base_output_path_of audio_path model_name in
  output_path ← unique_filename base_output_path;
  write_text output_path transcript;;
  log_info transcriber_logger (py "Saved transcript to " ++ output_path);;
  mret output_path.

(** [Transcriber.transcribe] *)
Definition transcribe (ext : collaborators) (audio_path model_name : str) : M str :=
  config_lookup ext model_name;;
  transcriber ← TranscriberFactory.create ext model_name;
  transcript ← match transcriber with
               | Whisper => WhisperTranscriber.transcribe ext audio_path
               | Vosk => VoskTranscriber.transcribe ext audio_path
               end;
  save_transcript audio_path model_name transcript.

End Transcriber.

End transcriber.

(** ** app/video_loader.py *)

Module video_loader.

(** What [VideoLoader] relies on. *)
Record tools : Type := Tools {
  (* [self._validate_video(path)]: whether ffprobe finds a video stream,
     [False] when it fails with [ffmpeg.Error]; another exception goes
     through *)
  _validate_video : str → exn + bool;
  (* [datetime.now().strftime("%Y%m%d_%H%M%S")] *)
  timestamp : str;
  (* [str(uuid.uuid4())] *)
  uuid4 : str;
  (* [urlparse(url).netloc] *)
  netloc : str → str;
  _download_youtube : str → M str;
  _download_redentias : str → M str
}.

Definition output_dir : str := py "data/videos".

(** [_get_unique_path] *)
Definition _get_unique_path (t : tools) (base_path : str) : str :=
  let dir_name := os_path.dirname base_path in
  let '(file_name, ext) := os_path.splitext (os_path.basename base_path) in
  let unique_id := slice_to 8 (uuid4 t) in
  os_path.join dir_name
    (file_name ++ py "_" ++ timestamp t ++ py "_" ++ unique_id ++ ext).

(** [shutil.copy2(path, target_path)] into an existing directory. *)
Definition copy2 (path target_path : str) : M unit :=
  fs ← get_fs;
  match fs !! path with
  | Some b => utils.set_fs (<[target_path := b]> fs)
  | None =>
      if utils.isdir fs path then raise (utils.is_a_directory path)
      else raise (no_such_file path)
  end.

(** [is_local_file], [is_youtube_url] and [is_redentias_url] *)
Definition is_local_file (path : str) : M bool :=
  fs ← get_fs;
  mret (utils.exists_file_or_dir fs path).

Definition is_youtube_url (url : str) : bool :=
  contains url (py "youtube.com") || contains url (py "youtu.be").

Definition is_redentias_url (t : tools) (url : str) : bool :=
  contains (netloc t url) (py "redentias").

(** [_handle_local_file], with [lg] for [self.logger]. *)
Definition _handle_local_file (t : tools) (lg : logger) (path : str) : M str :=
  valid ← lift (_validate_video t path);
  if negb valid then raise (Exn ValueError (py "Invalid video file: " ++ path))
  else
    let filename := os_path.basename path in
    let target_path := os_path.join output_dir filename in
    (if bool_decide (path ≠ target_path) then
       let target_path := _get_unique_path t target_path in
       copy2 path target_path;;
       log_info lg (py "Copied video to " ++ target_path)
     else mret tt);;
    mret path.

(** [VideoLoader.load] *)
Definition load (t : tools) (lg : logger) (source : str) : M str :=
  local ← is_local_file source;
  if (local : bool) then _handle_local_file t lg source
  else if is_youtube_url source then _download_youtube t source
  else if is_redentias_url t source then _download_redentias t source
  else raise (Exn ValueError (py "Unsupported video source: " ++ source)).

End video_loader.

(** ** app/audio_extractor.py *)

Module audio_extractor.

(** What the ffmpeg bindings raise: [ffmpeg.Error], with its [stderr]
    (empty when there is none) and [str(e)], or another exception. *)
Inductive raised : Type :=
| FfmpegError (stderr : bytes) (text : str)
| OtherError (e : exn).

(** What [ffmpeg.probe] returned, as [validate_video] reads it. *)
Record probe_result : Type := ProbeResult {
  (* [float(probe['format']['duration']) < 1.0], or what evaluating it
     raises *)
  duration_below_one : exn + bool;
  (* [stream['codec_type']] of each of [probe['streams']], where the stream
     has one *)
  codec_types : list (option str)
}.

(** The tools [AudioExtractor] relies on. *)
Record tools : Type := Tools {
  (* [ffmpeg.probe(video_path)] *)
  probe : str → raised + probe_result;
  (* [str(uuid.uuid4())]: hexadecimal digits and hyphens *)
  uuid4 : str;
  (* building the ffmpeg stream from the video to the output path and
     [ffmpeg.run] of it *)
  run : str → str → World → (raised + unit) * World
}.

(** [any(stream['codec_type'] == 'audio' for stream in probe['streams'])] *)
Fixpoint has_audio (codec_types : list (option str)) : exn + bool :=
  match codec_types with
  | [] => inr false
  | None :: _ => inl (Exn KeyError (py "'codec_type'"))
  | Some codec_type :: rest =>
      if bool_decide (codec_type = py "audio") then inr true else has_audio rest
  end.

(** [AudioExtractor.validate_video] *)
Definition validate_video (t : tools) (video_path : str) : bool * option str :=
  match probe t video_path with
  | inl (FfmpegError _ text) => (false, Some (py "FFmpeg error: " ++ text))
  | inl (OtherError e) => (false, Some (py "Validation error: " ++ exn_msg e))
  | inr info =>
      match duration_below_one info with
      | inl e => (false, Some (py "Validation error: " ++ exn_msg e))
      | inr true => (false, Some (py "Video duration is too short"))
      | inr false =>
          match has_audio (codec_types info) with
          | inl e => (false, Some (py "Validation error: " ++ exn_msg e))
          | inr false => (false, Some (py "No audio stream found in video"))
          | inr true => (true, None)
          end
      end
  end.

(** [f"{error}"] for an [Optional[str]]. *)
Definition format_optional (error : option str) : str :=
  match error with Some text => text | None => py "None" end.

(** [str(self.output_dir / f"{name}_{unique_id}.wav")]: the file name holds
    no slash. *)
Definition output_path_of (t : tools) (video_path : str) : str :=
  let video_filename := os_path.basename video_path in
  let name := fst (os_path.splitext video_filename) in
  let unique_id := slice_to 8 (uuid4 t) in
  py "data/audios" ++ py "/" ++ name ++ py "_" ++ unique_id ++ py ".wav".

(** The [try] block of [extract]. *)
Definition extract_body (t : tools) (lg : logger) (video_path output_path : str)
  : World → (raised + str) * World :=
  λ w,
    let w1 := (log_info lg (py "Extracting audio to " ++ output_path) w).2 in
    match run t video_path output_path w1 with
    | (inl r, w2) => (inl r, w2)
    | (inr _, w2) =>
        let invalid := match w_fs w2 !! output_path with
                       | None => true
                       | Some b => Z.of_nat (length b) <? 1024
                       end in
        if invalid then
          (inl (OtherError
                  (Exn ValueError (py "Audio extraction produced no or invalid output"))),
           w2)
        else (inr output_path, w2)
    end.

(** [AudioExtractor.extract], with [lg] for [self.logger]. *)
Definition extract (t : tools) (lg : logger) (video_path : str) : M str :=
  let '(is_valid, error) := validate_video t video_path in
  if negb is_valid then
    raise (Exn ValueError (py "Invalid video file: " ++ format_optional error))
  else
    λ w,
      match extract_body t lg video_path (output_path_of t video_path) w with
      | (inr output_path, w') => (inr output_path, w')
      | (inl (FfmpegError stderr text), w') =>
          if truthy stderr then
            match utf8_decode stderr with
            | Some error_msg =>
                (inl (Exn ValueError
                        (py "FFmpeg error during audio extraction: " ++ error_msg)), w')
            | None => (inl (Exn ExternalError (py "UnicodeDecodeError")), w')
            end
          else
            (inl (Exn ValueError (py "FFmpeg error during audio extraction: " ++ text)),
             w')
      | (inl (OtherError e), w') =>
          (inl (Exn ValueError (py "Error during audio extraction: " ++ exn_msg e)), w')
      end.

End audio_extractor.

(** ** app/note_generator.py *)

Module note_generator.

(** What [NoteGenerator] relies on: the language tools, and the operating
    system when a file is opened for writing. *)
Record pipelines : Type := Pipelines {
  (* [open(path, "w", encoding="utf-8")] raising for a reason the file
     system does not show here (permissions, a missing directory) *)
  open_refused : str → option exn;
  (* [nltk.tokenize.sent_tokenize] *)
  sent_tokenize : str → exn + list str;
  (* [self.text2text(prompt, max_length=..., min_length=...)[0]['generated_text']],
     by [max_length] and [min_length] *)
  text2text : Z → option Z → str → exn + str;
  (* [self.qa(question=question, context=context)]: whether
     [answer['score'] > 0.1], and [answer['answer']] *)
  qa : str → str → exn + (bool * str)
}.

Definition output_dir : str := py "data/outputs/notes".
Definition faq_dir : str := py "data/outputs/faqs".

(** [range(0, stop, step)] for a positive [step]: at most [stop] values. *)
Fixpoint range_loop (fuel i stop step : nat) : list nat :=
  match fuel with
  | O => []
  | S fuel' =>
      if (i <? stop)%nat then i :: range_loop fuel' (i + step) stop step else []
  end.

Definition range (stop step : nat) : list nat := range_loop stop 0 stop step.

(** [max(3, len(sentences) // 5)] *)
Definition section_size (sentences : list str) : nat :=
  Nat.max 3 (length sentences / 5).

(** [sentences[i:i + section_size]] for each [i] of the loop. *)
Definition sections (sentences : list str) : list (list str) :=
  let section_size := section_size sentences in
  map (λ i, firstn section_size (skipn i sentences))
    (range (length sentences) section_size).

(** The loop over the sections: one block of bullet points per section. *)
Fixpoint section_notes (p : pipelines) (secs : list (list str)) : exn + list str :=
  match secs with
  | [] => inr []
  | sec :: rest =>
      let section := Py.join (py " ") sec in
      let prompt := py "summarize into bullet points: " ++ section in
      match text2text p 150 (Some 30) prompt with
      | inl e => inl e
      | inr bullet_points =>
          match section_notes p rest with
          | inl e => inl e
          | inr notes => inr (replace_char chr_nl (chr_nl :: py "- ") bullet_points :: notes)
          end
      end
  end.

(** The loop over the topics: one entry per topic whose answer is
    confident. *)
Fixpoint faq_entries (p : pipelines) (summary : str) (topics : list str)
  : exn + list str :=
  match topics with
  | [] => inr []
  | topic :: rest =>
      let question := py "What is " ++ strip topic ++ py "?" in
      match qa p question summary with
      | inl e => inl e
      | inr (confident, answer) =>
          match faq_entries p summary rest with
          | inl e => inl e
          | inr faqs =>
              inr (if (confident : bool) then
                     (chr_nl :: py "### Q: " ++ question ++ chr_nl :: answer ++ [chr_nl])
                     :: faqs
                   else faqs)
          end
      end
  end.

Definition notes_path_of (summary_path : str) : str :=
  let summary_filename := os_path.basename summary_path in
  os_path.join output_dir (fst (os_path.splitext summary_filename) ++ py "_notes.md").

Definition faq_path_of (summary_path : str) : str :=
  let summary_filename := os_path.basename summary_path in
  os_path.join faq_dir (fst (os_path.splitext summary_filename) ++ py "_faqs.md").

(** [with open(path, "w", encoding="utf-8") as f: f.write(text)], where
    opening can fail: a directory is refused, and so is what the operating
    system refuses; nothing is written then. *)
Definition open_and_write (p : pipelines) (path text : str) : M unit :=
  fs ← get_fs;
  if utils.isdir fs path then raise (utils.is_a_directory path)
  else construct (open_refused p path);;
       write_text path text.

(** [NoteGenerator.generate] *)
Definition generate (p : pipelines) (summary_path : str) : M (str * str) :=
  summary ← read_text summary_path;
  sentences ← lift (sent_tokenize p summary);
  notes ← lift (section_notes p (sections sentences));
  let notes_text :=
    py "# Summary Notes" ++ [chr_nl; chr_nl] ++ Py.join [chr_nl; chr_nl] notes in
  generated ← lift (text2text p 100 None
                      (py "extract main topics: " ++ slice_to 1000 summary));
  let topics := split_char (ascii_of_nat 44) generated in
  faqs ← lift (faq_entries p summary (firstn 5 topics));
  let faq_text := concat ((py "# Frequently Asked Questions" ++ [chr_nl; chr_nl]) :: faqs) in
  let notes_path := notes_path_of summary_path in
  let faq_path := faq_path_of summary_path in
  open_and_write p notes_path notes_text;;
  open_and_write p faq_path faq_text;;
  mret (notes_path, faq_path).

End note_generator.

(** ** app/model_selector.py *)

Module model_selector.

(** [self.models]: the profiles by model name, in the order of the file; of
    a profile, its ["type"] entry if it has one (asking a profile without
    one for its type raises). *)
Definition profiles : Type := list (str * option str).

(** [self.models[model_name]], if the name is a key. *)
Fixpoint profile_of (models : profiles) (model_name : str) : option (option str) :=
  match models with
  | [] => None
  | (name, config) :: models' =>
      if bool_decide (name = model_name) then Some config
      else profile_of models' model_name
  end.

Definition missing_type : exn := Exn KeyError (py "'type'").

(** [[name for name, config in self.models.items() if config["type"] == task_type]] *)
Fixpoint models_of_type (models : profiles) (task_type : str) : exn + list str :=
  match models with
  | [] => inr []
  | (name, None) :: _ => inl missing_type
  | (name, Some type) :: models' =>
      match models_of_type models' task_type with
      | inl e => inl e
      | inr names => inr (if bool_decide (type = task_type) then name :: names else names)
      end
  end.

(** [get_transcription_models] and [get_summarization_models] *)
Definition get_transcription_models (models : profiles) : exn + list str :=
  models_of_type models (py "transcription").

Definition get_summarization_models (models : profiles) : exn + list str :=
  models_of_type models (py "summarization").

(** [validate_model] *)
Definition validate_model (models : profiles) (model_name task_type : str) : exn + bool :=
  match profile_of models model_name with
  | None => inr false
  | Some None => inl missing_type
  | Some (Some type) => inr (bool_decide (type = task_type))
  end.

End model_selector.

(** ** scripts/run_all.py *)

Module run_all.
Import transcriber summarizer.

(** [validate_file_output] *)
Definition validate_file_output (file_path : str) (min_size_bytes : Z) : M bool :=
  fs ← get_fs;
  if negb (path_exists fs file_path) then mret false
  else
    size ← getsize file_path;
    mret (size >=? min_size_bytes).

(** [config["models"]["transcription"]] and [config["models"]["summarization"]] *)
Record config : Type := Config {
  transcription : list str;
  summarization : list str
}.

(** [for model_name in config["models"]["transcription"]] *)
Fixpoint transcribe_models (ext : collaborators) (lg : logger) (audio_path : str)
    (models : list str) (transcripts : dict) : M dict :=
  match models with
  | [] => mret transcripts
  | model_name :: models' =>
      log_info lg (py "Transcribing with " ++ model_name);;
      transcript_path ← Transcriber.transcribe ext audio_path model_name;
      valid ← validate_file_output transcript_path 500;
      if negb valid then
        log_error lg (py "Transcript from " ++ model_name ++ py " seems too short");;
        transcribe_models ext lg audio_path models' transcripts
      else
        let transcripts := dict_set transcripts model_name transcript_path in
        log_info lg
          (py "Transcription with " ++ model_name ++ py " completed successfully");;
        transcribe_models ext lg audio_path models' transcripts
  end.

(** [for summary_model in config["models"]["summarization"]], for one
    transcript. *)
Fixpoint summarize_models (ext : collaborators) (lg : logger)
    (transcript_model transcript_path : str) (models : list str) (summaries : dict)
    : M dict :=
  match models with
  | [] => mret summaries
  | summary_model :: models' =>
      log_info lg (py "Summarizing " ++ transcript_model ++ py " transcript with "
                     ++ summary_model);;
      summary_path ← Summarizer.summarize ext transcript_path summary_model;
      valid ← validate_file_output summary_path 200;
      if negb valid then
        log_error lg (py "Summary using " ++ summary_model ++ py " seems too short");;
        summarize_models ext lg transcript_model transcript_path models' summaries
      else
        let summaries :=
          dict_set summaries (transcript_model ++ py "_" ++ summary_model) summary_path in
        log_info lg
          (py "Summarization with " ++ summary_model ++ py " completed successfully");;
        summarize_models ext lg transcript_model transcript_path models' summaries
  end.

(** [for transcript_model, transcript_path in transcripts.items()] *)
Fixpoint summarize_transcripts (ext : collaborators) (lg : logger) (models : list str)
    (transcripts : dict) (summaries : dict) : M dict :=
  match transcripts with
  | [] => mret summaries
  | (transcript_model, transcript_path) :: transcripts' =>
      summaries ← summarize_models ext lg transcript_model transcript_path models summaries;
      summarize_transcripts ext lg models transcripts' summaries
  end.

(** The body of the [try] inside [for model_combo, summary_path in
    summaries.items()]. *)
Definition derive_one (ext : collaborators) (lg : logger) (model_combo summary_path : str)
  : M unit :=
  log_info lg (py "Generating mind map for " ++ model_combo);;
  mindmap_path ← mindmap_generate ext summary_path;
  valid ← validate_file_output mindmap_path 100;
  (if negb valid then log_error lg (py "Mind map generation failed for " ++ model_combo)
   else mret tt);;
  log_info lg (py "Generating notes and FAQs for " ++ model_combo);;
  '(notes_path, faq_path) ← notes_generate ext summary_path;
  notes_valid ← validate_file_output notes_path 100;
  both_valid ← (if (notes_valid : bool) then validate_file_output faq_path 100 else mret false);
  if negb both_valid then log_error lg (py "Notes/FAQ generation failed for " ++ model_combo)
  else mret tt.

Fixpoint derive_all (ext : collaborators) (lg : logger) (summaries : dict) : M unit :=
  match summaries with
  | [] => mret tt
  | (model_combo, summary_path) :: summaries' =>
      try_except (derive_one ext lg model_combo summary_path)
        (λ e, log_error lg (py "Error processing " ++ model_combo ++ py ": " ++ exn_msg e));;
      derive_all ext lg summaries'
  end.

(** "Generate mind maps and notes": the two generators are made, outside
    the [try] of the loop, and the loop runs. *)
Definition derive_stage (ext : collaborators) (lg : logger) (summaries : dict) : M unit :=
  construct (mindmap_init ext);;
  construct (notes_init ext);;
  derive_all ext lg summaries.

(** The body of the outer [try] of [process_video]. *)
Definition process_video_body (ext : collaborators) (lg : logger) (cfg : config)
    (video_source : str) : M unit :=
  log_info lg (py "Loading video from " ++ video_source);;
  video_path ← video_load ext video_source;
  valid ← validate_file_output video_path 100;
  if negb valid then raise (Exn ValueError (py "Video loading failed")) else
  log_info lg (py "Extracting audio");;
  audio_path ← audio_extract ext video_path;
  valid ← validate_file_output audio_path 100;
  if negb valid then raise (Exn ValueError (py "Audio extraction failed")) else
  log_info lg (py "Starting transcription");;
  construct (transcriber_runner_init ext);;
  transcripts ← transcribe_models ext lg audio_path (transcription cfg) [];
  if bool_decide (transcripts = []) then
    raise (Exn ValueError (py "All transcription attempts failed"))
  else
  log_info lg (py "Generating summaries");;
  construct (summarizer_runner_init ext);;
  summaries ← summarize_transcripts ext lg (summarization cfg) transcripts [];
  if bool_decide (summaries = []) then
    raise (Exn ValueError (py "All summarization attempts failed"))
  else
  derive_stage ext lg summaries;;
  log_info lg (py "Processing complete!").

(** [process_video] *)
Definition process_video (ext : collaborators) (cfg : config) (video_source : str)
  : M unit :=
  construct (model_selector_init ext);;
  let video_name := utils.get_video_name video_source in
  construct (logging_init ext video_name);;
  let lg := run_logger video_name in
  try_except (process_video_body ext lg cfg video_source)
    (λ e, log_error lg (py "Error during processing: " ++ exn_msg e);;
          raise e).

(** The run entered the Summarizing stage: its logger announced it. *)
Definition entered_summarizing (w : World) : bool :=
  logged INFO (py "Generating summaries") w.


(** The cleaning [main] does before it loads the configuration, from the
    arguments [--clean] and [--video]. *)
Definition clean_requested (clean video : str) : M unit :=
  let video_name := utils.get_video_name video in
  if bool_decide (clean = py "all") then utils.clean_output_directories None
  else if bool_decide (clean = py "video") then
    utils.clean_output_directories (Some video_name)
  else mret tt.

End run_all.

(** ** A concrete run, to evaluate the pipeline on *)

Module scenario.
Import run_all.

Definition video : str := py "lecture.mp4".
Definition audio : str := py "data/audios/lecture_0a1b2c3d.wav".

(** Media content: 2048 bytes. *)
Definition media : bytes := repeat (ascii_of_nat 120) 2048.

(** A hundred words, 799 bytes. *)
Definition speech : str := join (py " ") (repeat (py "lecture") 100).

(** Three words. *)
Definition mumble : str := py "uh well okay".

(** Forty words, 319 bytes. *)
Definition digest : str := join (py " ") (repeat (py "summary") 40).

(** [write(path, content)] as a collaborator does it, returning [path]. *)
Definition produce (path : str) (content : bytes) : M str :=
  λ w, (inr path, {| w_fs := <[path := content]> (w_fs w);
                     w_logs := w_logs w;
                     w_calls := w_calls w |}).

(** Collaborators of a run on a local video: every model is configured and
    loads; the speech model returns [whisper_first] on its first call and
    [whisper_retry] on a call with beam search; the recognizer hears
    [vosk_text] in one piece; every summarization model generates [digest];
    the tokenizers count words; the derivative generators write small
    files. *)
Definition ext (whisper_first whisper_retry vosk_text : str) : collaborators :=
  {| model_selector_init := None;
     logging_init := λ _, None;
     transcriber_runner_init := None;
     summarizer_runner_init := None;
     has_profile := λ _, true;
     whisper_init := None;
     whisper_load_audio := λ _, inr (py "12.50");
     whisper_model := λ options _,
       match beam_size options with
       | None => inr whisper_first
       | Some _ => inr whisper_retry
       end;
     vosk_init := None;
     vosk_results := λ _, inr ([Some vosk_text], Some []);
     summarizer_init := λ _, None;
     tokenizer_encode := λ _ text, map (λ _, 0%nat) (split_ws text);
     generate := λ _ _, inr digest;
     gpt2_summarize := λ _, inr digest;
     video_load := λ source, mret source;
     audio_extract := λ _, produce audio media;
     mindmap_init := None;
     mindmap_generate := λ _, produce (py "data/outputs/mindmaps/m.png") media;
     notes_init := None;
     notes_generate := λ _,
       notes ← produce (py "data/outputs/notes/n.md") media;
       faqs ← produce (py "data/outputs/faqs/f.md") media;
       mret (notes, faqs) |}.

(** The world before the run: the video and nothing else. *)
Definition world0 : World :=
  {| w_fs := {[ video := media ]}; w_logs := []; w_calls := [] |}.


(** Media tools that work: the probe finds a video with sound, and ffmpeg
    writes the audio. *)
Definition working_tools : audio_extractor.tools :=
  {| audio_extractor.probe := λ _,
       inr {| audio_extractor.duration_below_one := inr false;
              audio_extractor.codec_types := [Some (py "video"); Some (py "audio")] |};
     audio_extractor.uuid4 := py "0a1b2c3d-4e5f-4a6b-8c7d-9e0f1a2b3c4d";
     audio_extractor.run := λ _ output w,
       (inr tt, {| w_fs := <[output := media]> (w_fs w);
                   w_logs := w_logs w;
                   w_calls := w_calls w |}) |}.

(** Media tools that fail: the probe cannot read the file. *)
Definition failing_tools : audio_extractor.tools :=
  {| audio_extractor.probe := λ _,
       inl (audio_extractor.FfmpegError [] (py "ffprobe error"));
     audio_extractor.uuid4 := py "0a1b2c3d-4e5f-4a6b-8c7d-9e0f1a2b3c4d";
     audio_extractor.run := λ _ _ w, (inr tt, w) |}.

(** A loader for local files. *)
Definition loader_tools : video_loader.tools :=
  {| video_loader._validate_video := λ _, inr true;
     video_loader.timestamp := py "20240131_093000";
     video_loader.uuid4 := py "0a1b2c3d-4e5f-4a6b-8c7d-9e0f1a2b3c4d";
     video_loader.netloc := λ _, [];
     video_loader._download_youtube := λ url, mret url;
     video_loader._download_redentias := λ url, mret url |}.

(** Model profiles: two transcription models and two summarization
    models. *)
Definition profiles : model_selector.profiles :=
  [(py "whisper_base", Some (py "transcription"));
   (py "vosk", Some (py "transcription"));
   (py "bart", Some (py "summarization"));
   (py "t5", Some (py "summarization"))].


(** Language tools for the notes: one sentence, one topic, a confident
    answer; the operating system refuses no file. *)
Definition note_tools : note_generator.pipelines :=
  {| note_generator.open_refused := λ _, None;
     note_generator.sent_tokenize := λ summary, inr [summary];
     note_generator.text2text := λ _ _ _, inr (py "lectures");
     note_generator.qa := λ _ _, inr (true, py "talks") |}.

(** A world with a summary, where a directory is in the place of the file
    of its questions. *)
Definition world_with_faq_directory : World :=
  {| w_fs := <[py "data/outputs/faqs/lecture_bart_faqs.md/draft" := py "x"]>
               {[ py "data/outputs/summaries/lecture_bart.md" := digest ]};
     w_logs := []; w_calls := [] |}.
End scenario.

(** * Properties *)

(** ** The text chunker *)

Section UnitFacts.
Import summarizer summarizer.TransformerSummarizer.

Lemma lstrip_snoc_space (c : ascii) (s : str) :
  isspace c = true →
  lstrip (s ++ [c]) = match lstrip s with [] => [] | _ :: _ => lstrip s ++ [c] end.
Proof.
  intros Hc. induction s as [|x s IH]; simpl.
  - rewrite Hc. reflexivity.
  - destruct (isspace x); [exact IH | reflexivity].
Qed.

(** Whitespace in front of a string does not show after [strip]. *)
Lemma strip_space_cons (c : ascii) (s : str) :
  isspace c = true → strip (c :: s) = strip s.
Proof.
  intros Hc. unfold strip, rstrip. simpl rev. rewrite (lstrip_snoc_space c _ Hc).
  destruct (lstrip (rev s)) as [|x l]; [reflexivity |].
  rewrite rev_app_distr. simpl rev at 1. simpl app. simpl lstrip. rewrite Hc.
  reflexivity.
Qed.

Lemma strip_filter_map (l : list str) :
  map strip (List.filter (λ s, truthy (strip s)) l) = List.filter truthy (map strip l).
Proof.
  induction l as [|s l IH]; simpl; [reflexivity |].
  destruct (truthy (strip s)); simpl; rewrite IH; reflexivity.
Qed.

(** The pieces the code splits the text into are those between the stops,
    but for a space in front of a piece that follows a newline. *)
Lemma split_replace_cut (text : str) :
  ∃ head rest rest',
    split_char chr_dot (replace_char chr_nl (py ". ") text) = head :: rest
    ∧ cut_at_stops text = head :: rest'
    ∧ Forall2 (λ p q, p = q ∨ p = ascii_of_nat 32 :: q) rest rest'.
Proof.
  induction text as [|c text (head & rest & rest' & Hsplit & Hcut & Hrel)].
  - exists [], [], []. repeat split. constructor.
  - unfold replace_char in *. cbn [flat_map cut_at_stops]. rewrite Hcut.
    unfold is_stop.
    destruct (Ascii.eqb_spec c chr_nl) as [-> | Hnl].
    + cbn. cbn in Hsplit. rewrite Hsplit.
      exists [], ((ascii_of_nat 32 :: head) :: rest), (head :: rest').
      repeat split. constructor; [right; reflexivity | exact Hrel].
    + destruct (Ascii.eqb_spec c chr_dot) as [-> | Hdot].
      * cbn. cbn in Hsplit. rewrite Hsplit.
        exists [], (head :: rest), (head :: rest').
        repeat split. constructor; [left; reflexivity | exact Hrel].
      * cbn [app split_char orb]. rewrite (proj2 (Ascii.eqb_neq c chr_dot) Hdot).
        rewrite Hsplit. exists (c :: head), rest, rest'. repeat split. exact Hrel.
Qed.

(** The units [_chunk_text] works on are the trimmed, non-empty pieces of
    the text between full stops and newlines. *)
Lemma sentences_of_units (text : str) : sentences_of text = units_between_stops text.
Proof.
  unfold sentences_of, units_between_stops. rewrite strip_filter_map.
  destruct (split_replace_cut text) as (head & rest & rest' & -> & -> & Hrel).
  f_equal. simpl. f_equal.
  induction Hrel as [|p q rest rest' [-> | ->] _ IH]; simpl; [reflexivity | |];
    rewrite IH; [reflexivity |].
  rewrite strip_space_cons by reflexivity. reflexivity.
Qed.

End UnitFacts.

Section ChunkerFacts.
Import summarizer summarizer.TransformerSummarizer.
Context {Token : Type} (encode : str → list Token).

Lemma group_tokens_app (g h : list str) :
  group_tokens encode (g ++ h)
  = (group_tokens encode g + group_tokens encode h)%nat.
Proof. induction g as [|u g IH]; simpl; [reflexivity | rewrite IH; lia]. Qed.

Lemma within_budget_single (B : nat) (u : str) : within_budget encode B [u].
Proof.
  destruct (le_lt_dec (unit_tokens encode u) B) as [Hle | Hlt].
  - left. simpl. lia.
  - right. exists u. split; [reflexivity | exact Hlt].
Qed.

(** One iteration keeps the invariant and neither drops nor reorders units. *)
Lemma chunk_step_inv (B : nat) (st : chunk_state) (gs : list (list str)) (s : str) :
  chunk_inv encode B st gs →
  ∃ gs', chunk_inv encode B (chunk_step encode (Z.of_nat B) st s) gs'
         ∧ concat gs' ++ current_chunk (chunk_step encode (Z.of_nat B) st s)
           = (concat gs ++ current_chunk st) ++ [s].
Proof.
  intros (Hch & Hgs & Hlen & Hcur). unfold chunk_step.
  destruct (Z.gtb_spec (current_length st + Z.of_nat (length (encode s))) (Z.of_nat B))
    as [Hover | Hfits]; simpl.
  - exists (gs ++ [current_chunk st]). split.
    + repeat split; simpl.
      * rewrite Hch, map_app. reflexivity.
      * apply Forall_app. split; [exact Hgs | constructor; [exact Hcur | constructor]].
      * unfold unit_tokens. lia.
      * apply within_budget_single.
    + rewrite concat_app. simpl. rewrite app_nil_r, <- app_assoc. reflexivity.
  - exists gs. split.
    + repeat split; simpl; try assumption.
      * rewrite group_tokens_app. simpl. unfold unit_tokens. lia.
      * left. rewrite group_tokens_app. simpl. unfold unit_tokens. lia.
    + rewrite app_assoc. reflexivity.
Qed.

Lemma chunk_loop_inv (B : nat) (ss : list str) :
  ∀ (st : chunk_state) (gs : list (list str)),
    chunk_inv encode B st gs →
    ∃ gs', chunk_inv encode B (fold_left (chunk_step encode (Z.of_nat B)) ss st) gs'
           ∧ concat gs'
               ++ current_chunk (fold_left (chunk_step encode (Z.of_nat B)) ss st)
             = (concat gs ++ current_chunk st) ++ ss.
Proof.
  induction ss as [|s ss IH]; intros st gs Hinv; simpl.
  - exists gs. split; [exact Hinv | rewrite app_nil_r; reflexivity].
  - destruct (chunk_step_inv B st gs s Hinv) as (gs1 & Hinv1 & Hcat1).
    destruct (IH _ gs1 Hinv1) as (gs2 & Hinv2 & Hcat2).
    exists gs2. split; [exact Hinv2 |].
    rewrite Hcat2, Hcat1, <- app_assoc. reflexivity.
Qed.

Lemma chunk_init_inv (B : nat) : chunk_inv encode B chunk_init [].
Proof.
  split; [reflexivity |]. split; [constructor |]. split; [reflexivity |].
  left. simpl. lia.
Qed.

(** An oversized unit can only sit in a group of its own. *)
Lemma within_budget_oversized (B : nat) (g : list str) (u : str) :
  within_budget encode B g → In u g → (B < unit_tokens encode u)%nat → g = [u].
Proof.
  intros [Hle | (v & -> & _)] Hin Hbig.
  - exfalso. revert Hle. induction g as [|w g IH]; simpl in *; [tauto |].
    destruct Hin as [-> | Hin]; [lia | intros; apply IH; [exact Hin | lia]].
  - destruct Hin as [-> | []]. reflexivity.
Qed.

(** The groups of units behind the chunks of [_chunk_text]. *)
Lemma chunk_text_groups (text : str) (B : nat) :
  ∃ groups : list (list str),
    _chunk_text encode text (Z.of_nat B) = map (join (py " ")) groups
    ∧ concat groups = sentences_of text
    ∧ Forall (within_budget encode B) groups.
Proof.
  destruct (chunk_loop_inv B (sentences_of text) chunk_init [] (chunk_init_inv B))
    as (gs & (Hch & Hgs & _ & Hcur) & Hcat).
  simpl in Hcat. unfold _chunk_text.
  destruct (current_chunk (fold_left _ _ _)) as [|u0 cur] eqn:Ecur.
  - exists gs. rewrite app_nil_r in Hcat. repeat split; assumption.
  - exists (gs ++ [u0 :: cur]). repeat split.
    + rewrite Hch, map_app. reflexivity.
    + rewrite concat_app. simpl. rewrite app_nil_r. exact Hcat.
    + apply Forall_app. split; [exact Hgs | constructor; [exact Hcur | constructor]].
Qed.

(** For a token counter that counts the join of two texts by a space as at
    most the two counts together, the chunk of a group of units has at most
    the running count of the group. *)
Lemma join_tokens_le (g : list str) :
  (∀ a b, (length (encode (a ++ py " " ++ b))
           ≤ length (encode a) + length (encode b))%nat) →
  g ≠ [] →
  (length (encode (join (py " ") g)) ≤ group_tokens encode g)%nat.
Proof.
  intros Hsub. induction g as [|u g IH]; [congruence |]. intros _.
  destruct g as [|v g].
  - simpl. unfold unit_tokens. lia.
  - change (join (py " ") (u :: v :: g)) with (u ++ py " " ++ join (py " ") (v :: g)).
    change (group_tokens encode (u :: v :: g))
      with (unit_tokens encode u + group_tokens encode (v :: g))%nat.
    specialize (IH ltac:(discriminate)).
    pose proof (Hsub u (join (py " ") (v :: g))). unfold unit_tokens. lia.
Qed.

(** C4 (amended). For every tokenizer, every text and every token budget
    [B] (a token count, handed to the code as the [int] it takes): the units
    of the text are its trimmed, non-empty pieces between full stops and
    newlines; the chunks returned by [_chunk_text] are the joins, by one
    space, of groups of whole units that, concatenated, are exactly the
    units in order (no unit is dropped, split or moved); every group has a
    running token count, the sum of the counts of its units, of at most [B]
    unless it consists of one unit that alone exceeds [B]; a unit that
    exceeds [B] appears as a group of its own and is never grouped with
    another unit; and when the tokenizer counts the join of two texts by a
    space as at most the two counts together, every chunk that is not the
    empty one has itself a token count of at most [B], unless it is one unit
    that alone exceeds [B]. *)
Theorem chunk_text_within_budget (text : str) (B : nat) :
  sentences_of text = units_between_stops text
  ∧ ∃ groups : list (list str),
      _chunk_text encode text (Z.of_nat B) = map (join (py " ")) groups
      ∧ concat groups = sentences_of text
      ∧ Forall (within_budget encode B) groups
      ∧ (∀ u, In u (sentences_of text) → (B < unit_tokens encode u)%nat →
              In [u] groups ∧ ∀ g, In g groups → In u g → g = [u])
      ∧ ((∀ a b, (length (encode (a ++ py " " ++ b))
                  ≤ length (encode a) + length (encode b))%nat) →
         Forall (λ g, g = []
                      ∨ (length (encode (join (py " ") g)) ≤ B)%nat
                      ∨ ∃ u, g = [u] ∧ (B < unit_tokens encode u)%nat) groups).
Proof.
  split; [apply sentences_of_units |].
  destruct (chunk_text_groups text B) as (groups & Hout & Hcat & Hall).
  exists groups. split; [exact Hout |]. split; [exact Hcat |]. split; [exact Hall |].
  split.
  - rewrite Forall_forall in Hall.
    assert (Halone : ∀ g u, In g groups → In u g → (B < unit_tokens encode u)%nat
                            → g = [u]).
    { intros g u Hg. apply within_budget_oversized, Hall, list_elem_of_In, Hg. }
    intros u Hu Hbig. split; [| intros g Hg Hin; exact (Halone g u Hg Hin Hbig)].
    rewrite <- Hcat in Hu. apply in_concat in Hu as (g & Hg & Hin).
    rewrite <- (Halone g u Hg Hin Hbig). exact Hg.
  - intros Hsub. eapply Forall_impl; [exact Hall |].
    intros g [Hle | Hone]; [| right; right; exact Hone].
    destruct g as [|u g]; [left; reflexivity |].
    right. left. etransitivity; [apply join_tokens_le; [exact Hsub | discriminate] |].
    exact Hle.
Qed.

(** The loop only ever appends to [chunks]. *)
Lemma chunk_loop_chunks (max_chunk_size : Z) (ss : list str) :
  ∀ st, ∃ more,
    chunks (fold_left (chunk_step encode max_chunk_size) ss st) = chunks st ++ more.
Proof.
  induction ss as [|s ss IH]; intros st; simpl.
  - exists []. rewrite app_nil_r. reflexivity.
  - destruct (IH (chunk_step encode max_chunk_size st s)) as (more & ->).
    unfold chunk_step.
    destruct (_ >? _); simpl; [| eauto].
    rewrite <- app_assoc. eauto.
Qed.

(** Whenever the first sentence alone exceeds the budget, the first chunk
    returned is the empty string. *)
Lemma chunk_text_leading_empty_chunk (text : str) (max_chunk_size : Z)
    (s : str) (rest : list str) :
  sentences_of text = s :: rest →
  max_chunk_size < Z.of_nat (length (encode s)) →
  ∃ cs, _chunk_text encode text max_chunk_size = [] :: cs.
Proof.
  intros Hs Hbig. unfold _chunk_text. rewrite Hs. simpl fold_left.
  destruct (chunk_loop_chunks max_chunk_size rest
              (chunk_step encode max_chunk_size chunk_init s)) as (more & Hmore).
  assert (Hfirst : chunks (chunk_step encode max_chunk_size chunk_init s) = [[]]).
  { unfold chunk_step. simpl current_length.
    destruct (Z.gtb_spec (0 + Z.of_nat (length (encode s))) max_chunk_size);
      [reflexivity | lia]. }
  rewrite Hfirst in Hmore.
  destruct (current_chunk _); rewrite Hmore; simpl; eauto.
Qed.

End ChunkerFacts.

Section WordCounter.
Import summarizer summarizer.TransformerSummarizer.

Lemma split_ws_from_app_space (a b : str) :
  ∀ cur, split_ws_from cur (a ++ py " " ++ b) = split_ws_from cur a ++ split_ws b.
Proof.
  induction a as [|c a IH]; intros cur; simpl; [reflexivity |].
  destruct (isspace c); [rewrite IH, app_assoc |]; auto.
Qed.

(** With the word counter the token count of a chunk as a string is the
    running count the loop kept for its units. *)
Lemma word_count_join (g : list str) :
  length (word_encode (join (py " ") g)) = group_tokens word_encode g.
Proof.
  induction g as [|u g IH]; [reflexivity |].
  destruct g as [|v g]; [simpl; unfold unit_tokens; lia |].
  change (join (py " ") (u :: v :: g)) with (u ++ py " " ++ join (py " ") (v :: g)).
  change (word_encode (u ++ py " " ++ join (py " ") (v :: g)))
    with (split_ws_from None (u ++ py " " ++ join (py " ") (v :: g))).
  rewrite split_ws_from_app_space, length_app.
  change (split_ws (join (py " ") (v :: g)))
    with (word_encode (join (py " ") (v :: g))).
  rewrite IH. reflexivity.
Qed.

(** X1. The budget read on the chunk strings, for the word counter: every chunk has at
    most [B] words, unless it is a single sentence unit of more than [B]
    words. *)
Corollary chunk_text_word_budget (text : str) (B : nat) :
  Forall (λ chunk, (length (word_encode chunk) ≤ B)%nat
                   ∨ (In chunk (sentences_of text)
                      ∧ (B < length (word_encode chunk))%nat))
    (_chunk_text word_encode text (Z.of_nat B)).
Proof.
  destruct (chunk_text_groups word_encode text B) as (groups & -> & Hcat & Hall).
  rewrite Forall_forall in Hall. apply Forall_forall. intros chunk Hin.
  apply list_elem_of_In, in_map_iff in Hin as (g & <- & Hg).
  destruct (Hall g (proj2 (list_elem_of_In _ _) Hg)) as [Hle | (u & -> & Hbig)].
  - left. rewrite word_count_join. exact Hle.
  - right. simpl. split; [| exact Hbig].
    rewrite <- Hcat. apply in_concat. exists [u]. split; [exact Hg | left; reflexivity].
Qed.

End WordCounter.

Section ChunkerScenario.
Import summarizer summarizer.TransformerSummarizer.

Example sentences_of_scenario :
  sentences_of (py "Sentence one. Sentence two. Sentence three.")
  = [py "Sentence one"; py "Sentence two"; py "Sentence three"].
Proof. reflexivity. Qed.

(** C4 (as stated, refuted). With a tokenizer of one token per character and
    the budget 4, the text "ab. cd" has the two units "ab" and "cd" of two
    tokens each, none above the budget; [_chunk_text] returns the one chunk
    "ab cd", which has five tokens: the space that joins the units is
    counted in the chunk and not in the running count. *)
Lemma chunk_text_over_budget_with_character_counter :
  sentences_of (py "ab. cd") = [py "ab"; py "cd"]
  ∧ unit_tokens char_encode (py "ab") = 2%nat
  ∧ unit_tokens char_encode (py "cd") = 2%nat
  ∧ _chunk_text char_encode (py "ab. cd") 4 = [py "ab cd"]
  ∧ length (char_encode (py "ab cd")) = 5%nat.
Proof. vm_compute. repeat split. Qed.

(** C3 (as stated, refuted). With the word counter and the budget of
    "Sentence one." plus "Sentence two.", [_chunk_text] does not return the
    chunks with their full stops: splitting on '.' consumes them. *)
Lemma chunk_text_scenario_drops_full_stops :
  _chunk_text word_encode (py "Sentence one. Sentence two. Sentence three.")
    (Z.of_nat (length (word_encode (py "Sentence one.")))
     + Z.of_nat (length (word_encode (py "Sentence two."))))
  = [py "Sentence one Sentence two"; py "Sentence three"]
  ∧ [py "Sentence one Sentence two"; py "Sentence three"]
    ≠ [py "Sentence one. Sentence two."; py "Sentence three."].
Proof. split; [reflexivity | discriminate]. Qed.

(** C3 (amended). On "Sentence one. Sentence two. Sentence three." with the
    word counter and the budget of "Sentence one." plus "Sentence two.",
    [_chunk_text] returns exactly the two chunks "Sentence one Sentence two"
    and "Sentence three": the units grouped as claimed, joined by one space,
    without their terminal full stops. *)
Theorem chunk_text_scenario :
  _chunk_text word_encode (py "Sentence one. Sentence two. Sentence three.")
    (Z.of_nat (length (word_encode (py "Sentence one.")))
     + Z.of_nat (length (word_encode (py "Sentence two."))))
  = [py "Sentence one Sentence two"; py "Sentence three"].
Proof. reflexivity. Qed.

(** C5 (the code at a failing input). A first sentence that alone exceeds the
    budget makes the loop close the still empty current chunk: the first
    chunk returned is the empty string. *)
Theorem chunk_text_emits_empty_chunk :
  _chunk_text word_encode (py "one two three") 2 = [py ""; py "one two three"].
Proof. reflexivity. Qed.

(** A negative [max_chunk_size] is a budget no token count meets: every unit
    is closed on its own, after the same leading empty chunk. *)
Example chunk_text_negative_budget :
  _chunk_text word_encode (py "one. two") (-1) = [py ""; py "one"; py "two"].
Proof. reflexivity. Qed.

End ChunkerScenario.

(** ** The unique path allocator *)

Section StringFacts.

Lemma rfind_lower (c : ascii) (s : str) : -1 ≤ rfind c s.
Proof.
  induction s as [|x s IH]; simpl; [lia |].
  destruct (0 <=? rfind c s) eqn:E; [apply Z.leb_le in E; lia |].
  destruct (Ascii.eqb x c); lia.
Qed.

(** Nothing after the last occurrence of [c] is [c]. *)
Lemma rfind_tail_free (c : ascii) (s : str) : ¬ In c (slice_from (rfind c s + 1) s).
Proof.
  unfold slice_from. induction s as [|x s IH]; simpl; [tauto |].
  destruct (0 <=? rfind c s) eqn:E.
  - apply Z.leb_le in E.
    replace (Z.to_nat (rfind c s + 1 + 1)) with (S (Z.to_nat (rfind c s + 1))) by lia.
    exact IH.
  - apply Z.leb_gt in E.
    assert (Hr : rfind c s = -1) by (pose proof (rfind_lower c s); lia).
    rewrite Hr in IH. simpl in IH.
    destruct (Ascii.eqb x c) eqn:Ex; simpl; [exact IH |].
    intros [-> | Hin]; [rewrite Ascii.eqb_refl in Ex; discriminate | exact (IH Hin)].
Qed.

Lemma In_slice_to (c : ascii) (i : Z) (s : str) : In c (slice_to i s) → In c s.
Proof.
  unfold slice_to. generalize (Z.to_nat i) as n. intros n. revert s.
  induction n as [|n IH]; intros [|x s]; simpl; try tauto.
  intros [-> | Hin]; [left; reflexivity | right; exact (IH _ Hin)].
Qed.

(** The decimal digits of a number hold no underscore. *)
Lemma str_of_nat_no_underscore (n : nat) : ¬ In chr_underscore (str_of_nat n).
Proof.
  unfold str_of_nat. generalize (Nat.to_uint n) as d.
  induction d; simpl; try tauto; intros [Heq | Hin]; try discriminate Heq; tauto.
Qed.

Lemma str_of_nat_inj (i j : nat) : str_of_nat i = str_of_nat j → i = j.
Proof.
  unfold str_of_nat. intros H.
  apply (f_equal string_of_list_ascii) in H.
  rewrite !string_of_list_ascii_of_string in H.
  apply (f_equal NilEmpty.uint_of_string) in H.
  rewrite !NilEmpty.usu in H. injection H as H.
  apply (f_equal Nat.of_uint) in H. rewrite !Unsigned.of_to in H. exact H.
Qed.

(** A string is cut at its last underscore in one way only. *)
Lemma last_underscore_unique (a b d1 d2 : str) :
  ¬ In chr_underscore d1 → ¬ In chr_underscore d2 →
  a ++ chr_underscore :: d1 = b ++ chr_underscore :: d2 → a = b ∧ d1 = d2.
Proof.
  intros H1 H2. revert b. induction a as [|x a IH]; intros [|y b] Heq; simpl in Heq.
  - injection Heq as ->. split; reflexivity.
  - injection Heq as <- ->. exfalso. apply H1, in_or_app. right. left. reflexivity.
  - injection Heq as -> <-. exfalso. apply H2, in_or_app. right. left. reflexivity.
  - injection Heq as -> Heq. destruct (IH _ Heq) as [-> ->]. split; reflexivity.
Qed.

End StringFacts.

Section AllocatorFacts.
Import utils.

Lemma basename_no_slash (p : str) : ¬ In chr_slash (os_path.basename p).
Proof. apply rfind_tail_free. Qed.

Lemma splitext_root_In (c : ascii) (s : str) :
  In c (fst (os_path.splitext s)) → In c s.
Proof.
  unfold os_path.splitext. destruct (_ && _); simpl; [apply In_slice_to | tauto].
Qed.

Lemma strip_counter_In (c : ascii) (name : str) :
  In c (strip_counter name) → In c name.
Proof.
  unfold strip_counter, match_counter.
  destruct (_ && _); [apply In_slice_to | tauto].
Qed.

Lemma nth_stem_In (c : ascii) (name : str) (n : nat) :
  In c (nth_stem name n) → In c name.
Proof.
  induction n as [|n IH]; simpl; [tauto |].
  intros H. apply IH, strip_counter_In, H.
Qed.

(** A new name never starts with a slash when its stem holds none. *)
Lemma counter_name_relative (name ext : str) (n : nat) :
  ¬ In chr_slash name → startswith_char chr_slash (counter_name name n ext) = false.
Proof.
  intros Hno. destruct name as [|x name]; simpl; [reflexivity |].
  destruct (Ascii.eqb_spec x chr_slash) as [-> | Hne]; [| reflexivity].
  exfalso. apply Hno. left. reflexivity.
Qed.

(** Joining a relative name onto a directory only prepends to it. *)
Lemma join_relative (d : str) :
  ∃ pre, ∀ x, startswith_char chr_slash x = false → os_path.join d x = pre ++ x.
Proof.
  unfold os_path.join. destruct (negb (truthy d) || endswith_char chr_slash d).
  - exists d. intros x ->. reflexivity.
  - exists (d ++ [chr_slash]). intros x ->. rewrite <- app_assoc. reflexivity.
Qed.

Lemma counter_name_inj (a b ext : str) (i j : nat) :
  counter_name a i ext = counter_name b j ext → a = b ∧ i = j.
Proof.
  unfold counter_name. intros H.
  assert (H' : (a ++ chr_underscore :: str_of_nat i) ++ ext
               = (b ++ chr_underscore :: str_of_nat j) ++ ext).
  { rewrite <- !app_assoc. exact H. }
  apply app_inv_tail in H'.
  apply last_underscore_unique in H' as [-> Hd]; try apply str_of_nat_no_underscore.
  split; [reflexivity | apply str_of_nat_inj, Hd].
Qed.

(** The candidates of one desired path are pairwise distinct. *)
Lemma candidate_inj (p : str) (i j : nat) : candidate p i = candidate p j → i = j.
Proof.
  unfold candidate.
  destruct (os_path.splitext (os_path.basename p)) as [name ext] eqn:Es.
  assert (Hno : ¬ In chr_slash name).
  { intros Hin. apply (basename_no_slash p), splitext_root_In.
    rewrite Es. exact Hin. }
  destruct (join_relative (os_path.dirname p)) as (pre & Hpre).
  rewrite !Hpre
    by (apply counter_name_relative; intros Hin; apply Hno, (nth_stem_In _ _ _ Hin)).
  intros H. apply app_inv_head in H. apply counter_name_inj in H as [_ H]. exact H.
Qed.

Lemma path_exists_dom (fs : filesystem) (p : str) :
  path_exists fs p = true ↔ p ∈ dom fs.
Proof.
  unfold path_exists. rewrite elem_of_dom.
  destruct (fs !! p) eqn:E; split; intros H; try discriminate; try reflexivity.
  - eauto.
  - destruct H as [? H]. discriminate H.
Qed.

(** Pigeonhole: of [size fs + 1] distinct candidates one is free. *)
Lemma some_candidate_free (fs : filesystem) (p : str) :
  ¬ (∀ m, (m < size fs + 1)%nat → path_exists fs (candidate p (S m)) = true).
Proof.
  intros Hall.
  set (cs := (λ m, candidate p (S m)) <$> seq 0 (size fs + 1)).
  assert (Hnd : NoDup cs).
  { apply NoDup_fmap_2_strong; [| apply NoDup_seq].
    intros x y _ _ H. apply candidate_inj in H. lia. }
  assert (Hsub : (list_to_set cs : gset str) ⊆ dom fs).
  { intros q Hq. apply elem_of_list_to_set in Hq.
    apply list_elem_of_fmap in Hq as (m & -> & Hm).
    apply path_exists_dom, Hall.
    apply list_elem_of_In, in_seq in Hm. lia. }
  apply subseteq_size in Hsub.
  rewrite size_list_to_set in Hsub by exact Hnd.
  rewrite size_dom in Hsub. unfold cs in Hsub.
  rewrite length_fmap, length_seq in Hsub. lia.
Qed.

(** A bounded search either finds nothing or finds a least hit. *)
Lemma bounded_least (P : nat → bool) (k : nat) :
  (∀ m, (m < k)%nat → P m = true)
  ∨ ∃ n, (n < k)%nat ∧ P n = false ∧ ∀ m, (m < n)%nat → P m = true.
Proof.
  induction k as [|k [Hall | (n & Hn & Hfree & Hleast)]].
  - left. intros m Hm. lia.
  - destruct (P k) eqn:Ek.
    + left. intros m Hm. destruct (decide (m = k)) as [-> | Hne]; [exact Ek |].
      apply Hall. lia.
    + right. exists k. split; [lia |]. split; [exact Ek | exact Hall].
  - right. exists n. split; [lia |]. split; [exact Hfree | exact Hleast].
Qed.

(** The first free candidate exists and comes within [size fs + 1] tries. *)
Lemma first_free_candidate (fs : filesystem) (p : str) :
  ∃ n, (1 ≤ n ≤ size fs + 1)%nat
       ∧ path_exists fs (candidate p n) = false
       ∧ ∀ m, (1 ≤ m < n)%nat → path_exists fs (candidate p m) = true.
Proof.
  destruct (bounded_least (λ m, path_exists fs (candidate p (S m))) (size fs + 1))
    as [Hall | (n & Hn & Hfree & Hleast)].
  - destruct (some_candidate_free fs p Hall).
  - exists (S n). split; [lia |]. split; [exact Hfree |].
    intros [|m] Hm; [lia |]. apply Hleast. lia.
Qed.

(** The loop, entered at the [c]-th candidate, returns the first free one. *)
Lemma unique_loop_finds (fs : filesystem) (directory ext name : str) (k : nat) :
  ∀ (c fuel : nat),
    (k < fuel)%nat →
    (∀ m, (c ≤ m < c + k)%nat →
          path_exists fs
            (os_path.join directory (counter_name (nth_stem name m) m ext)) = true) →
    path_exists fs
      (os_path.join directory (counter_name (nth_stem name (c + k)) (c + k) ext))
    = false →
    unique_loop fuel fs directory ext (nth_stem name c)
      (os_path.join directory (counter_name (nth_stem name c) c ext)) (S c)
    = Some (os_path.join directory
              (counter_name (nth_stem name (c + k)) (c + k) ext)).
Proof.
  induction k as [|k IH]; intros c [|fuel] Hfuel Hbusy Hfree; try lia; simpl.
  - rewrite Nat.add_0_r in Hfree. rewrite Hfree, Nat.add_0_r. reflexivity.
  - rewrite (Hbusy c) by lia.
    replace (c + S k)%nat with (S c + k)%nat in * by lia.
    apply (IH (S c) fuel); [lia | | exact Hfree].
    intros m Hm. apply Hbusy. lia.
Qed.

(** [get_unique_filename] on an existing path: the first free candidate. *)
Lemma get_unique_filename_existing (fs : filesystem) (p : str) (n : nat) :
  path_exists fs p = true →
  (1 ≤ n ≤ size fs + 1)%nat →
  path_exists fs (candidate p n) = false →
  (∀ m, (1 ≤ m < n)%nat → path_exists fs (candidate p m) = true) →
  get_unique_filename fs p = Some (candidate p n).
Proof.
  intros Hp Hn Hfree Hbusy. unfold get_unique_filename, candidate in *.
  rewrite Hp. simpl.
  destruct (os_path.splitext (os_path.basename p)) as [name ext].
  replace (size fs + 2)%nat with (S (size fs + 1)) by lia. simpl. rewrite Hp.
  change (strip_counter name) with (nth_stem name 1).
  replace n with (1 + (n - 1))%nat in * by lia.
  apply unique_loop_finds; [lia | | exact Hfree].
  intros m Hm. apply Hbusy. lia.
Qed.

(** The allocator always returns, and what it returns does not exist. *)
Theorem get_unique_filename_total (fs : filesystem) (p : str) :
  ∃ q, get_unique_filename fs p = Some q ∧ path_exists fs q = false.
Proof.
  destruct (path_exists fs p) eqn:Hp.
  - destruct (first_free_candidate fs p) as (n & Hn & Hfree & Hbusy).
    exists (candidate p n). split; [| exact Hfree].
    apply get_unique_filename_existing; assumption.
  - exists p. split; [| exact Hp]. unfold get_unique_filename. rewrite Hp. reflexivity.
Qed.

(** Once its trailing counter is stripped and none is left, the stem stays:
    every candidate is [stem_n.ext] for that one stem. *)
Lemma candidate_fixed (p : str) (n : nat) :
  strip_counter (strip_counter (fst (os_path.splitext (os_path.basename p))))
  = strip_counter (fst (os_path.splitext (os_path.basename p))) →
  (1 ≤ n)%nat → candidate p n = fixed_candidate p n.
Proof.
  unfold candidate, fixed_candidate.
  destruct (os_path.splitext (os_path.basename p)) as [name ext]. simpl.
  intros Hstable Hn. f_equal. f_equal.
  destruct n as [|n]; [lia |]. clear Hn.
  induction n as [|n IH]; [reflexivity |].
  change (nth_stem name (S (S n))) with (strip_counter (nth_stem name (S n))).
  rewrite IH. exact Hstable.
Qed.

(** Whatever the stem, the allocator on an existing path returns the first
    of its candidates at which no file exists. *)
Lemma get_unique_filename_first_free (fs : filesystem) (p : str) :
  path_exists fs p = true →
  ∃ n, (1 ≤ n)%nat
       ∧ get_unique_filename fs p = Some (candidate p n)
       ∧ path_exists fs (candidate p n) = false
       ∧ ∀ m, (1 ≤ m < n)%nat → path_exists fs (candidate p m) = true.
Proof.
  intros Hp. destruct (first_free_candidate fs p) as (n & Hn & Hfree & Hbusy).
  exists n. split; [lia |]. split; [apply get_unique_filename_existing; assumption |].
  split; assumption.
Qed.

(** C8 (amended). If no file exists at the desired path, the allocator
    returns it unchanged. Otherwise, when the stem with its trailing
    [_<integer>] suffix stripped carries no further such suffix, the
    allocator returns [stem_n.ext], in the desired path's directory and for
    that stripped stem, for the smallest [n] in 1, 2, 3, ... such that no
    file exists at [stem_n.ext]. *)
Theorem get_unique_filename_spec (fs : filesystem) (p : str) :
  (path_exists fs p = false → get_unique_filename fs p = Some p)
  ∧ (path_exists fs p = true →
     strip_counter (strip_counter (fst (os_path.splitext (os_path.basename p))))
     = strip_counter (fst (os_path.splitext (os_path.basename p))) →
     ∃ n, (1 ≤ n)%nat
          ∧ get_unique_filename fs p = Some (fixed_candidate p n)
          ∧ path_exists fs (fixed_candidate p n) = false
          ∧ ∀ m, (1 ≤ m < n)%nat → path_exists fs (fixed_candidate p m) = true).
Proof.
  split.
  - intros Hp. unfold get_unique_filename. rewrite Hp. reflexivity.
  - intros Hp Hstable.
    destruct (get_unique_filename_first_free fs p Hp) as (n & Hn & Hret & Hfree & Hbusy).
    exists n. rewrite <- (candidate_fixed p n Hstable Hn).
    split; [exact Hn |]. split; [exact Hret |]. split; [exact Hfree |].
    intros m Hm. rewrite <- candidate_fixed by (try exact Hstable; lia).
    apply Hbusy, Hm.
Qed.

(** What a call sequence that writes each returned path maintains: the files
    present at the start are present at every later call. *)
Lemma allocate_and_write_calls (contents : list bytes) :
  ∀ (fs : filesystem) (desired : str),
    ∃ calls, allocate_and_write fs desired contents = Some calls
             ∧ length calls = length contents
             ∧ Forall (λ c, path_exists c.1 c.2 = false
                            ∧ ∀ q, path_exists fs q = true → path_exists c.1 q = true)
                 calls
             ∧ NoDup calls.*2.
Proof.
  induction contents as [|b contents IH]; intros fs desired; simpl.
  - exists []. repeat split; constructor.
  - destruct (get_unique_filename_total fs desired) as (path & -> & Hfree).
    destruct (IH (<[path := b]> fs) desired) as (calls & -> & Hlen & Hall & Hnd).
    assert (Hgrow : ∀ q, path_exists fs q = true
                         → path_exists (<[path := b]> fs) q = true).
    { intros q Hq. unfold path_exists in *.
      destruct (decide (path = q)) as [-> | Hne];
        [rewrite lookup_insert_eq; reflexivity | rewrite lookup_insert_ne; assumption]. }
    exists ((fs, path) :: calls). split; [reflexivity |]. split; [simpl; lia |]. split.
    + constructor; [split; [exact Hfree | tauto] |].
      eapply Forall_impl; [exact Hall |].
      intros c [Hc Hkeep]. split; [exact Hc | intros q Hq; apply Hkeep, Hgrow, Hq].
    + simpl. constructor; [| exact Hnd].
      intros Hin. apply list_elem_of_fmap in Hin as (c & Hc2 & Hc).
      rewrite Forall_forall in Hall. destruct (Hall c Hc) as [Hcfree Hkeep].
      rewrite <- Hc2 in Hcfree. rewrite Hkeep in Hcfree; [discriminate |].
      unfold path_exists. rewrite lookup_insert_eq. reflexivity.
Qed.

(** C9 (amended). For every [N] and every desired path, [N] sequential calls
    of the allocator with that desired path, the file at each returned path
    being created before the next call, all return, and they return [N]
    pairwise distinct paths, none of which existed when it was returned. *)
Theorem allocate_and_write_distinct (fs : filesystem) (desired : str)
    (contents : list bytes) :
  ∃ calls, allocate_and_write fs desired contents = Some calls
           ∧ length calls = length contents
           ∧ NoDup calls.*2
           ∧ Forall (λ c, path_exists c.1 c.2 = false) calls.
Proof.
  destruct (allocate_and_write_calls contents fs desired)
    as (calls & Hrun & Hlen & Hall & Hnd).
  exists calls. repeat split; try assumption.
  eapply Forall_impl; [exact Hall |]. intros c [Hc _]. exact Hc.
Qed.

End AllocatorFacts.

Section AllocatorExamples.
Import utils.

Example match_counter_plain : match_counter (py "video_vosk") = None.
Proof. reflexivity. Qed.
Example match_counter_one : match_counter (py "video_3") = Some (py "video").
Proof. reflexivity. Qed.
Example match_counter_two : match_counter (py "a_1_2") = Some (py "a_1").
Proof. reflexivity. Qed.
Example match_counter_bare : match_counter (py "_1") = None.
Proof. reflexivity. Qed.
Example dirname_ex : os_path.dirname (py "data/outputs//t.txt") = py "data/outputs".
Proof. reflexivity. Qed.
Example dirname_root : os_path.dirname (py "/t.txt") = py "/".
Proof. reflexivity. Qed.
Example splitext_ex : os_path.splitext (py ".bashrc") = (py ".bashrc", py "").
Proof. reflexivity. Qed.
Example splitext_ex2 : os_path.splitext (py "a.tar.gz") = (py "a.tar", py ".gz").
Proof. reflexivity. Qed.
Example unique_ex :
  get_unique_filename (<[py "d/a.txt" := py "x"]> (<[py "d/a_1.txt" := py "y"]> ∅)) (py "d/a.txt")
  = Some (py "d/a_2.txt").
Proof. vm_compute. reflexivity. Qed.

(** C8 (as stated, refuted). The desired stem [a_1_2] carries two counters;
    with [a_1_2.txt] and [a_1_1.txt] present the allocator returns
    [a_2.txt]. That is not [stem_n.ext] for the smallest free [n], neither
    for the stem [a_1] (one counter stripped: [a_1_3.txt] is the first free
    one) nor for the stem [a] (all counters stripped: [a_1.txt] is free). *)
Lemma get_unique_filename_not_smallest :
  let fs : filesystem := <[py "a_1_2.txt" := py "x"]> (<[py "a_1_1.txt" := py "y"]> ∅) in
  get_unique_filename fs (py "a_1_2.txt") = Some (py "a_2.txt")
  ∧ fixed_candidate (py "a_1_2.txt") 1 = py "a_1_1.txt"
  ∧ fixed_candidate (py "a_1_2.txt") 2 = py "a_1_2.txt"
  ∧ fixed_candidate (py "a_1_2.txt") 3 = py "a_1_3.txt"
  ∧ path_exists fs (py "a_1_1.txt") = true
  ∧ path_exists fs (py "a_1_2.txt") = true
  ∧ path_exists fs (py "a_1_3.txt") = false
  ∧ path_exists fs (py "a_1.txt") = false
  ∧ py "a_2.txt" ≠ py "a_1_3.txt"
  ∧ py "a_2.txt" ≠ py "a_1.txt".
Proof. vm_compute. repeat split; discriminate. Qed.

(** The amended statement at work: the desired path is free in an empty
    directory, and with [v_vosk_3.txt] and [v_vosk_1.txt] present the
    allocator strips the counter and returns [v_vosk_2.txt]. *)
Lemma get_unique_filename_spec_witness :
  get_unique_filename (∅ : filesystem) (py "out/v_vosk.txt") = Some (py "out/v_vosk.txt")
  ∧ ∃ n, (1 ≤ n)%nat
         ∧ get_unique_filename
             (<[py "out/v_vosk_3.txt" := py "x"]> (<[py "out/v_vosk_1.txt" := py "y"]> ∅))
             (py "out/v_vosk_3.txt")
           = Some (fixed_candidate (py "out/v_vosk_3.txt") n)
         ∧ path_exists
             (<[py "out/v_vosk_3.txt" := py "x"]> (<[py "out/v_vosk_1.txt" := py "y"]> ∅))
             (fixed_candidate (py "out/v_vosk_3.txt") n) = false
         ∧ ∀ m, (1 ≤ m < n)%nat →
                path_exists
                  (<[py "out/v_vosk_3.txt" := py "x"]>
                     (<[py "out/v_vosk_1.txt" := py "y"]> ∅))
                  (fixed_candidate (py "out/v_vosk_3.txt") m) = true.
Proof.
  split.
  - apply (proj1 (get_unique_filename_spec ∅ (py "out/v_vosk.txt"))). reflexivity.
  - apply (proj2 (get_unique_filename_spec
                    (<[py "out/v_vosk_3.txt" := py "x"]>
                       (<[py "out/v_vosk_1.txt" := py "y"]> ∅))
                    (py "out/v_vosk_3.txt"))).
    + vm_compute. reflexivity.
    + vm_compute. reflexivity.
Defined.

Example get_unique_filename_strips_counter :
  get_unique_filename
    (<[py "out/v_vosk_3.txt" := py "x"]> (<[py "out/v_vosk_1.txt" := py "y"]> ∅))
    (py "out/v_vosk_3.txt")
  = Some (py "out/v_vosk_2.txt").
Proof. vm_compute. reflexivity. Qed.

(** C9 (as stated, refuted). Two calls in a row for [a.txt], with nothing
    written in between, return the same path twice. *)
Lemma allocate_only_repeats :
  allocate_only 2 ∅ (py "a.txt") = [Some (py "a.txt"); Some (py "a.txt")]
  ∧ ¬ NoDup (allocate_only 2 ∅ (py "a.txt")).
Proof.
  split; [reflexivity |].
  intros H. apply NoDup_cons in H as [Hin _]. apply Hin. left.
Qed.

Example allocate_and_write_ex :
  snd <$> default [] (allocate_and_write ∅ (py "d/a.txt") [py "1"; py "2"; py "3"])
  = [py "d/a.txt"; py "d/a_1.txt"; py "d/a_2.txt"].
Proof. vm_compute. reflexivity. Qed.

End AllocatorExamples.

(** ** The artifact validator *)

Section ValidatorFacts.
Import run_all.

(** [validate_file_output] never raises and changes nothing: it answers
    whether the file exists and has at least [min_size_bytes] bytes. *)
Lemma validate_file_output_eq (path : str) (min_size_bytes : Z) (w : World) :
  validate_file_output path min_size_bytes w
  = (inr match w_fs w !! path with
         | None => false
         | Some b => Z.of_nat (length b) >=? min_size_bytes
         end, w).
Proof.
  unfold validate_file_output, mbind, M_bind, bind, get_fs, path_exists, getsize.
  cbv beta iota.
  destruct (w_fs w !! path) as [b|] eqn:E; cbv beta iota delta [negb];
    [rewrite E |]; reflexivity.
Qed.

(** C10. For every path and minimum size, the validator returns false,
    without raising, when the path does not exist or the file is smaller
    than [min_size_bytes], and returns true when the file exists with at
    least [min_size_bytes] bytes; a file of exactly [min_size_bytes] passes
    and one of [min_size_bytes - 1] fails. The world is left as it was. *)
Theorem validate_file_output_spec (path : str) (min_size_bytes : Z) (w : World) :
  (w_fs w !! path = None →
   validate_file_output path min_size_bytes w = (inr false, w))
  ∧ (∀ b, w_fs w !! path = Some b → Z.of_nat (length b) < min_size_bytes →
          validate_file_output path min_size_bytes w = (inr false, w))
  ∧ (∀ b, w_fs w !! path = Some b → min_size_bytes ≤ Z.of_nat (length b) →
          validate_file_output path min_size_bytes w = (inr true, w))
  ∧ (∀ b, w_fs w !! path = Some b → Z.of_nat (length b) = min_size_bytes →
          validate_file_output path min_size_bytes w = (inr true, w))
  ∧ (∀ b, w_fs w !! path = Some b → Z.of_nat (length b) = min_size_bytes - 1 →
          validate_file_output path min_size_bytes w = (inr false, w)).
Proof.
  rewrite validate_file_output_eq.
  repeat split; [intros -> | intros b -> Hb ..]; try reflexivity;
    destruct (Z.geb_spec (Z.of_nat (length b)) min_size_bytes); try reflexivity; lia.
Qed.

(** A file of exactly 500 bytes passes the transcript threshold. *)
Lemma validate_file_output_spec_witness :
  validate_file_output (py "t.txt") 500
    {| w_fs := {[ py "t.txt" := repeat (ascii_of_nat 120) 500 ]};
       w_logs := []; w_calls := [] |}
  = (inr true,
     {| w_fs := {[ py "t.txt" := repeat (ascii_of_nat 120) 500 ]};
        w_logs := []; w_calls := [] |}).
Proof.
  apply (proj1 (proj2 (proj2 (proj2
           (validate_file_output_spec (py "t.txt") 500
              {| w_fs := {[ py "t.txt" := repeat (ascii_of_nat 120) 500 ]};
                 w_logs := []; w_calls := [] |}))))
           (repeat (ascii_of_nat 120) 500)).
  - vm_compute. reflexivity.
  - vm_compute. reflexivity.
Defined.

End ValidatorFacts.

(** ** The transcription runners *)

(** Unfolds the operations of [M]. *)
Ltac unfold_M :=
  unfold mbind, M_bind, bind, mret, M_ret, ret, raise, lift, try_except,
    log_info, log_error, emit, get_fs, write_text, config_lookup in *.

Section TranscriberFacts.
Import transcriber transcriber.WhisperTranscriber.
Context (ext : collaborators).

#[local] Arguments Nat.ltb : simpl never.
#[local] Arguments py : simpl never.
#[local] Arguments too_short_msg : simpl never.
#[local] Arguments str_of_nat : simpl never.

Lemma word_count_empty : word_count [] = 0%nat.
Proof. reflexivity. Qed.

(** C6 (amended). For the Whisper runner and every audio input whose first
    transcription result is [first]: a first result of 10 or more words is
    returned with no retry; a non-empty first result of fewer than 10 words
    triggers exactly one retry, with an alternate decoding configuration
    (beam search), and the attempt is declared failed exactly when the
    retried result still has fewer than 10 words; an empty first result is
    declared failed at once, with no retry. *)
Theorem whisper_retry_policy (audio_path minutes first : str) (w : World) :
  whisper_load_audio ext audio_path = inr minutes →
  whisper_model ext first_options audio_path = inr first →
  first_options ≠ retry_options
  ∧ ((10 ≤ word_count first)%nat →
     (WhisperTranscriber.transcribe ext audio_path w).1 = inr first
     ∧ w_calls (WhisperTranscriber.transcribe ext audio_path w).2
       = w_calls w ++ [first_options])
  ∧ (first ≠ [] → (word_count first < 10)%nat →
     w_calls (WhisperTranscriber.transcribe ext audio_path w).2
     = w_calls w ++ [first_options; retry_options]
     ∧ ∀ second, whisper_model ext retry_options audio_path = inr second →
         (WhisperTranscriber.transcribe ext audio_path w).1
         = if (word_count second <? 10)%nat
           then inl (Exn ValueError (too_short_msg (word_count first)))
           else inr second)
  ∧ (first = [] →
     (WhisperTranscriber.transcribe ext audio_path w).1
     = inl (Exn ValueError (py "Empty transcription result"))
     ∧ w_calls (WhisperTranscriber.transcribe ext audio_path w).2
       = w_calls w ++ [first_options]).
Proof.
  intros Hload Hfirst. split; [discriminate |].
  unfold WhisperTranscriber.transcribe, transcribe_body, call_model.
  unfold_M. cbn. rewrite Hload. cbn. rewrite Hfirst. cbn.
  split; [| split].
  - intros Hlong.
    assert (Htruthy : truthy first = true).
    { destruct first; [rewrite word_count_empty in Hlong; lia | reflexivity]. }
    rewrite Htruthy. cbn.
    destruct (Nat.ltb_spec (word_count first) 10) as [Hlt | _]; [lia |].
    cbn. split; reflexivity.
  - intros Hne Hshort.
    assert (Htruthy : truthy first = true) by (destruct first; [congruence | reflexivity]).
    rewrite Htruthy. cbn.
    destruct (Nat.ltb_spec (word_count first) 10) as [_ | Hge]; [| lia].
    cbn. split.
    + destruct (whisper_model ext retry_options audio_path) as [e | second]; cbn;
        [| destruct (word_count second <? 10)%nat; cbn];
        rewrite <- app_assoc; reflexivity.
    + intros second ->. cbn.
      destruct (word_count second <? 10)%nat; reflexivity.
  - intros ->. cbn. split; reflexivity.
Qed.

(** The Vosk runner makes no call of the speech model and returns what the
    recognizer heard, however short. *)
Lemma vosk_transcribe_returns (audio_path : str) (w : World)
    (results : list (option str)) (final_result : option str) :
  vosk_results ext audio_path = inr (results, final_result) →
  VoskTranscriber.transcribe ext audio_path w
  = (inr (join (py " ")
            (VoskTranscriber.append_text
               (fold_left VoskTranscriber.append_text results []) final_result)),
     w).
Proof. unfold VoskTranscriber.transcribe. unfold_M. intros ->. reflexivity. Qed.

(** Neither speech backend touches the file system. *)
Lemma whisper_transcribe_fs (audio_path : str) (w : World) :
  w_fs (WhisperTranscriber.transcribe ext audio_path w).2 = w_fs w.
Proof.
  unfold WhisperTranscriber.transcribe, transcribe_body, call_model.
  unfold_M. cbn.
  destruct (whisper_load_audio ext audio_path) as [e | minutes]; cbn; [reflexivity |].
  destruct (whisper_model ext first_options audio_path) as [e | first]; cbn;
    [reflexivity |].
  destruct (truthy first); cbn; [| reflexivity].
  destruct (word_count first <? 10)%nat; cbn; [| reflexivity].
  destruct (whisper_model ext retry_options audio_path) as [e | second]; cbn;
    [reflexivity |].
  destruct (word_count second <? 10)%nat; reflexivity.
Qed.

Lemma vosk_transcribe_fs (audio_path : str) (w : World) :
  w_fs (VoskTranscriber.transcribe ext audio_path w).2 = w_fs w.
Proof.
  unfold VoskTranscriber.transcribe. unfold_M.
  destruct (vosk_results ext audio_path) as [e | [results final_result]]; reflexivity.
Qed.

#[local] Arguments WhisperTranscriber.transcribe : simpl never.
#[local] Arguments VoskTranscriber.transcribe : simpl never.
#[local] Arguments utils.get_unique_filename : simpl never.
#[local] Arguments Transcriber.base_output_path_of : simpl never.

(** Saving a transcript never fails: it writes to the path the allocator
    gives, where no file was, and to no other. *)
Lemma save_transcript_effect (audio_path model_name transcript : str) (w : World) :
  ∃ output_path,
    (Transcriber.save_transcript audio_path model_name transcript w).1 = inr output_path
    ∧ utils.get_unique_filename (w_fs w)
        (Transcriber.base_output_path_of audio_path model_name)
      = Some output_path
    ∧ w_fs w !! output_path = None
    ∧ w_fs (Transcriber.save_transcript audio_path model_name transcript w).2
      = <[output_path := utf8_encode transcript]> (w_fs w).
Proof.
  unfold Transcriber.save_transcript, Transcriber.unique_filename. unfold_M. cbn.
  destruct (get_unique_filename_total (w_fs w)
              (Transcriber.base_output_path_of audio_path model_name))
    as (out & Hout & Hfree).
  rewrite Hout. cbn. exists out. repeat split; try assumption.
  unfold path_exists in Hfree. destruct (w_fs w !! out); [discriminate | reflexivity].
Qed.

#[local] Arguments Transcriber.save_transcript : simpl never.

(** [Transcriber.transcribe] either raises with the file system as it was,
    or returns the path the allocator gave for its desired path on the file
    system as it was, having written the transcript there and nowhere
    else. *)
Lemma transcriber_transcribe_effect (audio_path model_name : str) (w : World) :
  (∃ e, (Transcriber.transcribe ext audio_path model_name w).1 = inl e
        ∧ w_fs (Transcriber.transcribe ext audio_path model_name w).2 = w_fs w)
  ∨ (∃ transcript output_path,
       (Transcriber.transcribe ext audio_path model_name w).1 = inr output_path
       ∧ utils.get_unique_filename (w_fs w)
           (Transcriber.base_output_path_of audio_path model_name)
         = Some output_path
       ∧ w_fs w !! output_path = None
       ∧ w_fs (Transcriber.transcribe ext audio_path model_name w).2
         = <[output_path := utf8_encode transcript]> (w_fs w)).
Proof.
  assert (Hsave : ∀ (r : (exn + str) * World), w_fs r.2 = w_fs w →
    ∀ out, out = (let (s, w') := r in
                  match s with
                  | inl e => (inl e, w')
                  | inr a => Transcriber.save_transcript audio_path model_name a w'
                  end) →
    (∃ e, out.1 = inl e ∧ w_fs out.2 = w_fs w)
    ∨ (∃ transcript output_path,
         out.1 = inr output_path
         ∧ utils.get_unique_filename (w_fs w)
             (Transcriber.base_output_path_of audio_path model_name)
           = Some output_path
         ∧ w_fs w !! output_path = None
         ∧ w_fs out.2 = <[output_path := utf8_encode transcript]> (w_fs w))).
  { intros [[e | transcript] w1] Hfs out ->; cbn in *; [left; eauto |].
    destruct (save_transcript_effect audio_path model_name transcript w1)
      as (output_path & Hret & Halloc & Hfree & Hfs').
    right. exists transcript, output_path. rewrite <- Hfs. auto. }
  unfold Transcriber.transcribe, TranscriberFactory.create.
  unfold_M. cbn.
  destruct (has_profile ext model_name); cbn; [| left; eauto].
  destruct (bool_decide (model_name = py "whisper_base")).
  - destruct (whisper_init ext); cbn; [left; eauto |].
    eapply Hsave; [apply (whisper_transcribe_fs audio_path w) | reflexivity].
  - destruct (bool_decide (model_name = py "vosk")); cbn; [| left; eauto].
    destruct (vosk_init ext); cbn; [left; eauto |].
    eapply Hsave; [apply (vosk_transcribe_fs audio_path w) | reflexivity].
Qed.

End TranscriberFacts.

(** ** The summarize runner *)

Section SummarizerFacts.
Import summarizer.
Context (ext : collaborators).

#[local] Arguments py : simpl never.
#[local] Arguments TransformerSummarizer._chunk_text : simpl never.

(** Summarizing the chunks leaves the world as it was. *)
Lemma summarize_chunks_world (model_name : str) (chunks : list str) (w : World) :
  (TransformerSummarizer.summarize_chunks ext model_name chunks w).2 = w.
Proof.
  induction chunks as [|chunk chunks IH]; cbn; [reflexivity |].
  unfold_M. cbn.
  destruct (generate ext model_name (py "summarize: " ++ chunk)); cbn; [reflexivity |].
  destruct (TransformerSummarizer.summarize_chunks ext model_name chunks w)
    as [[e | summaries] w1]; cbn in *; exact IH.
Qed.

Lemma transformer_summarize_world (model_name text : str) (w : World) :
  (TransformerSummarizer.summarize ext model_name text w).2 = w.
Proof.
  unfold TransformerSummarizer.summarize. unfold_M.
  pose proof (summarize_chunks_world model_name
                (TransformerSummarizer._chunk_text (tokenizer_encode ext model_name)
                   text 1024) w) as H.
  destruct (TransformerSummarizer.summarize_chunks _ _ _ _) as [[e | summaries] w1];
    cbn in *; exact H.
Qed.

#[local] Arguments TransformerSummarizer.summarize : simpl never.
#[local] Arguments Summarizer.output_path_of : simpl never.

(** [Summarizer.summarize] either raises with the world as it was, or
    returns its desired path, having written the summary there (whatever
    was there before) and nowhere else. *)
Lemma summarizer_summarize_effect (transcript_path model_name : str) (w : World) :
  (∃ e, Summarizer.summarize ext transcript_path model_name w = (inl e, w))
  ∨ (∃ summary,
       (Summarizer.summarize ext transcript_path model_name w).1
       = inr (Summarizer.output_path_of transcript_path model_name)
       ∧ w_fs (Summarizer.summarize ext transcript_path model_name w).2
         = <[Summarizer.output_path_of transcript_path model_name
             := utf8_encode summary]> (w_fs w)).
Proof.
  unfold Summarizer.summarize, Summarizer.save_summary, SummarizerFactory.create,
    read_text.
  unfold_M. cbn.
  destruct (w_fs w !! transcript_path) as [b|]; cbn; [| left; eauto].
  destruct (utf8_decode b) as [decoded|]; cbn; [| left; eauto].
  set (transcript := universal_newlines decoded).
  destruct (has_profile ext model_name); cbn; [| left; eauto].
  destruct (bool_decide _); cbn.
  - destruct (summarizer_init ext model_name); cbn; [left; eauto |].
    pose proof (transformer_summarize_world model_name transcript w) as Hw.
    destruct (TransformerSummarizer.summarize ext model_name transcript w)
      as [[e | summary] w1]; cbn in *; subst w1; [left; eauto |].
    right. exists summary. split; reflexivity.
  - destruct (bool_decide _); cbn; [| left; eauto].
    destruct (summarizer_init ext model_name); cbn; [left; eauto |].
    destruct (gpt2_summarize ext transcript) as [e | summary]; cbn; [left; eauto |].
    right. exists summary. split; reflexivity.
Qed.

(** When [Summarizer.summarize] returns, what it wrote at its desired path
    is the summary that the summarizer of the model made of the transcript
    it read. *)
Lemma summarizer_summarize_returns (transcript_path model_name output_path : str)
    (w : World) :
  (Summarizer.summarize ext transcript_path model_name w).1 = inr output_path →
  output_path = Summarizer.output_path_of transcript_path model_name
  ∧ ∃ transcript summarizer summary,
      read_text transcript_path w = (inr transcript, w)
      ∧ (SummarizerFactory.create ext model_name w).1 = inr summarizer
      ∧ (match summarizer with
         | Transformer => TransformerSummarizer.summarize ext model_name transcript
         | GPT2 => lift (gpt2_summarize ext transcript)
         end w).1 = inr summary
      ∧ w_fs (Summarizer.summarize ext transcript_path model_name w).2
        = <[output_path := utf8_encode summary]> (w_fs w).
Proof.
  unfold Summarizer.summarize, Summarizer.save_summary, SummarizerFactory.create,
    read_text.
  unfold_M. cbn.
  destruct (w_fs w !! transcript_path) as [b|]; cbn; [| discriminate].
  destruct (utf8_decode b) as [decoded|]; cbn; [| discriminate].
  set (transcript := universal_newlines decoded).
  destruct (has_profile ext model_name); cbn; [| discriminate].
  destruct (bool_decide _); cbn.
  - destruct (summarizer_init ext model_name); cbn; [discriminate |].
    pose proof (transformer_summarize_world model_name transcript w) as Hw.
    destruct (TransformerSummarizer.summarize ext model_name transcript w)
      as [[e | summary] w1] eqn:Hsum; cbn in *; subst w1; [discriminate |].
    intros [= <-]. split; [reflexivity |].
    exists transcript, Transformer, summary. cbn. rewrite Hsum. auto.
  - destruct (bool_decide _); cbn; [| discriminate].
    destruct (summarizer_init ext model_name); cbn; [discriminate |].
    destruct (gpt2_summarize ext transcript) as [e | summary] eqn:Hsum; cbn;
      [discriminate |].
    intros [= <-]. split; [reflexivity |].
    exists transcript, GPT2, summary. cbn. rewrite Hsum. auto.
Qed.

End SummarizerFacts.

(** ** No overwriting *)

Section OverwriteFacts.
Import summarizer transcriber.

(** X2. What the two runners do to the files that exist. The Transcribe runner
    passes its desired output path through the unique path allocator before
    writing, so it never overwrites: every file that existed before it ran
    has the same contents afterwards, and what it returns is the allocator's
    answer, a path where no file was. The Summarize runner writes to its
    desired path [<transcript stem>_<model>.md] as it is; only the file at
    that path can change, and when the runner returns, the file holds the
    summary that the summarizer of the model made of the transcript read
    from the transcript path. *)
Theorem runners_and_existing_files (ext : collaborators) (w : World) :
  (∀ audio_path model_name p b,
     w_fs w !! p = Some b →
     w_fs (Transcriber.transcribe ext audio_path model_name w).2 !! p = Some b)
  ∧ (∀ audio_path model_name output_path,
       (Transcriber.transcribe ext audio_path model_name w).1 = inr output_path →
       utils.get_unique_filename (w_fs w)
         (Transcriber.base_output_path_of audio_path model_name) = Some output_path
       ∧ w_fs w !! output_path = None)
  ∧ (∀ transcript_path model_name p,
       p ≠ Summarizer.output_path_of transcript_path model_name →
       w_fs (Summarizer.summarize ext transcript_path model_name w).2 !! p
       = w_fs w !! p)
  ∧ (∀ transcript_path model_name output_path,
       (Summarizer.summarize ext transcript_path model_name w).1 = inr output_path →
       output_path = Summarizer.output_path_of transcript_path model_name
       ∧ ∃ transcript summarizer summary,
           read_text transcript_path w = (inr transcript, w)
           ∧ (SummarizerFactory.create ext model_name w).1 = inr summarizer
           ∧ (match summarizer with
              | Transformer => TransformerSummarizer.summarize ext model_name transcript
              | GPT2 => lift (gpt2_summarize ext transcript)
              end w).1 = inr summary
           ∧ w_fs (Summarizer.summarize ext transcript_path model_name w).2
             = <[output_path := utf8_encode summary]> (w_fs w)).
Proof.
  split; [| split; [| split]].
  - intros audio_path model_name p b Hp.
    destruct (transcriber_transcribe_effect ext audio_path model_name w)
      as [(e & _ & ->) | (t & out & _ & _ & Hfree & ->)]; [exact Hp |].
    rewrite lookup_insert_ne; [exact Hp | congruence].
  - intros audio_path model_name output_path Hret.
    destruct (transcriber_transcribe_effect ext audio_path model_name w)
      as [(e & He & _) | (t & out & Hout & Halloc & Hfree & _)]; [congruence |].
    assert (out = output_path) as -> by congruence. split; assumption.
  - intros transcript_path model_name p Hp.
    destruct (summarizer_summarize_effect ext transcript_path model_name w)
      as [(e & ->) | (summary & _ & ->)]; [reflexivity |].
    apply lookup_insert_ne. congruence.
  - intros transcript_path model_name output_path Hret.
    exact (summarizer_summarize_returns ext transcript_path model_name output_path w Hret).
Qed.

End OverwriteFacts.

(** ** Runs of the pipeline *)

Section Runs.
Import run_all scenario summarizer transcriber transcriber.WhisperTranscriber.

(** One iteration of the loop over the transcription models, by the outcome
    of the model: a raised exception leaves the loop at once, whatever models
    remain; a transcript that fails validation is logged and skipped; a valid
    one is registered. *)
Lemma transcribe_models_step (ext : collaborators) (lg : logger)
    (audio_path model_name : str) (models : list str) (transcripts : dict) (w : World) :
  let started := (log_info lg (py "Transcribing with " ++ model_name) w).2 in
  match Transcriber.transcribe ext audio_path model_name started with
  | (inl e, w') =>
      transcribe_models ext lg audio_path (model_name :: models) transcripts w = (inl e, w')
  | (inr transcript_path, w') =>
      match w_fs w' !! transcript_path with
      | Some b =>
          if Z.of_nat (length b) >=? 500 then
            transcribe_models ext lg audio_path (model_name :: models) transcripts w
            = transcribe_models ext lg audio_path models
                (dict_set transcripts model_name transcript_path)
                (log_info lg (py "Transcription with " ++ model_name
                                ++ py " completed successfully") w').2
          else
            transcribe_models ext lg audio_path (model_name :: models) transcripts w
            = transcribe_models ext lg audio_path models transcripts
                (log_error lg (py "Transcript from " ++ model_name
                                 ++ py " seems too short") w').2
      | None =>
          transcribe_models ext lg audio_path (model_name :: models) transcripts w
          = transcribe_models ext lg audio_path models transcripts
              (log_error lg (py "Transcript from " ++ model_name
                               ++ py " seems too short") w').2
      end
  end.
Proof.
  cbv zeta.
  destruct (Transcriber.transcribe ext audio_path model_name _) as [[e | path] w'] eqn:E;
    unfold log_info at 1, emit at 1 in E; cbn [snd] in E.
  - cbn [transcribe_models]. unfold mbind, M_bind.
    unfold bind at 1. unfold log_info at 1, emit at 1. cbv beta iota.
    unfold bind at 1. rewrite E. reflexivity.
  - assert (Hrun : transcribe_models ext lg audio_path (model_name :: models) transcripts w
                   = (if match w_fs w' !! path with
                         | Some b => Z.of_nat (length b) >=? 500
                         | None => false
                         end
                      then transcribe_models ext lg audio_path models
                             (dict_set transcripts model_name path)
                             (log_info lg (py "Transcription with " ++ model_name
                                             ++ py " completed successfully") w').2
                      else transcribe_models ext lg audio_path models transcripts
                             (log_error lg (py "Transcript from " ++ model_name
                                              ++ py " seems too short") w').2)).
    { cbn [transcribe_models]. unfold mbind, M_bind.
      unfold bind at 1. unfold log_info at 1, emit at 1. cbv beta iota.
      unfold bind at 1. rewrite E. cbv beta iota.
      unfold bind at 1. rewrite validate_file_output_eq. cbv beta iota.
      destruct (match w_fs w' !! path with Some b => _ | None => false end);
        cbn [negb]; cbv beta iota; unfold bind at 1; reflexivity. }
    rewrite Hrun. destruct (w_fs w' !! path) as [b|]; [destruct (_ >=? _) |]; reflexivity.
Qed.

(** C1 (the code at a failing input). Two transcription models are
    configured; [vosk] succeeds (its transcript is written, validated and
    registered), then the [transcribe] call of [whisper_base] raises (empty
    result). The exception is logged, but the run does not continue to the
    Summarizing stage: it ends with that exception. *)
Theorem process_video_aborts_when_one_model_raises :
  let run := process_video (ext (py "") (py "") speech)
               (Config [py "vosk"; py "whisper_base"] [py "bart"]) video world0 in
  run.1 = inl (Exn ValueError (py "Empty transcription result"))
  ∧ logged INFO (py "Transcription with vosk completed successfully") run.2 = true
  ∧ logged ERROR (py "Error during processing: Empty transcription result") run.2 = true
  ∧ entered_summarizing run.2 = false.
Proof. vm_compute. repeat split. Qed.

(** The other kind of failure is handled as the claim says: [vosk]'s
    transcript fails validation (12 bytes), that is logged, [vosk] is not
    registered, [whisper_base] succeeds and the run goes on to the
    Summarizing stage and completes. *)
Example process_video_skips_invalid_transcript :
  let run := process_video (ext speech (py "") mumble)
               (Config [py "vosk"; py "whisper_base"] [py "bart"]) video world0 in
  run.1 = inr tt
  ∧ logged ERROR (py "Transcript from vosk seems too short") run.2 = true
  ∧ entered_summarizing run.2 = true
  ∧ logged INFO (py "Summarizing vosk transcript with bart") run.2 = false
  ∧ logged INFO (py "Summarizing whisper_base transcript with bart") run.2 = true
  ∧ logged INFO (py "Processing complete!") run.2 = true.
Proof. vm_compute. repeat split. Qed.

(** C2 (the code at a failing input). The one configured model fails by
    raising: the run ends before the Summarizing stage with no transcript
    written, but with the model's exception, not with "All transcription
    attempts failed". *)
Theorem process_video_abort_reason_when_model_raises :
  let run := process_video (ext (py "") (py "") speech)
               (Config [py "whisper_base"] [py "bart"]) video world0 in
  run.1 = inl (Exn ValueError (py "Empty transcription result"))
  ∧ Exn ValueError (py "Empty transcription result")
    ≠ Exn ValueError (py "All transcription attempts failed")
  ∧ entered_summarizing run.2 = false
  ∧ w_fs run.2 = <[audio := media]> {[ video := media ]}.
Proof.
  cbv zeta. split; [vm_compute; reflexivity |]. split; [discriminate |].
  split; vm_compute; reflexivity.
Qed.

(** When instead the one configured model fails validation, the run ends
    with "All transcription attempts failed", before the Summarizing
    stage. *)
Example process_video_all_invalid :
  let run := process_video (ext speech (py "") mumble)
               (Config [py "vosk"] [py "bart"]) video world0 in
  run.1 = inl (Exn ValueError (py "All transcription attempts failed"))
  ∧ entered_summarizing run.2 = false.
Proof. vm_compute. repeat split. Qed.

(** C6 (as stated, refuted). The speech model returns an empty first result
    (0 words) and would return a hundred words on a retry: the Whisper
    runner makes no retry and declares the attempt failed. The recognizer
    hears three words: the Vosk runner makes no retry and returns them. *)
Lemma short_result_without_retry :
  let whisper := WhisperTranscriber.transcribe (ext (py "") speech mumble) audio world0 in
  let vosk := VoskTranscriber.transcribe (ext (py "") speech mumble) audio world0 in
  whisper_model (ext (py "") speech mumble) first_options audio = inr (py "")
  ∧ word_count (py "") = 0%nat
  ∧ whisper_model (ext (py "") speech mumble) retry_options audio = inr speech
  ∧ word_count speech = 100%nat
  ∧ w_calls whisper.2 = [first_options]
  ∧ whisper.1 = inl (Exn ValueError (py "Empty transcription result"))
  ∧ vosk.1 = inr mumble
  ∧ word_count mumble = 3%nat
  ∧ w_calls vosk.2 = [].
Proof. vm_compute. repeat split. Qed.

(** The amended policy at work: three words first, a hundred on the one
    retry, which are returned. *)
Lemma whisper_retry_policy_witness :
  w_calls (WhisperTranscriber.transcribe (ext mumble speech mumble) audio world0).2
  = w_calls world0 ++ [first_options; retry_options]
  ∧ (WhisperTranscriber.transcribe (ext mumble speech mumble) audio world0).1
    = inr speech.
Proof.
  destruct (whisper_retry_policy (ext mumble speech mumble) audio (py "12.50") mumble
              world0 eq_refl eq_refl) as (_ & _ & Hretry & _).
  destruct Hretry as [Hcalls Hresult]; [discriminate | vm_compute; lia |].
  split; [exact Hcalls | exact (Hresult speech eq_refl)].
Defined.

(** C7 (the code at a failing input). A summary of the transcript [t.txt]
    by [bart] exists already; the Summarize runner, which does not pass its
    desired path through the allocator as the Transcribe runner does, writes
    to that very path and replaces the file's contents. *)
Theorem summarize_overwrites_existing_summary :
  let w := {| w_fs := <[py "data/outputs/summaries/t_bart.md" := py "an earlier summary"]>
                        {[ py "data/outputs/transcripts/t.txt" := speech ]};
              w_logs := []; w_calls := [] |} in
  let run := Summarizer.summarize (ext speech speech speech)
               (py "data/outputs/transcripts/t.txt") (py "bart") w in
  w_fs w !! py "data/outputs/summaries/t_bart.md" = Some (py "an earlier summary")
  ∧ run.1 = inr (py "data/outputs/summaries/t_bart.md")
  ∧ w_fs run.2 !! py "data/outputs/summaries/t_bart.md" = Some digest
  ∧ digest ≠ py "an earlier summary".
Proof. vm_compute. repeat split. discriminate. Qed.

(** The transcribe runner on the same kind of world: the existing transcript
    keeps its contents. *)
Lemma runners_and_existing_files_witness :
  w_fs (Transcriber.transcribe (ext speech speech speech) audio (py "vosk")
          {| w_fs := {[ py "data/outputs/transcripts/lecture_0a1b2c3d_vosk.txt"
                        := py "an earlier transcript" ]};
             w_logs := []; w_calls := [] |}).2
    !! py "data/outputs/transcripts/lecture_0a1b2c3d_vosk.txt"
  = Some (py "an earlier transcript").
Proof.
  apply (proj1 (runners_and_existing_files (ext speech speech speech) _)).
  vm_compute. reflexivity.
Defined.

Example transcribe_allocates_next_to_existing :
  (Transcriber.transcribe (ext speech speech speech) audio (py "vosk")
     {| w_fs := {[ py "data/outputs/transcripts/lecture_0a1b2c3d_vosk.txt"
                   := py "an earlier transcript" ]};
        w_logs := []; w_calls := [] |}).1
  = inr (py "data/outputs/transcripts/lecture_0a1b2c3d_vosk_1.txt").
Proof. vm_compute. reflexivity. Qed.

End Runs.

(** ** More on the Whisper runner and on the stages of a run *)

Section WhisperMore.
Import transcriber transcriber.WhisperTranscriber.
Context (ext : collaborators).

#[local] Arguments Nat.ltb : simpl never.
#[local] Arguments py : simpl never.
#[local] Arguments too_short_msg : simpl never.
#[local] Arguments str_of_nat : simpl never.

(** X3. The Whisper runner returns no transcript of fewer than ten words: what
    it returns is the first result or the retried one, whichever reached ten
    words. *)
Theorem whisper_returns_at_least_ten_words (audio_path transcript : str) (w : World) :
  (WhisperTranscriber.transcribe ext audio_path w).1 = inr transcript →
  (10 ≤ word_count transcript)%nat
  ∧ (whisper_model ext first_options audio_path = inr transcript
     ∨ whisper_model ext retry_options audio_path = inr transcript).
Proof.
  unfold WhisperTranscriber.transcribe, transcribe_body, call_model.
  unfold_M. cbn.
  destruct (whisper_load_audio ext audio_path) as [e | minutes]; cbn; [discriminate |].
  destruct (whisper_model ext first_options audio_path) as [e | first]; cbn;
    [discriminate |].
  destruct (truthy first); cbn; [| discriminate].
  destruct (Nat.ltb_spec (word_count first) 10) as [Hshort | Hlong]; cbn.
  2:{ intros [= <-]. auto. }
  destruct (whisper_model ext retry_options audio_path) as [e | second]; cbn;
    [discriminate |].
  destruct (Nat.ltb_spec (word_count second) 10) as [Hshort2 | Hlong2]; cbn;
    [discriminate |].
  intros [= <-]. auto.
Qed.

(** X4. What the Whisper runner logs, and what of it is emitted. When it
    raises, the last record emitted is the error with the message of the
    exception. When it returns, its last call of the logger announces the
    success, which no handler receives: either nothing was emitted and the
    transcript is the first result, or the first result had fewer than ten
    words and the one record emitted is the error that says so. *)
Theorem whisper_transcribe_emitted_records (audio_path : str) (w : World) :
  let r := WhisperTranscriber.transcribe ext audio_path w in
  ∃ added,
    w_logs r.2 = w_logs w ++ added
    ∧ match r.1 with
      | inl e =>
          last (emitted added)
          = Some (LogRecord transcriber_logger ERROR
                    (py "Error in Whisper transcription: " ++ exn_msg e))
      | inr transcript =>
          last added
          = Some (LogRecord transcriber_logger INFO (py "Transcription successful"))
          ∧ (emitted added = []
             ∧ whisper_model ext first_options audio_path = inr transcript
             ∨ ∃ first,
                 whisper_model ext first_options audio_path = inr first
                 ∧ (word_count first < 10)%nat
                 ∧ emitted added
                   = [LogRecord transcriber_logger ERROR (too_short_msg (word_count first))])
      end.
Proof.
  cbv zeta. unfold WhisperTranscriber.transcribe, transcribe_body, call_model.
  unfold_M. cbn.
  destruct (whisper_load_audio ext audio_path) as [e | minutes]; cbn.
  { rewrite <- ?app_assoc. eexists. split; reflexivity. }
  destruct (whisper_model ext first_options audio_path) as [e | first]; cbn.
  { rewrite <- ?app_assoc. eexists. split; reflexivity. }
  destruct (truthy first); cbn.
  2:{ rewrite <- ?app_assoc. eexists. split; reflexivity. }
  destruct (Nat.ltb_spec (word_count first) 10) as [Hshort | Hlong]; cbn.
  2:{ rewrite <- ?app_assoc. eexists. split; [reflexivity |].
      split; [reflexivity | left; split; reflexivity]. }
  destruct (whisper_model ext retry_options audio_path) as [e | second]; cbn.
  { rewrite <- ?app_assoc. eexists. split; reflexivity. }
  destruct (Nat.ltb_spec (word_count second) 10) as [Hshort2 | Hlong2]; cbn.
  - rewrite <- ?app_assoc. eexists. split; reflexivity.
  - rewrite <- ?app_assoc. eexists. split; [reflexivity |].
    split; [reflexivity |]. right. exists first. repeat split. exact Hshort.
Qed.

End WhisperMore.

Section WhisperRun.
Import transcriber scenario.

Lemma whisper_returns_at_least_ten_words_witness :
  (10 ≤ word_count speech)%nat
  ∧ (whisper_model (ext speech mumble mumble) WhisperTranscriber.first_options audio
       = inr speech
     ∨ whisper_model (ext speech mumble mumble) WhisperTranscriber.retry_options audio
       = inr speech).
Proof.
  apply (whisper_returns_at_least_ten_words (ext speech mumble mumble) audio speech world0).
  vm_compute. reflexivity.
Defined.

End WhisperRun.

Section RunMore.
Import run_all summarizer transcriber.

#[local] Arguments py : simpl never.

(** How a sequenced computation returns: both halves returned. *)
Lemma bind_returns {A B : Type} (m : M A) (k : A → M B) (w w' : World) (b : B) :
  (m ≫= k) w = (inr b, w') → ∃ a w1, m w = (inr a, w1) ∧ k a w1 = (inr b, w').
Proof.
  unfold mbind, M_bind, bind. destruct (m w) as [[e | a] w1]; [discriminate |].
  intros H. eauto.
Qed.

(** The loop over the summaries returns, whatever the mind map and notes
    generators do for any summary, raise included. *)
Lemma derive_all_returns (ext : collaborators) (lg : logger) (summaries : dict) :
  ∀ w, (derive_all ext lg summaries w).1 = inr tt.
Proof.
  induction summaries as [|[model_combo summary_path] summaries IH]; intros w;
    [reflexivity |].
  cbn [derive_all]. unfold mbind, M_bind, bind, try_except.
  destruct (derive_one ext lg model_combo summary_path w) as [[e | []] w1].
  - unfold log_error, emit. apply IH.
  - apply IH.
Qed.

(** X5. The Derive stage aborts a run only when one of the two generators cannot
    be made. The loop over the summaries never raises, whatever the
    generators do for any summary; so the stage raises exactly when
    [MindMapGenerator()] or [NoteGenerator()] raises, with that exception
    and before anything is logged or written. *)
Theorem derive_stage_raises_only_at_construction (ext : collaborators) (lg : logger)
    (summaries : dict) (w : World) :
  (derive_all ext lg summaries w).1 = inr tt
  ∧ match (derive_stage ext lg summaries w).1 with
    | inr _ => mindmap_init ext = None ∧ notes_init ext = None
    | inl e =>
        (mindmap_init ext = Some e
         ∨ mindmap_init ext = None ∧ notes_init ext = Some e)
        ∧ (derive_stage ext lg summaries w).2 = w
    end.
Proof.
  split; [apply derive_all_returns |].
  unfold derive_stage, construct. unfold_M.
  destruct (mindmap_init ext) as [e |]; cbn; [auto |].
  destruct (notes_init ext) as [e |]; cbn; [auto |].
  rewrite (surjective_pairing (derive_all ext lg summaries w)), derive_all_returns.
  cbn. auto.
Qed.

Lemma last_emitted_snoc (records : list log_record) (r : log_record) :
  reaches_handler r = true → last (emitted (records ++ [r])) = Some r.
Proof.
  intros Hr. unfold emitted. rewrite List.filter_app. simpl. rewrite Hr.
  apply last_snoc.
Qed.

(** X6. How a run ends. When [ModelSelector()] or [setup_logging] raises, which
    happens before the [try], [process_video] raises that exception and
    nothing is logged. Otherwise the last record emitted tells how the run
    ended: "Processing complete!" when [process_video] returns, and the
    error with the message of the exception when it raises. *)
Theorem process_video_last_record (ext : collaborators) (cfg : config)
    (video_source : str) (w : World) :
  let r := process_video ext cfg video_source w in
  let video_name := utils.get_video_name video_source in
  match model_selector_init ext, logging_init ext video_name with
  | Some e, _ => r = (inl e, w)
  | None, Some e => r = (inl e, w)
  | None, None =>
      last (emitted (w_logs r.2))
      = Some (match r.1 with
              | inr _ => LogRecord (run_logger video_name) INFO
                           (py "Processing complete!")
              | inl e => LogRecord (run_logger video_name) ERROR
                           (py "Error during processing: " ++ exn_msg e)
              end)
  end.
Proof.
  cbv zeta. unfold process_video, construct.
  destruct (model_selector_init ext) as [e |]; [reflexivity |].
  destruct (logging_init ext (utils.get_video_name video_source)) as [e |];
    [reflexivity |].
  unfold mbind, M_bind, bind, mret, M_ret, ret. cbv beta iota. unfold try_except.
  destruct (process_video_body _ _ _ _ w) as [[e | []] w1] eqn:E.
  - unfold mbind, M_bind, bind, log_error, emit, raise. cbn.
    apply last_emitted_snoc. reflexivity.
  - cbn. unfold process_video_body in E.
    repeat first
      [ apply bind_returns in E as (? & ? & _ & E)
      | match type of E with (if ?c then _ else _) _ = _ => destruct c end
      | discriminate E ].
    unfold log_info, emit in E. injection E as <-.
    apply last_emitted_snoc. reflexivity.
Qed.

Lemma dict_set_In (d : dict) (k v : str) (kv : str * str) :
  In kv (dict_set d k v) → kv = (k, v) ∨ In kv d.
Proof.
  induction d as [|[k' v'] d IH]; simpl.
  - intros [<- | []]. left. reflexivity.
  - destruct (decide (k' = k)) as [-> | Hne]; simpl.
    + intros [<- | H]; auto.
    + intros [<- | H]; [auto |]. destruct (IH H); auto.
Qed.

Lemma dict_set_keys (d : dict) (k v : str) :
  map fst (dict_set d k v) = if bool_decide (k ∈ map fst d) then map fst d
                             else map fst d ++ [k].
Proof.
  induction d as [|[k' v'] d IH]; simpl; [reflexivity |].
  destruct (decide (k' = k)) as [-> | Hne]; simpl.
  - rewrite bool_decide_eq_true_2 by left. reflexivity.
  - rewrite IH. destruct (bool_decide (k ∈ map fst d)) eqn:Hin.
    + apply bool_decide_eq_true in Hin.
      rewrite bool_decide_eq_true_2 by (right; exact Hin). reflexivity.
    + apply bool_decide_eq_false in Hin.
      rewrite bool_decide_eq_false_2; [reflexivity |].
      intros [? | ?]%elem_of_cons; [congruence | tauto].
Qed.

Lemma dict_set_NoDup (d : dict) (k v : str) :
  NoDup (map fst d) → NoDup (map fst (dict_set d k v)).
Proof.
  intros Hnd. rewrite dict_set_keys.
  destruct (bool_decide (k ∈ map fst d)) eqn:Hin; [exact Hnd |].
  apply bool_decide_eq_false in Hin.
  apply NoDup_app. split; [exact Hnd |]. split; [| apply NoDup_singleton].
  intros x Hx Hk%list_elem_of_singleton. subst x. exact (Hin Hx).
Qed.

(** What the loop over the transcription models maintains, from any registry
    it starts with. *)
Lemma transcribe_models_inv (ext : collaborators) (lg : logger) (audio_path : str)
    (models : list str) :
  ∀ (transcripts : dict) (w : World),
    (∀ p b, w_fs w !! p = Some b →
            w_fs (transcribe_models ext lg audio_path models transcripts w).2 !! p
            = Some b)
    ∧ ∀ registry,
        (transcribe_models ext lg audio_path models transcripts w).1 = inr registry →
        (NoDup (map fst transcripts) → NoDup (map fst registry))
        ∧ ∀ kv, In kv registry →
                In kv transcripts
                ∨ (In kv.1 models
                   ∧ ∃ b, w_fs (transcribe_models ext lg audio_path models transcripts w).2
                            !! kv.2 = Some b
                          ∧ 500 ≤ Z.of_nat (length b)).
Proof.
  induction models as [|model_name models IH]; intros transcripts w.
  { split; [intros p b Hp; exact Hp |].
    intros registry [= <-]. split; [tauto | intros kv Hkv; left; exact Hkv]. }
  pose proof (transcribe_models_step ext lg audio_path model_name models transcripts w)
    as Hstep.
  cbv zeta in Hstep.
  pose proof (transcriber_transcribe_effect ext audio_path model_name
                (log_info lg (py "Transcribing with " ++ model_name) w).2) as Heff.
  destruct (Transcriber.transcribe ext audio_path model_name _) as [[e | path] w'].
  { rewrite Hstep. destruct Heff as [(e' & _ & Hfs) | (t & out & Hret & _)];
      [| discriminate Hret].
    split; [intros p b Hp; cbn in *; rewrite Hfs; exact Hp | intros registry [=]]. }
  destruct Heff as [(e' & Hret & _) | (t & out & Hret & _ & Hfree & Hfs)];
    [discriminate Hret |].
  cbn in Hret, Hfree, Hfs. injection Hret as <-.
  assert (Hgrow : ∀ p b, w_fs w !! p = Some b → w_fs w' !! p = Some b).
  { intros p b Hp. rewrite Hfs. rewrite lookup_insert_ne; [exact Hp | congruence]. }
  destruct (w_fs w' !! path) as [b0|] eqn:Hpath;
    [destruct (Z.geb_spec (Z.of_nat (length b0)) 500) as [Hbig | Hsmall] |];
    rewrite Hstep;
    match goal with
    | |- context [transcribe_models ext lg audio_path models ?d ?w2] =>
        destruct (IH d w2) as [Hkeep Hreg]
    end.
  - split; [intros p b Hp; apply Hkeep, Hgrow, Hp |].
    intros registry Hr. destruct (Hreg registry Hr) as [Hnd Hin].
    split; [intros H; apply Hnd, dict_set_NoDup, H |].
    intros kv Hkv. destruct (Hin kv Hkv) as [Hold | (Hm & Hfile)].
    + apply dict_set_In in Hold as [-> | Hold]; [| left; exact Hold].
      right. split; [left; reflexivity |]. exists b0. split; [| lia].
      apply Hkeep. exact Hpath.
    + right. split; [right; exact Hm | exact Hfile].
  - split; [intros p b Hp; apply Hkeep, Hgrow, Hp |].
    intros registry Hr. destruct (Hreg registry Hr) as [Hnd Hin].
    split; [exact Hnd |].
    intros kv Hkv. destruct (Hin kv Hkv) as [Hold | (Hm & Hfile)]; [left; exact Hold |].
    right. split; [right; exact Hm | exact Hfile].
  - split; [intros p b Hp; apply Hkeep, Hgrow, Hp |].
    intros registry Hr. destruct (Hreg registry Hr) as [Hnd Hin].
    split; [exact Hnd |].
    intros kv Hkv. destruct (Hin kv Hkv) as [Hold | (Hm & Hfile)]; [left; exact Hold |].
    right. split; [right; exact Hm | exact Hfile].
Qed.

(** X7. The registry the Transcribing stage hands on. Every file that existed
    before the stage, the log files in [data/outputs/logs/] apart, still
    exists with the same contents; and if the stage returns, no model is
    registered twice, every registered model is a configured one, and every
    registered transcript is a file of at least 500 bytes when the stage
    ends. *)
Theorem transcribe_models_registry (ext : collaborators) (lg : logger) (audio_path : str)
    (models : list str) (w : World) :
  let r := transcribe_models ext lg audio_path models [] w in
  (∀ p b, startswith p (py "data/outputs/logs/") = false →
          w_fs w !! p = Some b → w_fs r.2 !! p = Some b)
  ∧ ∀ registry, r.1 = inr registry →
      NoDup (map fst registry)
      ∧ Forall (λ kv, In kv.1 models
                      ∧ ∃ b, w_fs r.2 !! kv.2 = Some b ∧ 500 ≤ Z.of_nat (length b))
          registry.
Proof.
  cbv zeta.
  destruct (transcribe_models_inv ext lg audio_path models [] w) as [Hkeep Hreg].
  split; [intros p b _; apply Hkeep |].
  intros registry Hr. destruct (Hreg registry Hr) as [Hnd Hin].
  split; [apply Hnd; constructor |].
  apply Forall_forall. intros kv Hkv%list_elem_of_In.
  destruct (Hin kv Hkv) as [[] | H]. exact H.
Qed.

End RunMore.

(** ** More on the text chunker *)

(** A string free of full stops and newlines. *)
Local Abbreviation plain := (λ s : str, ¬ In chr_dot s ∧ ¬ In chr_nl s).

Section SentenceText.
Import summarizer summarizer.TransformerSummarizer.

Lemma split_char_In (sep : ascii) (s : str) :
  ∀ piece, In piece (split_char sep s) → ¬ In sep piece ∧ ∀ c, In c piece → In c s.
Proof.
  induction s as [|c s IH]; simpl; intros piece Hin.
  - destruct Hin as [<- | []]. split; [intros [] | intros ? []].
  - destruct (Ascii.eqb_spec c sep) as [-> | Hne].
    + destruct Hin as [<- | Hin]; [split; [intros [] | intros ? []] |].
      destruct (IH piece Hin) as [H1 H2]. split; [exact H1 | auto].
    + destruct (split_char sep s) as [|w ws] eqn:E.
      * destruct Hin as [<- | []]. split; [intros [? | []]; congruence |].
        intros c' [<- | []]. left. reflexivity.
      * destruct Hin as [<- | Hin].
        -- destruct (IH w (or_introl eq_refl)) as [H1 H2].
           split; [intros [? | ?]; [congruence | tauto] |].
           intros c' [<- | Hc]; [left; reflexivity | right; auto].
        -- destruct (IH piece (or_intror Hin)) as [H1 H2]. split; [exact H1 | auto].
Qed.

Lemma lstrip_In (s : str) (c : ascii) : In c (lstrip s) → In c s.
Proof.
  induction s as [|x s IH]; simpl; [tauto |].
  destruct (isspace x); [auto | tauto].
Qed.

Lemma strip_In (s : str) (c : ascii) : In c (strip s) → In c s.
Proof.
  unfold strip, rstrip. intros H%lstrip_In. apply in_rev in H.
  apply lstrip_In in H. apply in_rev. exact H.
Qed.

Lemma replace_newlines_In (text : str) (c : ascii) :
  In c (replace_char chr_nl (py ". ") text) → c ≠ chr_nl.
Proof.
  unfold replace_char. intros H. apply in_flat_map in H as (x & Hx & Hc).
  destruct (Ascii.eqb_spec x chr_nl) as [-> | Hne].
  - destruct Hc as [<- | [<- | []]]; discriminate.
  - destruct Hc as [<- | []]. exact Hne.
Qed.

Lemma sentences_of_plain (text : str) : Forall plain (sentences_of text).
Proof.
  apply Forall_forall. intros s Hs%list_elem_of_In.
  unfold sentences_of in Hs. apply in_map_iff in Hs as (piece & <- & Hp).
  apply filter_In in Hp as [Hp _].
  apply split_char_In in Hp as [Hdot Hsub].
  split; intros Hc%strip_In; [exact (Hdot Hc) |].
  exact (replace_newlines_In _ _ (Hsub _ Hc) eq_refl).
Qed.

Lemma join_plain (g : list str) : Forall plain g → plain (join (py " ") g).
Proof.
  induction 1 as [|u g Hu Hg IH]; [split; intros [] |].
  destruct g as [|v g]; [exact Hu |].
  change (join (py " ") (u :: v :: g)) with (u ++ py " " ++ join (py " ") (v :: g)).
  destruct Hu as [Hu1 Hu2], IH as [IH1 IH2].
  split; intros [H | [H | H]%in_app_or]%in_app_or; try tauto;
    destruct H as [H | []]; discriminate H.
Qed.

End SentenceText.

Section ChunkerText.
Import summarizer summarizer.TransformerSummarizer.
Context {Token : Type} (encode : str → list Token).

Lemma chunk_step_plain (max_chunk_size : Z) (st : chunk_state) (sentence : str) :
  Forall plain (chunks st) → Forall plain (current_chunk st) → plain sentence →
  Forall plain (chunks (chunk_step encode max_chunk_size st sentence))
  ∧ Forall plain (current_chunk (chunk_step encode max_chunk_size st sentence)).
Proof.
  intros Hc Hcur Hs. unfold chunk_step.
  destruct (_ >? _); simpl.
  - split; [| constructor; [exact Hs | constructor]].
    apply Forall_app. split; [exact Hc |].
    constructor; [apply join_plain, Hcur | constructor].
  - split; [exact Hc |]. apply Forall_app.
    split; [exact Hcur | constructor; [exact Hs | constructor]].
Qed.

Lemma chunk_loop_plain (max_chunk_size : Z) (sentences : list str) :
  ∀ st, Forall plain (chunks st) → Forall plain (current_chunk st) →
        Forall plain sentences →
        Forall plain (chunks (fold_left (chunk_step encode max_chunk_size) sentences st))
        ∧ Forall plain
            (current_chunk (fold_left (chunk_step encode max_chunk_size) sentences st)).
Proof.
  induction sentences as [|s sentences IH]; intros st Hc Hcur Hs; simpl; [auto |].
  apply Forall_cons in Hs as [Hs Hrest].
  destruct (chunk_step_plain max_chunk_size st s Hc Hcur Hs) as [Hc' Hcur'].
  apply IH; assumption.
Qed.

(** X8. No chunk of [_chunk_text] holds a full stop or a newline, whatever the
    tokenizer, the text and the budget: the sentence boundaries of the text
    do not reach the model. *)
Theorem chunk_text_has_no_full_stop (text : str) (max_chunk_size : Z) :
  Forall (λ chunk, ¬ In chr_dot chunk ∧ ¬ In chr_nl chunk)
    (_chunk_text encode text max_chunk_size).
Proof.
  unfold _chunk_text.
  destruct (chunk_loop_plain max_chunk_size (sentences_of text) chunk_init)
    as [Hc Hcur]; [constructor | constructor | apply sentences_of_plain |].
  destruct (current_chunk _) as [|u g]; [exact Hc |].
  apply Forall_app. split; [exact Hc |].
  constructor; [apply (join_plain (u :: g)), Hcur | constructor].
Qed.

(** While the running count stays within the budget the loop only appends
    to the open chunk. *)
Lemma chunk_loop_within_budget (max_chunk_size : Z) (sentences : list str) :
  ∀ cur,
    Z.of_nat (group_tokens encode (cur ++ sentences)) ≤ max_chunk_size →
    fold_left (chunk_step encode max_chunk_size) sentences
      {| chunks := []; current_chunk := cur;
         current_length := Z.of_nat (group_tokens encode cur) |}
    = {| chunks := []; current_chunk := cur ++ sentences;
         current_length := Z.of_nat (group_tokens encode (cur ++ sentences)) |}.
Proof.
  induction sentences as [|s sentences IH]; intros cur Hle; simpl.
  - rewrite app_nil_r. reflexivity.
  - assert (Hs : group_tokens encode (cur ++ [s])
                 = (group_tokens encode cur + length (encode s))%nat).
    { rewrite group_tokens_app. simpl. unfold unit_tokens. lia. }
    assert (Happ : cur ++ s :: sentences = (cur ++ [s]) ++ sentences)
      by (rewrite <- app_assoc; reflexivity).
    unfold chunk_step at 2. simpl.
    destruct (Z.gtb_spec (Z.of_nat (group_tokens encode cur) + Z.of_nat (length (encode s)))
                max_chunk_size) as [Hgt | _].
    + exfalso. rewrite Happ, group_tokens_app, Hs in Hle. lia.
    + rewrite Happ. rewrite <- IH by (rewrite <- Happ; exact Hle).
      rewrite Hs, Nat2Z.inj_add. reflexivity.
Qed.

(** X9. A text whose sentence units fit the budget together is summarized in one
    piece: [_chunk_text] returns one chunk, the units joined by one space. *)
Theorem chunk_text_single_chunk (text : str) (max_chunk_size : Z) :
  sentences_of text ≠ [] →
  Z.of_nat (group_tokens encode (sentences_of text)) ≤ max_chunk_size →
  _chunk_text encode text max_chunk_size = [join (py " ") (sentences_of text)].
Proof.
  intros Hne Hle. unfold _chunk_text.
  change chunk_init
    with {| chunks := []; current_chunk := [];
            current_length := Z.of_nat (group_tokens encode []) |}.
  rewrite chunk_loop_within_budget by exact Hle. simpl.
  destruct (sentences_of text); [congruence | reflexivity].
Qed.

End ChunkerText.

Section BlankText.
Import summarizer summarizer.TransformerSummarizer.

Lemma lstrip_blank (s : str) : Forall (λ c, isspace c = true) s → lstrip s = [].
Proof. induction 1 as [|c s Hc _ IH]; simpl; [reflexivity | rewrite Hc; exact IH]. Qed.

Lemma strip_blank (s : str) : Forall (λ c, isspace c = true) s → strip s = [].
Proof.
  intros H. unfold strip, rstrip.
  rewrite (lstrip_blank (rev s)) by (apply Forall_rev; exact H). reflexivity.
Qed.

Lemma sentences_of_blank (text : str) :
  Forall (λ c, isspace c = true ∨ c = chr_dot) text → sentences_of text = [].
Proof.
  intros Hblank. unfold sentences_of.
  assert (Hrep : ∀ c, In c (replace_char chr_nl (py ". ") text) →
                      isspace c = true ∨ c = chr_dot).
  { unfold replace_char. intros c H. apply in_flat_map in H as (x & Hx & Hc).
    destruct (Ascii.eqb_spec x chr_nl) as [-> | Hne].
    - destruct Hc as [<- | [<- | []]]; [right | left]; reflexivity.
    - destruct Hc as [<- | []]. rewrite Forall_forall in Hblank.
      apply Hblank, list_elem_of_In, Hx. }
  assert (Hnone : ∀ piece, In piece (split_char chr_dot (replace_char chr_nl (py ". ") text))
                           → truthy (strip piece) = false).
  { intros piece [Hdot Hsub]%split_char_In.
    rewrite strip_blank; [reflexivity |].
    apply Forall_forall. intros c Hc%list_elem_of_In.
    destruct (Hrep c (Hsub c Hc)) as [H | ->]; [exact H | tauto]. }
  induction (split_char chr_dot (replace_char chr_nl (py ". ") text)) as [|p ps IH];
    [reflexivity |].
  simpl. rewrite (Hnone p (or_introl eq_refl)). apply IH.
  intros piece Hp. apply Hnone. right. exact Hp.
Qed.

(** X10. A text of nothing but whitespace and full stops has no sentence unit:
    the summarizer returns the empty summary for it without consulting the
    model, and leaves the world as it was. *)
Theorem transformer_summarize_blank (ext : collaborators) (model_name text : str)
    (w : World) :
  Forall (λ c, isspace c = true ∨ c = chr_dot) text →
  TransformerSummarizer.summarize ext model_name text w = (inr [], w).
Proof.
  intros Hblank. unfold TransformerSummarizer.summarize, _chunk_text.
  rewrite (sentences_of_blank text Hblank). reflexivity.
Qed.

End BlankText.

(** ** Cleaning the output directories *)

Section CleanerFacts.
Import utils.

#[local] Arguments py : simpl never.

Lemma startswith_spec (s pre : str) : startswith s pre = true ↔ ∃ rest, s = pre ++ rest.
Proof.
  revert s. induction pre as [|c pre IH]; intros s; simpl.
  - split; [exists s; reflexivity | reflexivity].
  - destruct s as [|x s]; [split; [discriminate | intros (rest & H); discriminate] |].
    rewrite andb_true_iff, IH. split.
    + intros [Hx%Ascii.eqb_eq (rest & ->)]. subst. eauto.
    + intros (rest & [= -> ->]). split; [apply Ascii.eqb_refl | eauto].
Qed.

Lemma first_component_id (f : str) : ¬ In chr_slash f → first_component f = f.
Proof.
  induction f as [|x f IH]; simpl; [reflexivity |]. intros H.
  destruct (Ascii.eqb_spec x chr_slash) as [-> | _]; [tauto |].
  rewrite IH by tauto. reflexivity.
Qed.

Lemma first_component_no_slash (s : str) : ¬ In chr_slash (first_component s).
Proof.
  induction s as [|x s IH]; simpl; [tauto |].
  destruct (Ascii.eqb_spec x chr_slash) as [-> | Hne]; simpl; [tauto |].
  intros [? | ?]; [congruence | tauto].
Qed.

Lemma entry_of_direct (dir_path f : str) :
  f ≠ [] → ¬ In chr_slash f → entry_of dir_path (dir_path ++ chr_slash :: f) = Some f.
Proof.
  intros Hne Hf. unfold entry_of.
  assert (Hp : dir_path ++ chr_slash :: f = (dir_path ++ [chr_slash]) ++ f)
    by (rewrite <- app_assoc; reflexivity).
  rewrite (proj2 (startswith_spec _ _)) by (exists f; exact Hp).
  rewrite Hp.
  replace (length dir_path + 1)%nat with (length (dir_path ++ [chr_slash]))
    by (rewrite length_app; reflexivity).
  rewrite skipn_app, skipn_all, Nat.sub_diag. simpl.
  rewrite first_component_id by exact Hf.
  destruct f; [congruence | reflexivity].
Qed.

Lemma entry_of_inv (dir_path p name : str) :
  entry_of dir_path p = Some name →
  name ≠ [] ∧ ¬ In chr_slash name ∧ startswith p (dir_path ++ [chr_slash]) = true.
Proof.
  unfold entry_of. destruct (startswith p _); [| discriminate].
  destruct (first_component _) as [|x n] eqn:E; simpl; [discriminate |].
  intros [= <-]. split; [discriminate |]. split; [| reflexivity].
  rewrite <- E. apply first_component_no_slash.
Qed.

Lemma entries_elem (fs : filesystem) (dir_path p name : str) (b : bytes) :
  fs !! p = Some b → entry_of dir_path p = Some name → name ∈ entries fs dir_path.
Proof.
  intros Hp He. unfold entries. apply elem_of_remove_dups, list_elem_of_omap.
  exists p. split; [| exact He].
  apply list_elem_of_fmap. exists (p, b). split; [reflexivity |].
  apply elem_of_map_to_list. exact Hp.
Qed.

Lemma entries_inv (fs : filesystem) (dir_path name : str) :
  name ∈ entries fs dir_path → name ≠ [] ∧ ¬ In chr_slash name.
Proof.
  unfold entries. intros (p & _ & He)%elem_of_remove_dups%list_elem_of_omap.
  apply entry_of_inv in He. tauto.
Qed.

Lemma isdir_spec (fs : filesystem) (path : str) :
  isdir fs path = true
  ↔ ∃ p b, fs !! p = Some b ∧ startswith p (path ++ [chr_slash]) = true.
Proof.
  unfold isdir. rewrite existsb_exists. split.
  - intros (p & Hp%list_elem_of_In%list_elem_of_fmap & Hs).
    destruct Hp as ([p' b] & -> & Hin%elem_of_map_to_list). eauto.
  - intros (p & b & Hp & Hs). exists p. split; [| exact Hs].
    apply list_elem_of_In, list_elem_of_fmap. exists (p, b).
    split; [reflexivity | apply elem_of_map_to_list; exact Hp].
Qed.

Lemma relative_name (f : str) : ¬ In chr_slash f → startswith_char chr_slash f = false.
Proof.
  destruct f as [|x f]; [reflexivity |]. simpl. intros H.
  destruct (Ascii.eqb_spec x chr_slash); [tauto | reflexivity].
Qed.

Lemma join_output_dir (dir_path f : str) :
  In dir_path output_dirs → ¬ In chr_slash f →
  os_path.join dir_path f = dir_path ++ chr_slash :: f.
Proof.
  intros Hin Hf%relative_name. unfold os_path.join. rewrite Hf.
  repeat destruct Hin as [<- | Hin]; try reflexivity. destruct Hin.
Qed.


Lemma remove_matching_effect (dir_path video_name : str) (files : list str) :
  ∀ w,
    let r := remove_matching dir_path video_name files w in
    w_logs r.2 = w_logs w ∧ w_calls r.2 = w_calls w
    ∧ (∀ p b, w_fs r.2 !! p = Some b → w_fs w !! p = Some b)
    ∧ (∀ p, (∀ file, In file files → startswith file video_name = true →
                     p ≠ os_path.join dir_path file) →
            w_fs r.2 !! p = w_fs w !! p)
    ∧ (r.1 = inr tt →
       ∀ file, In file files → startswith file video_name = true →
               w_fs r.2 !! os_path.join dir_path file = None).
Proof.
  induction files as [|file files IH]; intros w; cbv zeta.
  { cbn. repeat split; try reflexivity; [auto | intros _ ? []]. }
  cbn [remove_matching]. unfold mbind, M_bind, bind.
  destruct (startswith file video_name) eqn:Hfile.
  - unfold remove, get_fs, set_fs, raise, mbind, M_bind, bind, path_exists. cbv beta iota.
    destruct (w_fs w !! os_path.join dir_path file) as [b0|] eqn:Hpath.
    + match goal with |- context [remove_matching _ _ _ ?w1] =>
        destruct (IH w1) as (Hlogs & Hcalls & Hmono & Hkeep & Hdone) end.
      cbn in Hlogs, Hcalls, Hmono, Hkeep, Hdone.
      split; [exact Hlogs |]. split; [exact Hcalls |]. split; [| split].
      * intros p b Hp. apply Hmono in Hp.
        apply lookup_delete_Some in Hp. tauto.
      * intros p Hp. rewrite Hkeep by (intros f Hf; apply Hp; right; exact Hf).
        apply lookup_delete_ne. intros <-.
        exact (Hp file (or_introl eq_refl) Hfile eq_refl).
      * intros Hret f [<- | Hf] Hs; [| apply (Hdone Hret f Hf Hs)].
        match goal with |- ?x = None => destruct x as [b|] eqn:E; [| reflexivity] end.
        apply Hmono, lookup_delete_Some in E. tauto.
    + destruct (isdir (w_fs w) (os_path.join dir_path file)); cbn;
        (repeat split; try reflexivity; [auto | discriminate]).
  - cbn. destruct (IH w) as (Hlogs & Hcalls & Hmono & Hkeep & Hdone).
    split; [exact Hlogs |]. split; [exact Hcalls |]. split; [exact Hmono |]. split.
    + intros p Hp. apply Hkeep. intros f Hf. apply Hp. right. exact Hf.
    + intros Hret f [<- | Hf] Hs; [congruence | apply (Hdone Hret f Hf Hs)].
Qed.

(** One directory, cleaned for a video. *)
Lemma clean_directory_video_effect (c : ascii) (name dir_path : str) (w : World) :
  In dir_path output_dirs →
  let r := clean_directory (Some (c :: name)) dir_path w in
  w_logs r.2 = w_logs w ∧ w_calls r.2 = w_calls w
  ∧ (∀ p b, w_fs r.2 !! p = Some b → w_fs w !! p = Some b)
  ∧ (∀ p, (∀ file, ¬ In chr_slash file → startswith file (c :: name) = true →
                   p ≠ dir_path ++ chr_slash :: file) →
          w_fs r.2 !! p = w_fs w !! p)
  ∧ (r.1 = inr tt →
     ∀ file, ¬ In chr_slash file → startswith file (c :: name) = true →
             w_fs r.2 !! (dir_path ++ chr_slash :: file) = None).
Proof.
  intros Hdir. cbv zeta.
  unfold clean_directory, listdir, get_fs, raise, mbind, M_bind, bind, mret, M_ret, ret.
  destruct (exists_file_or_dir (w_fs w) dir_path) eqn:Hex; cbn.
  2:{ repeat split; try reflexivity; [auto |].
      intros _ file Hfile Hs.
      destruct (w_fs w !! (dir_path ++ chr_slash :: file)) as [b|] eqn:E; [| reflexivity].
      unfold exists_file_or_dir in Hex. apply orb_false_elim in Hex as [_ Hno].
      assert (isdir (w_fs w) dir_path = true) as Hyes; [| congruence].
      apply isdir_spec. exists (dir_path ++ chr_slash :: file), b.
      split; [exact E |]. apply startswith_spec. exists file.
      rewrite <- app_assoc. reflexivity. }
  destruct (path_exists (w_fs w) dir_path) eqn:Hfile; cbn.
  { repeat split; try reflexivity; [auto | discriminate]. }
  destruct (remove_matching_effect dir_path (c :: name) (entries (w_fs w) dir_path) w)
    as (Hlogs & Hcalls & Hmono & Hkeep & Hdone).
  split; [exact Hlogs |]. split; [exact Hcalls |]. split; [exact Hmono |]. split.
  - intros p Hp. apply Hkeep. intros file Hin%list_elem_of_In%entries_inv Hs.
    rewrite join_output_dir by tauto. apply Hp; tauto.
  - intros Hret file Hfree Hs.
    destruct (w_fs w !! (dir_path ++ chr_slash :: file)) as [b|] eqn:E.
    + rewrite <- (join_output_dir dir_path file Hdir Hfree).
      apply Hdone; [exact Hret | | exact Hs].
      apply list_elem_of_In. eapply entries_elem; [exact E |].
      apply entry_of_direct; [| exact Hfree]. intros ->. discriminate Hs.
    + match goal with |- ?x = None => destruct x as [b|] eqn:E'; [| reflexivity] end.
      apply Hmono in E'. pose proof (eq_trans (eq_sym E') E) as Hno. discriminate Hno.
Qed.

Lemma clean_directories_video_effect (c : ascii) (name : str) (dirs : list str) :
  (∀ dir_path, In dir_path dirs → In dir_path output_dirs) →
  ∀ w,
    let r := clean_directories (Some (c :: name)) dirs w in
    w_logs r.2 = w_logs w ∧ w_calls r.2 = w_calls w
    ∧ (∀ p b, w_fs r.2 !! p = Some b → w_fs w !! p = Some b)
    ∧ (∀ p, (∀ dir_path file, In dir_path dirs → ¬ In chr_slash file →
                              startswith file (c :: name) = true →
                              p ≠ dir_path ++ chr_slash :: file) →
            w_fs r.2 !! p = w_fs w !! p)
    ∧ (r.1 = inr tt →
       ∀ dir_path file, In dir_path dirs → ¬ In chr_slash file →
                        startswith file (c :: name) = true →
                        w_fs r.2 !! (dir_path ++ chr_slash :: file) = None).
Proof.
  induction dirs as [|dir_path dirs IH]; intros Hdirs w; cbv zeta.
  { cbn. repeat split; try reflexivity; [auto | intros _ ? ? []]. }
  cbn [clean_directories]. unfold mbind, M_bind, bind.
  destruct (clean_directory_video_effect c name dir_path w (Hdirs _ (or_introl eq_refl)))
    as (Hlogs & Hcalls & Hmono & Hkeep & Hdone).
  destruct (clean_directory (Some (c :: name)) dir_path w) as [[e | []] w1]; cbn in *.
  { split; [exact Hlogs |]. split; [exact Hcalls |]. split; [exact Hmono |].
    split; [| discriminate].
    intros p Hp. apply Hkeep. intros file. apply Hp. left. reflexivity. }
  destruct (IH (λ d Hd, Hdirs d (or_intror Hd)) w1)
    as (Hlogs' & Hcalls' & Hmono' & Hkeep' & Hdone').
  split; [congruence |]. split; [congruence |]. split; [auto |]. split.
  - intros p Hp. rewrite Hkeep'; [apply Hkeep |].
    + intros file. apply Hp. left. reflexivity.
    + intros d file Hd. apply Hp. right. exact Hd.
  - intros Hret d file [<- | Hd] Hfree Hs; [| apply (Hdone' Hret d file Hd Hfree Hs)].
    match goal with |- ?x = None => destruct x as [b|] eqn:E; [| reflexivity] end.
    apply Hmono' in E.
    pose proof (eq_trans (eq_sym E) (Hdone eq_refl file Hfree Hs)) as Hno.
    discriminate Hno.
Qed.

(** X11. Cleaning for a video removes by prefix. From each of the six output
    directories it removes the files directly inside whose names start with
    the video name, outputs of another video whose name starts the same way
    included; it removes nothing else, changes no contents and logs nothing.
    If it returns, every such file is gone; it raises when such a name
    belongs to a directory. *)
Theorem clean_for_video_removes_by_prefix (c : ascii) (name : str) (w : World) :
  let r := clean_output_directories (Some (c :: name)) w in
  w_logs r.2 = w_logs w
  ∧ (∀ p b, w_fs r.2 !! p = Some b → w_fs w !! p = Some b)
  ∧ (∀ p, (∀ dir_path file, In dir_path output_dirs → ¬ In chr_slash file →
                            startswith file (c :: name) = true →
                            p ≠ dir_path ++ chr_slash :: file) →
          w_fs r.2 !! p = w_fs w !! p)
  ∧ (r.1 = inr tt →
     ∀ dir_path file, In dir_path output_dirs → ¬ In chr_slash file →
                      startswith file (c :: name) = true →
                      w_fs r.2 !! (dir_path ++ chr_slash :: file) = None).
Proof.
  cbv zeta.
  destruct (clean_directories_video_effect c name output_dirs (λ d H, H) w)
    as (Hlogs & _ & Hmono & Hkeep & Hdone).
  auto.
Qed.


(** One directory, emptied. *)
Lemma clean_directory_all_effect (video_name : option str) (dir_path : str) (w : World) :
  video_name = None ∨ video_name = Some [] →
  let r := clean_directory video_name dir_path w in
  w_logs r.2 = w_logs w ∧ w_calls r.2 = w_calls w
  ∧ (∀ p b, w_fs r.2 !! p = Some b → w_fs w !! p = Some b)
  ∧ (∀ p, startswith p (dir_path ++ [chr_slash]) = false → w_fs r.2 !! p = w_fs w !! p)
  ∧ (r.1 = inr tt →
     ∀ p, startswith p (dir_path ++ [chr_slash]) = true → w_fs r.2 !! p = None).
Proof.
  intros Hname. cbv zeta.
  assert (clean_directory video_name dir_path w = clean_directory None dir_path w) as ->
    by (destruct Hname as [-> | ->]; reflexivity).
  unfold clean_directory, rmtree_makedirs, get_fs, set_fs, raise, mbind, M_bind, bind,
    mret, M_ret, ret.
  destruct (exists_file_or_dir (w_fs w) dir_path) eqn:Hex; cbn.
  2:{ repeat split; try reflexivity; [auto |].
      intros _ p Hp.
      destruct (w_fs w !! p) as [b|] eqn:E; [| reflexivity].
      unfold exists_file_or_dir in Hex. apply orb_false_elim in Hex as [_ Hno].
      assert (isdir (w_fs w) dir_path = true) as Hyes; [| congruence].
      apply isdir_spec. eauto. }
  destruct (path_exists (w_fs w) dir_path) eqn:Hfile; cbn.
  { repeat split; try reflexivity; [auto | discriminate]. }
  repeat split; try reflexivity.
  - intros p b Hp%map_lookup_filter_Some. tauto.
  - intros p Hp. apply option_eq. intros b.
    rewrite map_lookup_filter_Some. cbn. tauto.
  - intros _ p Hp. apply map_lookup_filter_None. right. intros b _. cbn. congruence.
Qed.

Lemma clean_directories_all_effect (video_name : option str) (dirs : list str) :
  video_name = None ∨ video_name = Some [] →
  ∀ w,
    let r := clean_directories video_name dirs w in
    w_logs r.2 = w_logs w ∧ w_calls r.2 = w_calls w
    ∧ (∀ p b, w_fs r.2 !! p = Some b → w_fs w !! p = Some b)
    ∧ (∀ p, (∀ dir_path, In dir_path dirs →
                         startswith p (dir_path ++ [chr_slash]) = false) →
            w_fs r.2 !! p = w_fs w !! p)
    ∧ (r.1 = inr tt →
       ∀ dir_path p, In dir_path dirs →
                     startswith p (dir_path ++ [chr_slash]) = true →
                     w_fs r.2 !! p = None).
Proof.
  intros Hname. induction dirs as [|dir_path dirs IH]; intros w; cbv zeta.
  { cbn. repeat split; try reflexivity; [auto | intros _ ? ? []]. }
  cbn [clean_directories]. unfold mbind, M_bind, bind.
  destruct (clean_directory_all_effect video_name dir_path w Hname)
    as (Hlogs & Hcalls & Hmono & Hkeep & Hdone).
  destruct (clean_directory video_name dir_path w) as [[e | []] w1]; cbn in *.
  { split; [exact Hlogs |]. split; [exact Hcalls |]. split; [exact Hmono |].
    split; [| discriminate].
    intros p Hp. apply Hkeep, Hp. left. reflexivity. }
  destruct (IH w1) as (Hlogs' & Hcalls' & Hmono' & Hkeep' & Hdone').
  split; [congruence |]. split; [congruence |]. split; [auto |]. split.
  - intros p Hp. rewrite Hkeep'; [apply Hkeep, Hp; left; reflexivity |].
    intros d Hd. apply Hp. right. exact Hd.
  - intros Hret d p [<- | Hd] Hs; [| apply (Hdone' Hret d p Hd Hs)].
    match goal with |- ?x = None => destruct x as [b|] eqn:E; [| reflexivity] end.
    apply Hmono' in E.
    pose proof (eq_trans (eq_sym E) (Hdone eq_refl p Hs)) as Hno. discriminate Hno.
Qed.

(** X12. Cleaning everything, which is also what an empty video name asks for:
    every file under one of the six output directories goes, at any depth,
    and no other file is touched. It raises only when one of the six paths is
    a regular file. *)
Theorem clean_all_empties_the_output_directories (w : World) :
  let r := clean_output_directories None w in
  clean_output_directories (Some []) w = r
  ∧ w_logs r.2 = w_logs w
  ∧ (∀ p b, w_fs r.2 !! p = Some b → w_fs w !! p = Some b)
  ∧ (∀ p, (∀ dir_path, In dir_path output_dirs →
                       startswith p (dir_path ++ [chr_slash]) = false) →
          w_fs r.2 !! p = w_fs w !! p)
  ∧ (r.1 = inr tt →
     ∀ dir_path p, In dir_path output_dirs →
                   startswith p (dir_path ++ [chr_slash]) = true →
                   w_fs r.2 !! p = None)
  ∧ (∀ e, r.1 = inl e →
          ∃ dir_path, In dir_path output_dirs ∧ e = not_a_directory dir_path).
Proof.
  cbv zeta. split; [reflexivity |].
  destruct (clean_directories_all_effect None output_dirs (or_introl eq_refl) w)
    as (Hlogs & _ & Hmono & Hkeep & Hdone).
  repeat (split; [assumption |]).
  clear Hlogs Hmono Hkeep Hdone.
  unfold clean_output_directories. revert w. generalize output_dirs as dirs.
  induction dirs as [|dir_path dirs IH]; intros w e; [discriminate |].
  cbn [clean_directories]. unfold mbind, M_bind, bind.
  destruct (clean_directory None dir_path w) as [[e1 | []] w1] eqn:Hstep; cbn.
  - intros [= <-]. exists dir_path. split; [left; reflexivity |].
    revert Hstep.
    unfold clean_directory, rmtree_makedirs, get_fs, set_fs, raise, mbind, M_bind, bind,
      mret, M_ret, ret.
    destruct (exists_file_or_dir (w_fs w) dir_path); cbn; [| discriminate].
    destruct (path_exists (w_fs w) dir_path); cbn; [| discriminate].
    intros [= <- _]. reflexivity.
  - intros H. destruct (IH w1 e H) as (d & Hd & ->). exists d. split; [right |]; auto.
Qed.

End CleanerFacts.

Section CleanerRuns.
Import utils run_all transcriber.

#[local] Arguments py : simpl never.

Lemma rfind_last (c : ascii) (s : str) : rfind c (s ++ [c]) = Z.of_nat (length s).
Proof.
  induction s as [|x s IH]; simpl.
  - rewrite Ascii.eqb_refl. reflexivity.
  - rewrite IH. destruct (Z.leb_spec 0 (Z.of_nat (length s))); lia.
Qed.

Lemma get_video_name_of_directory (source : str) :
  utils.get_video_name (source ++ py "/") = [].
Proof.
  unfold utils.get_video_name, os_path.basename.
  change (py "/") with [chr_slash]. rewrite rfind_last.
  unfold slice_from. replace (Z.to_nat (Z.of_nat (length source) + 1))
    with (length (source ++ [chr_slash])) by (rewrite length_app; simpl; lia).
  rewrite skipn_all. reflexivity.
Qed.

(** X13. [--clean video] with a video argument that ends in a slash, as the URL
    of a directory does: the video name is empty, and [main] cleans
    everything, as [--clean all] does. *)
Theorem clean_video_of_directory_source_cleans_all (source : str) (w : World) :
  clean_requested (py "video") (source ++ py "/") w
  = clean_requested (py "all") (source ++ py "/") w.
Proof.
  unfold clean_requested. rewrite get_video_name_of_directory. reflexivity.
Qed.


Lemma base_output_path_direct (audio_path model_name : str) :
  ¬ In chr_slash model_name →
  ∃ file, Transcriber.base_output_path_of audio_path model_name
          = py "data/outputs/transcripts" ++ chr_slash :: file
          ∧ file = utils.get_video_name audio_path ++ py "_" ++ model_name ++ py ".txt"
          ∧ ¬ In chr_slash file.
Proof.
  intros Hmodel. eexists. split; [| split; [reflexivity |]].
  - unfold Transcriber.base_output_path_of, Transcriber.output_dir.
    apply join_output_dir; [left; reflexivity |].
    intros [H | [H | [H | H]%in_app_or]%in_app_or]%in_app_or.
    + apply splitext_root_In, basename_no_slash in H. exact H.
    + destruct H as [H | []]. discriminate H.
    + exact (Hmodel H).
    + repeat destruct H as [H | H]; try discriminate H. destruct H.
  - unfold utils.get_video_name.
    intros [H | [H | [H | H]%in_app_or]%in_app_or]%in_app_or.
    + apply splitext_root_In, basename_no_slash in H. exact H.
    + destruct H as [H | []]. discriminate H.
    + exact (Hmodel H).
    + repeat destruct H as [H | H]; try discriminate H. destruct H.
Qed.

Lemma startswith_app (s pre rest : str) :
  startswith s pre = true → startswith (s ++ rest) pre = true.
Proof.
  intros (tail & ->)%startswith_spec. apply startswith_spec. exists (tail ++ rest).
  rewrite app_assoc. reflexivity.
Qed.

(** X14. After cleaning for a video, a transcript of that video gets its plain
    name: the desired path of the Transcribe runner is free, so the path it
    returns carries no counter. *)
Theorem transcript_keeps_its_name_after_cleaning (ext : collaborators) (c : ascii)
    (name audio_path model_name output_path : str) (w : World) :
  startswith (utils.get_video_name audio_path) (c :: name) = true →
  ¬ In chr_slash model_name →
  let cleaned := clean_output_directories (Some (c :: name)) w in
  cleaned.1 = inr tt →
  (Transcriber.transcribe ext audio_path model_name cleaned.2).1 = inr output_path →
  output_path = Transcriber.base_output_path_of audio_path model_name.
Proof.
  intros Hname Hmodel cleaned Hclean Hret.
  destruct (base_output_path_direct audio_path model_name Hmodel)
    as (file & Hbase & Hfile & Hfree).
  destruct (clean_directories_video_effect c name output_dirs (λ d H, H) w)
    as (_ & _ & _ & _ & Hdone).
  specialize (Hdone Hclean (py "data/outputs/transcripts") file (or_introl eq_refl) Hfree).
  rewrite <- Hbase in Hdone.
  assert (Hgone : w_fs cleaned.2 !! Transcriber.base_output_path_of audio_path model_name
                  = None).
  { apply Hdone. rewrite Hfile. apply startswith_app. exact Hname. }
  destruct (transcriber_transcribe_effect ext audio_path model_name cleaned.2)
    as [(e & He & _) | (t & out & Hout & Halloc & _)]; [congruence |].
  unfold utils.get_unique_filename, path_exists in Halloc.
  rewrite Hgone in Halloc. cbn in Halloc. congruence.
Qed.

Lemma transcript_keeps_its_name_after_cleaning_witness :
  py "data/outputs/transcripts/lecture_0a1b2c3d_whisper_base.txt"
  = Transcriber.base_output_path_of scenario.audio (py "whisper_base").
Proof.
  apply (transcript_keeps_its_name_after_cleaning
           (scenario.ext scenario.speech scenario.speech scenario.speech)
           "l"%char (py "ecture") scenario.audio (py "whisper_base") _
           {| w_fs := {[ py "data/outputs/transcripts/lecture_0a1b2c3d_whisper_base.txt"
                         := scenario.speech;
                         scenario.audio := scenario.media ]};
              w_logs := []; w_calls := [] |}).
  - vm_compute. reflexivity.
  - vm_compute. intros H. repeat destruct H as [H | H]; try discriminate H. exact H.
  - vm_compute. reflexivity.
  - vm_compute. reflexivity.
Defined.

End CleanerRuns.

(** ** The audio extractor *)

Section AudioExtractorFacts.
Import audio_extractor.
Context (t : tools) (lg : logger).

#[local] Arguments py : simpl never.
#[local] Arguments output_path_of : simpl never.

(** X15. What [extract] returns is worth processing: the path it built from the
    video name and the identifier, where a file of at least 1024 bytes is,
    of a video that passed validation. The check [process_video] makes on the
    returned path can then not fail. *)
Theorem extract_returns_valid_audio (video_path output_path : str) (w : World) :
  (extract t lg video_path w).1 = inr output_path →
  output_path = output_path_of t video_path
  ∧ validate_video t video_path = (true, None)
  ∧ (∃ b, w_fs (extract t lg video_path w).2 !! output_path = Some b
          ∧ 1024 ≤ Z.of_nat (length b))
  ∧ run_all.validate_file_output output_path 100 (extract t lg video_path w).2
    = (inr true, (extract t lg video_path w).2).
Proof.
  unfold extract, extract_body.
  destruct (validate_video t video_path) as [is_valid error] eqn:Hvalid.
  destruct is_valid; cbn; [| discriminate].
  destruct (run t video_path (output_path_of t video_path) _) as [[r | []] w2]; cbn.
  { destruct r as [stderr text | e]; [| discriminate].
    destruct (truthy stderr); [destruct (utf8_decode stderr) |]; discriminate. }
  destruct (w_fs w2 !! output_path_of t video_path) as [b|] eqn:Hfile; cbn;
    [| discriminate].
  destruct (Z.ltb_spec (Z.of_nat (length b)) 1024) as [Hsmall | Hbig]; cbn;
    [discriminate |].
  intros [= <-]. split; [reflexivity |]. split.
  { revert Hvalid. unfold validate_video.
    destruct (probe t video_path) as [[stderr text | e] | info];
      [discriminate | discriminate |].
    destruct (duration_below_one info) as [e | []]; [discriminate | discriminate |].
    destruct (has_audio (codec_types info)) as [e | []];
      [discriminate | | discriminate].
    intros [= <-]. reflexivity. }
  split; [exists b; split; [exact Hfile | exact Hbig] |].
  unfold run_all.validate_file_output, getsize, get_fs, path_exists, mbind, M_bind, bind,
    mret, M_ret, ret.
  cbn. rewrite Hfile. cbn. rewrite Hfile. cbn.
  destruct (Z.geb_spec (Z.of_nat (length b)) 100); [reflexivity | lia].
Qed.

(** X16. Every failure of [extract] reaches the caller as a [ValueError] whose
    message tells the step that failed, the extractor's own complaint about
    a missing or short output included, which is wrapped as any other
    exception of the extraction step. The one exception: error output of
    ffmpeg that is not valid text. A video that fails validation is
    rejected before anything is logged or run. *)
Theorem extract_raises_value_errors (video_path : str) (e : exn) (w : World) :
  (extract t lg video_path w).1 = inl e →
  (∃ msg, e = Exn ValueError (py "Invalid video file: " ++ msg)
          ∧ validate_video t video_path = (false, Some msg)
          ∧ (extract t lg video_path w).2 = w)
  ∨ (∃ msg, e = Exn ValueError (py "FFmpeg error during audio extraction: " ++ msg))
  ∨ (∃ msg, e = Exn ValueError (py "Error during audio extraction: " ++ msg))
  ∨ e = Exn ExternalError (py "UnicodeDecodeError").
Proof.
  unfold extract, extract_body.
  destruct (validate_video t video_path) as [is_valid error] eqn:Hvalid.
  destruct is_valid; cbn.
  2:{ intros [= <-]. left.
      assert (∃ msg, error = Some msg) as (msg & ->).
      { revert Hvalid. unfold validate_video.
        destruct (probe t video_path) as [[stderr text | e] | info];
          [intros [= <-]; eauto .. |].
        destruct (duration_below_one info) as [e | []]; [intros [= <-]; eauto .. |].
        destruct (has_audio (codec_types info)) as [e | []];
          [intros [= <-]; eauto | discriminate | intros [= <-]; eauto]. }
      exists msg. auto. }
  destruct (run t video_path (output_path_of t video_path) _) as [[r | []] w2]; cbn.
  { destruct r as [stderr text | e0].
    - destruct (truthy stderr); [destruct (utf8_decode stderr) |]; cbn;
        intros [= <-]; eauto 6.
    - intros [= <-]. eauto 6. }
  destruct (w_fs w2 !! output_path_of t video_path) as [b|]; cbn.
  - destruct (Z.of_nat (length b) <? 1024); cbn; [| discriminate].
    intros [= <-]. eauto 6.
  - intros [= <-]. eauto 6.
Qed.

End AudioExtractorFacts.

Section AudioExtractorRuns.
Import audio_extractor.

Lemma extract_returns_valid_audio_witness :
  py "data/audios/lecture_0a1b2c3d.wav"
  = output_path_of scenario.working_tools (py "lecture.mp4")
  ∧ validate_video scenario.working_tools (py "lecture.mp4") = (true, None).
Proof.
  pose proof (extract_returns_valid_audio scenario.working_tools
                (run_logger (py "lecture")) (py "lecture.mp4")
                (py "data/audios/lecture_0a1b2c3d.wav") scenario.world0) as H.
  destruct H as (Hpath & Hvalid & _); [vm_compute; reflexivity |].
  split; [exact Hpath | exact Hvalid].
Defined.

Lemma extract_raises_value_errors_witness :
  (∃ msg, Exn ValueError (py "Invalid video file: FFmpeg error: ffprobe error")
          = Exn ValueError (py "Invalid video file: " ++ msg)
          ∧ validate_video scenario.failing_tools (py "lecture.mp4") = (false, Some msg)
          ∧ (extract scenario.failing_tools (run_logger (py "lecture"))
               (py "lecture.mp4") scenario.world0).2 = scenario.world0)
  ∨ (∃ msg, Exn ValueError (py "Invalid video file: FFmpeg error: ffprobe error")
            = Exn ValueError (py "FFmpeg error during audio extraction: " ++ msg))
  ∨ (∃ msg, Exn ValueError (py "Invalid video file: FFmpeg error: ffprobe error")
            = Exn ValueError (py "Error during audio extraction: " ++ msg))
  ∨ Exn ValueError (py "Invalid video file: FFmpeg error: ffprobe error")
    = Exn ExternalError (py "UnicodeDecodeError").
Proof.
  apply (extract_raises_value_errors scenario.failing_tools (run_logger (py "lecture"))
           (py "lecture.mp4")
           (Exn ValueError (py "Invalid video file: FFmpeg error: ffprobe error"))
           scenario.world0).
  vm_compute. reflexivity.
Defined.

End AudioExtractorRuns.

(** ** The note generator *)

Section NoteSections.
Import note_generator.
Local Open Scope nat_scope.

Context {A : Type} (l : list A) (step : nat) (Hstep : 1 ≤ step).

Lemma range_loop_concat :
  ∀ fuel i, length l ≤ fuel + i →
    concat (map (λ j, firstn step (skipn j l)) (range_loop fuel i (length l) step))
    = skipn i l.
Proof.
  induction fuel as [|fuel IH]; intros i Hfuel; simpl.
  - rewrite skipn_all2 by lia. reflexivity.
  - destruct (Nat.ltb_spec i (length l)) as [Hlt | Hge]; simpl.
    + rewrite IH by lia. rewrite Nat.add_comm, <- skipn_skipn. apply firstn_skipn.
    + rewrite skipn_all2 by lia. reflexivity.
Qed.

Lemma range_loop_sections :
  ∀ fuel i,
    Forall (λ sec : list A, 1 ≤ length sec ≤ step)
      (map (λ j, firstn step (skipn j l)) (range_loop fuel i (length l) step)).
Proof.
  induction fuel as [|fuel IH]; intros i; simpl; [constructor |].
  destruct (Nat.ltb_spec i (length l)) as [Hlt | Hge]; simpl; [| constructor].
  constructor; [| apply IH].
  rewrite length_firstn, length_skipn. lia.
Qed.

Lemma range_loop_length :
  ∀ fuel i, length l ≤ fuel + i →
    length l ≤ i + length (range_loop fuel i (length l) step) * step
    ∧ (range_loop fuel i (length l) step ≠ [] →
       i + (length (range_loop fuel i (length l) step) - 1) * step < length l).
Proof.
  induction fuel as [|fuel IH]; intros i Hfuel; simpl.
  - split; [lia | congruence].
  - destruct (Nat.ltb_spec i (length l)) as [Hlt | Hge]; simpl; [| split; [lia | congruence]].
    destruct (IH (i + step) ltac:(lia)) as [Hup Hlow]. split; [lia |]. intros _.
    destruct (range_loop fuel (i + step) (length l) step) as [|j js] eqn:E; simpl in *.
    + lia.
    + specialize (Hlow ltac:(congruence)). lia.
Qed.

End NoteSections.

Section NoteGeneratorFacts.
Import note_generator.

#[local] Arguments py : simpl never.

(** X17. The sections of the notes. The loop cuts the sentences of the summary
    into consecutive sections of [max(3, n // 5)] sentences, the last one
    possibly shorter: no sentence is lost, repeated or reordered, no
    section is empty, and there are at most seven sections however long the
    summary is. The five sections the code aims for are reached exactly
    when the summary has thirteen sentences or more. *)
Theorem note_sections_partition (sentences : list str) :
  concat (sections sentences) = sentences
  ∧ Forall (λ sec, (1 ≤ length sec ≤ section_size sentences)%nat) (sections sentences)
  ∧ (length (sections sentences) ≤ 7)%nat
  ∧ ((5 ≤ length (sections sentences))%nat ↔ (13 ≤ length sentences)%nat).
Proof.
  unfold sections, range. cbv zeta.
  assert (Hstep : (1 ≤ section_size sentences)%nat) by (unfold section_size; lia).
  split; [apply (range_loop_concat sentences _ Hstep (length sentences) 0%nat); lia |].
  split; [apply range_loop_sections; exact Hstep |].
  rewrite length_map.
  destruct (range_loop_length sentences _ Hstep (length sentences) 0%nat ltac:(lia))
    as [Hup Hlow].
  set (k := length (range_loop (length sentences) 0 (length sentences)
                      (section_size sentences))) in *.
  assert (Hlow' : (k ≠ 0 → (k - 1) * section_size sentences < length sentences)%nat).
  { intros Hk. apply Hlow. intros E. apply Hk. subst k. rewrite E. reflexivity. }
  clear Hlow. clearbody k. unfold section_size in *.
  pose proof (Nat.div_mod_eq (length sentences) 5) as Hdiv.
  pose proof (Nat.mod_upper_bound (length sentences) 5 ltac:(lia)) as Hmod.
  set (n := length sentences) in *. set (q := (n / 5)%nat) in *.
  destruct (Nat.max_spec 3 q) as [[Hq Hmax] | [Hq Hmax]]; rewrite Hmax in *; clear Hmax.
  - split; [destruct (Nat.eq_dec k 0%nat); [lia | specialize (Hlow' ltac:(assumption)); nia] |].
    split; [intros Hk; nia | intros Hn].
    destruct (Nat.eq_dec k 0%nat); [lia | specialize (Hlow' ltac:(assumption)); nia].
  - split; [destruct (Nat.eq_dec k 0%nat); [lia | specialize (Hlow' ltac:(assumption)); nia] |].
    split; [intros Hk | intros Hn; nia].
    destruct (Nat.eq_dec k 0%nat); [lia | specialize (Hlow' ltac:(assumption)); nia].
Qed.

Lemma section_notes_length (p : pipelines) (secs : list (list str)) (notes : list str) :
  section_notes p secs = inr notes → length notes = length secs.
Proof.
  revert notes. induction secs as [|sec secs IH]; intros notes; simpl.
  - intros [= <-]. reflexivity.
  - destruct (text2text p _ _ _); [discriminate |].
    destruct (section_notes p secs) as [e | rest]; [discriminate |].
    intros [= <-]. simpl. rewrite (IH rest eq_refl). reflexivity.
Qed.

Lemma faq_entries_length (p : pipelines) (summary : str) (topics faqs : list str) :
  faq_entries p summary topics = inr faqs → (length faqs ≤ length topics)%nat.
Proof.
  revert faqs. induction topics as [|topic topics IH]; intros faqs; simpl.
  - intros [= <-]. reflexivity.
  - destruct (qa p _ summary) as [e | [confident answer]]; [discriminate |].
    destruct (faq_entries p summary topics) as [e | rest]; [discriminate |].
    specialize (IH rest eq_refl).
    destruct confident; intros [= <-]; simpl; lia.
Qed.

(** X18. [NoteGenerator.generate] writes the notes, then the questions. Either
    it raises and leaves the world as it was; or it has written the notes
    file [<stem>_notes.md], with one block of bullet points per section, and
    then either the file of the questions cannot be opened (a directory is in
    its place, or the operating system refuses) and it raises with the notes
    written and the questions not, or it writes at most five entries to
    [<stem>_faqs.md] and returns the two paths. Nothing else is written and
    nothing is logged. *)
Theorem generate_writes_notes_then_faqs (p : pipelines) (summary_path : str) (w : World) :
  let r := generate p summary_path w in
  let notes_path := notes_path_of summary_path in
  let faq_path := faq_path_of summary_path in
  (∃ e, r = (inl e, w))
  ∨ (∃ summary sentences notes faqs,
       read_text summary_path w = (inr summary, w)
       ∧ sent_tokenize p summary = inr sentences
       ∧ length notes = length (sections sentences)
       ∧ (length faqs ≤ 5)%nat
       ∧ w_logs r.2 = w_logs w
       ∧ let notes_written :=
           <[notes_path
             := utf8_encode
                  (py "# Summary Notes" ++ [chr_nl; chr_nl]
                   ++ Py.join [chr_nl; chr_nl] notes)]> (w_fs w) in
         (∃ e, r.1 = inl e
               ∧ w_fs r.2 = notes_written
               ∧ (utils.isdir notes_written faq_path = true
                  ∧ e = utils.is_a_directory faq_path
                  ∨ open_refused p faq_path = Some e))
         ∨ (r.1 = inr (notes_path, faq_path)
            ∧ w_fs r.2
              = <[faq_path
                  := utf8_encode
                       (concat ((py "# Frequently Asked Questions" ++ [chr_nl; chr_nl])
                                :: faqs))]> notes_written)).
Proof.
  cbv zeta. unfold generate, open_and_write, construct, read_text. unfold_M. cbn.
  destruct (w_fs w !! summary_path) as [b|]; cbn; [| left; eauto].
  destruct (utf8_decode b) as [decoded|]; cbn; [| left; eauto].
  set (summary := universal_newlines decoded).
  destruct (sent_tokenize p summary) as [e | sentences] eqn:Hsent; cbn; [left; eauto |].
  destruct (section_notes p (sections sentences)) as [e | notes] eqn:Hnotes;
    cbn; [left; eauto |].
  destruct (text2text p 100 None (py "extract main topics: " ++ slice_to 1000 summary))
    as [e | generated]; cbn; [left; eauto |].
  destruct (faq_entries p summary _) as [e | faqs] eqn:Hfaqs; cbn; [left; eauto |].
  destruct (utils.isdir (w_fs w) (notes_path_of summary_path)); cbn; [left; eauto |].
  destruct (open_refused p (notes_path_of summary_path)); cbn; [left; eauto |].
  right. exists summary, sentences, notes, faqs.
  split; [reflexivity |]. split; [exact Hsent |].
  split; [apply section_notes_length in Hnotes; exact Hnotes |].
  split.
  { apply faq_entries_length in Hfaqs. rewrite length_firstn in Hfaqs.
    etransitivity; [exact Hfaqs | apply Nat.le_min_l]. }
  destruct (utils.isdir _ (faq_path_of summary_path)) eqn:Hdir; cbn.
  { split; [reflexivity |]. left. eexists. split; [reflexivity |].
    split; [reflexivity |]. left. split; reflexivity. }
  destruct (open_refused p (faq_path_of summary_path)) as [e |] eqn:Hopen; cbn.
  { split; [reflexivity |]. left. exists e. split; [reflexivity |].
    split; [reflexivity |]. right. reflexivity. }
  split; [reflexivity |]. right. split; reflexivity.
Qed.

End NoteGeneratorFacts.

Section NoteGeneratorRun.
Import note_generator scenario.

(** The notes without the questions: a directory is in the place of the
    file of the questions, so [generate] raises after it has written the
    notes. *)
Example generate_leaves_notes_without_faqs :
  let r := generate note_tools (py "data/outputs/summaries/lecture_bart.md")
             world_with_faq_directory in
  r.1 = inl (utils.is_a_directory (py "data/outputs/faqs/lecture_bart_faqs.md"))
  ∧ w_fs world_with_faq_directory !! py "data/outputs/notes/lecture_bart_notes.md" = None
  ∧ w_fs r.2 !! py "data/outputs/notes/lecture_bart_notes.md"
    = Some (py "# Summary Notes" ++ [chr_nl; chr_nl] ++ py "lectures")
  ∧ w_fs r.2 !! py "data/outputs/faqs/lecture_bart_faqs.md" = None.
Proof. vm_compute. repeat split. Qed.

End NoteGeneratorRun.

(** ** Reading back what was written *)

Section RoundTrip.
Import transcriber.

Lemma utf8_decode_char (c : ascii) (rest : bytes) :
  utf8_decode (utf8_encode [c] ++ rest) = option_map (cons c) (utf8_decode rest).
Proof. destruct c as [[] [] [] [] [] [] [] []]; reflexivity. Qed.

Lemma utf8_decode_encode (text : str) : utf8_decode (utf8_encode text) = Some text.
Proof.
  induction text as [|c text IH]; [reflexivity |].
  assert (utf8_encode (c :: text) = utf8_encode [c] ++ utf8_encode text) as ->
    by (unfold utf8_encode; simpl; rewrite app_nil_r; reflexivity).
  rewrite utf8_decode_char, IH. reflexivity.
Qed.

#[local] Arguments py : simpl never.
#[local] Arguments utils.get_unique_filename : simpl never.
#[local] Arguments Transcriber.base_output_path_of : simpl never.
#[local] Arguments utf8_encode : simpl never.
#[local] Arguments utf8_decode : simpl never.

(** Text without a carriage return is read as it is. *)
Lemma universal_newlines_id (text : str) :
  ¬ In chr_cr text → universal_newlines text = text.
Proof.
  induction text as [|c text IH]; [reflexivity |]. intros Hcr. simpl.
  destruct (Ascii.eqb_spec c chr_cr) as [-> | _]; [exfalso; apply Hcr; left; reflexivity |].
  rewrite IH; [reflexivity |]. intros H. apply Hcr. right. exact H.
Qed.

(** X19. A saved transcript reads back with its ends of lines made uniform. What
    [Transcriber.transcribe] writes, the [open(..., "r", encoding="utf-8")]
    of the Summarize runner returns with every carriage return and line
    feed pair, and every other carriage return, turned into a line feed; a
    transcript without carriage returns reads back as it was. This is for
    the strings of the model, of code points below 256. *)
Theorem saved_transcript_reads_back (audio_path model_name transcript : str) (w : World) :
  let r := Transcriber.save_transcript audio_path model_name transcript w in
  (∀ output_path,
     r.1 = inr output_path →
     read_text output_path r.2 = (inr (universal_newlines transcript), r.2))
  ∧ (¬ In chr_cr transcript → universal_newlines transcript = transcript).
Proof.
  cbv zeta. split; [| apply universal_newlines_id].
  destruct (save_transcript_effect audio_path model_name transcript w)
    as (output_path & Hret & _ & _ & Hfs).
  intros out Hout. assert (out = output_path) as -> by congruence.
  unfold read_text. rewrite Hfs, lookup_insert_eq, utf8_decode_encode. reflexivity.
Qed.

(** A transcript of two lines that end as on Windows reads back with line
    feeds only. *)
Example saved_transcript_line_ends :
  let r := Transcriber.save_transcript scenario.audio (py "vosk")
             (py "one" ++ [chr_cr; chr_nl] ++ py "two" ++ [chr_cr]) scenario.world0 in
  ∃ output_path,
    r.1 = inr output_path
    ∧ (read_text output_path r.2).1 = inr (py "one" ++ [chr_nl] ++ py "two" ++ [chr_nl]).
Proof. eexists. split; vm_compute; reflexivity. Qed.

End RoundTrip.

(** ** The Summarizing stage *)

Section SummarizingStage.
Import summarizer run_all.
Context (ext : collaborators) (lg : logger).

#[local] Arguments py : simpl never.
#[local] Arguments Summarizer.summarize : simpl never.

Lemma summary_path_in_summaries (transcript_path model_name : str) :
  startswith (Summarizer.output_path_of transcript_path model_name)
    (py "data/outputs/summaries/") = true.
Proof.
  unfold Summarizer.output_path_of, Summarizer.output_dir, os_path.join.
  set (stem := fst (os_path.splitext (os_path.basename transcript_path))).
  assert (Hrel : startswith_char chr_slash (stem ++ py "_" ++ model_name ++ py ".md")
                 = false).
  { pose proof (λ H, basename_no_slash transcript_path
                       (splitext_root_In chr_slash _ H)) as Hstem.
    fold stem in Hstem. destruct stem as [|x stem]; [reflexivity |]. simpl.
    destruct (Ascii.eqb_spec x chr_slash) as [-> | _]; [| reflexivity].
    exfalso. apply Hstem. left. reflexivity. }
  rewrite Hrel. apply startswith_spec. eexists. reflexivity.
Qed.

Lemma summarize_models_footprint (transcript_model transcript_path : str)
    (models : list str) :
  ∀ (summaries : dict) (w : World) (p : str),
    startswith p (py "data/outputs/summaries/") = false →
    w_fs (summarize_models ext lg transcript_model transcript_path models summaries w).2
      !! p = w_fs w !! p.
Proof.
  induction models as [|summary_model models IH]; intros summaries w p Hp;
    [reflexivity |].
  cbn [summarize_models]. unfold mbind, M_bind, bind, log_info, log_error, emit.
  cbv beta iota.
  match goal with |- context [Summarizer.summarize ext transcript_path summary_model ?w1] =>
    destruct (summarizer_summarize_effect ext transcript_path summary_model w1)
      as [(e & He) | (summary & Hret & Hfs)];
    [rewrite He; reflexivity |];
    destruct (Summarizer.summarize ext transcript_path summary_model w1)
      as [[e | path] w2]; [discriminate Hret |]
  end.
  cbn in Hret, Hfs. injection Hret as ->.
  assert (Hw2 : w_fs w2 !! p = w_fs w !! p).
  { rewrite Hfs. apply lookup_insert_ne. intros <-.
    rewrite summary_path_in_summaries in Hp. discriminate. }
  rewrite validate_file_output_eq.
  destruct (match w_fs w2 !! Summarizer.output_path_of transcript_path summary_model with
            | Some b => Z.of_nat (length b) >=? 200
            | None => false
            end); cbn -[summarize_models]; rewrite IH by exact Hp; exact Hw2.
Qed.

Lemma summarize_transcripts_footprint (models : list str) (transcripts : dict) :
  ∀ (summaries : dict) (w : World) (p : str),
    startswith p (py "data/outputs/summaries/") = false →
    w_fs (summarize_transcripts ext lg models transcripts summaries w).2 !! p
    = w_fs w !! p.
Proof.
  induction transcripts as [|[transcript_model transcript_path] transcripts IH];
    intros summaries w p Hp; [reflexivity |].
  cbn [summarize_transcripts]. unfold mbind, M_bind, bind.
  pose proof (summarize_models_footprint transcript_model transcript_path models
                summaries w p Hp) as Hstep.
  destruct (summarize_models ext lg transcript_model transcript_path models summaries w)
    as [[e | summaries1] w1]; cbn in Hstep |- *; [exact Hstep |].
  rewrite IH by exact Hp. exact Hstep.
Qed.

(** X20. The Summarizing stage writes below [data/outputs/summaries/] and, by
    its logger, to the log files in [data/outputs/logs/] only: whatever the
    models do and however the stage ends, every path outside these two
    directories holds after the stage what it held before. In particular no
    transcript is changed or removed. *)
Theorem summarizing_stage_writes_only_summaries (models : list str)
    (transcripts summaries : dict) (w : World) (p : str) :
  startswith p (py "data/outputs/summaries/") = false →
  startswith p (py "data/outputs/logs/") = false →
  w_fs (summarize_transcripts ext lg models transcripts summaries w).2 !! p = w_fs w !! p.
Proof. intros Hp _. apply summarize_transcripts_footprint, Hp. Qed.

End SummarizingStage.

(** ** The model selector *)

Section ModelSelectorFacts.
Import model_selector.

Lemma models_of_type_names (models : profiles) (task_type : str) (names : list str) :
  models_of_type models task_type = inr names →
  ∀ name, name ∈ names → name ∈ models.*1.
Proof.
  revert names. induction models as [|[name [type|]] models IH]; intros names; simpl.
  - intros [= <-] n Hn. exact Hn.
  - destruct (models_of_type models task_type) as [e | names']; [discriminate |].
    intros [= <-] n Hn. destruct (bool_decide (type = task_type)).
    + apply elem_of_cons in Hn as [-> | Hn]; [left | right; apply (IH names' eq_refl n Hn)].
    + right. apply (IH names' eq_refl n Hn).
  - discriminate.
Qed.

(** X21. The two ways of asking agree. When the listing of the models of a task
    succeeds, [validate_model] accepts exactly the listed names for that
    task; the list follows the order of the profiles and names no model
    twice. *)
Theorem validate_model_agrees_with_listing (models : profiles) (task_type : str)
    (names : list str) :
  NoDup models.*1 →
  models_of_type models task_type = inr names →
  NoDup names
  ∧ ∀ model_name,
      validate_model models model_name task_type = inr (bool_decide (model_name ∈ names)).
Proof.
  revert names. induction models as [|[name [type|]] models IH]; intros names Hnd; simpl.
  - intros [= <-]. split; [constructor |]. intros m. reflexivity.
  - apply NoDup_cons in Hnd as [Hfresh Hnd].
    destruct (models_of_type models task_type) as [e | names'] eqn:Hnames; [discriminate |].
    destruct (IH names' Hnd eq_refl) as [Hnd' Hagree].
    assert (Hout : name ∉ names').
    { intros Hin. apply Hfresh. eapply models_of_type_names; eauto. }
    intros [= <-]. split.
    + destruct (bool_decide (type = task_type)); [constructor |]; assumption.
    + intros m. unfold validate_model. simpl.
      destruct (bool_decide_reflect (name = m)) as [-> | Hne].
      * f_equal. destruct (bool_decide_reflect (type = task_type)) as [Ht | Ht].
        -- symmetry. apply bool_decide_eq_true_2. left.
        -- symmetry. apply bool_decide_eq_false_2. exact Hout.
      * specialize (Hagree m). unfold validate_model in Hagree. rewrite Hagree.
        f_equal. destruct (bool_decide (type = task_type)); [| reflexivity].
        apply bool_decide_ext. rewrite elem_of_cons. split; [auto | intros [? | ?]; congruence || assumption].
  - discriminate.
Qed.

End ModelSelectorFacts.

(** ** The Vosk runner in the Transcribing stage *)

Section VoskRuns.
Import run_all transcriber.

#[local] Arguments py : simpl never.
#[local] Arguments utils.get_unique_filename : simpl never.
#[local] Arguments Transcriber.base_output_path_of : simpl never.
#[local] Arguments Transcriber.save_transcript : simpl never.
#[local] Arguments utf8_encode : simpl never.
#[local] Arguments join : simpl never.

Lemma transcriber_transcribe_vosk (ext : collaborators) (audio_path : str)
    (results : list (option str)) (final_result : option str) (w : World) :
  has_profile ext (py "vosk") = true →
  vosk_init ext = None →
  vosk_results ext audio_path = inr (results, final_result) →
  Transcriber.transcribe ext audio_path (py "vosk") w
  = Transcriber.save_transcript audio_path (py "vosk")
      (join (py " ")
         (VoskTranscriber.append_text
            (fold_left VoskTranscriber.append_text results []) final_result)) w.
Proof.
  intros Hprofile Hinit Hresults.
  unfold Transcriber.transcribe, TranscriberFactory.create, VoskTranscriber.transcribe.
  unfold_M. rewrite Hprofile.
  rewrite (bool_decide_eq_false_2 (py "vosk" = py "whisper_base")) by discriminate.
  rewrite (bool_decide_eq_true_2 (py "vosk" = py "vosk")) by reflexivity.
  rewrite Hinit, Hresults. reflexivity.
Qed.

(** X22. A short Vosk transcript costs the run that model only. The Vosk runner
    applies no word count: it saves whatever was recognized, and when that
    is less than 500 bytes the Transcribing stage logs the model as too
    short, registers nothing for it and goes on with the remaining
    models. *)
Theorem short_vosk_transcript_is_skipped (ext : collaborators) (lg : logger)
    (audio_path : str) (models : list str) (transcripts : dict) (w : World)
    (results : list (option str)) (final_result : option str) :
  has_profile ext (py "vosk") = true →
  vosk_init ext = None →
  vosk_results ext audio_path = inr (results, final_result) →
  let transcript :=
    join (py " ")
      (VoskTranscriber.append_text
         (fold_left VoskTranscriber.append_text results []) final_result) in
  Z.of_nat (length (utf8_encode transcript)) < 500 →
  ∃ w' output_path,
    transcribe_models ext lg audio_path (py "vosk" :: models) transcripts w
    = transcribe_models ext lg audio_path models transcripts w'
    ∧ w_fs w !! output_path = None
    ∧ w_fs w' = <[output_path := utf8_encode transcript]> (w_fs w)
    ∧ last (w_logs w')
      = Some (LogRecord lg ERROR (py "Transcript from vosk seems too short")).
Proof.
  intros Hprofile Hinit Hresults transcript Hshort.
  pose proof (transcribe_models_step ext lg audio_path (py "vosk") models transcripts w)
    as Hstep.
  cbv zeta in Hstep.
  rewrite (transcriber_transcribe_vosk ext audio_path results final_result _
             Hprofile Hinit Hresults) in Hstep.
  fold transcript in Hstep.
  destruct (save_transcript_effect audio_path (py "vosk") transcript
              (log_info lg (py "Transcribing with " ++ py "vosk") w).2)
    as (output_path & Hret & _ & Hfree & Hfs).
  destruct (Transcriber.save_transcript audio_path (py "vosk") transcript _)
    as [[e | path] w1]; cbn in Hret, Hfs, Hfree; [discriminate |].
  injection Hret as ->.
  assert (Hfile : w_fs w1 !! output_path = Some (utf8_encode transcript))
    by (rewrite Hfs; apply lookup_insert_eq).
  rewrite Hfile in Hstep.
  destruct (Z.geb_spec (Z.of_nat (length (utf8_encode transcript))) 500) as [Hbig | _];
    [lia |].
  eexists _, output_path. split; [exact Hstep |].
  split; [exact Hfree |]. split; [exact Hfs |].
  unfold log_error, emit. cbn. apply last_snoc.
Qed.

Lemma short_vosk_transcript_is_skipped_witness :
  ∃ w' output_path,
    transcribe_models (scenario.ext scenario.speech scenario.speech scenario.mumble)
      (run_logger (py "lecture")) scenario.audio [py "vosk"; py "whisper_base"] []
      scenario.world0
    = transcribe_models (scenario.ext scenario.speech scenario.speech scenario.mumble)
        (run_logger (py "lecture")) scenario.audio [py "whisper_base"] [] w'
    ∧ w_fs scenario.world0 !! output_path = None
    ∧ w_fs w' = <[output_path := utf8_encode scenario.mumble]> (w_fs scenario.world0)
    ∧ last (w_logs w')
      = Some (LogRecord (run_logger (py "lecture")) ERROR
                (py "Transcript from vosk seems too short")).
Proof.
  apply (short_vosk_transcript_is_skipped
           (scenario.ext scenario.speech scenario.speech scenario.mumble)
           (run_logger (py "lecture")) scenario.audio [py "whisper_base"] []
           scenario.world0 [Some scenario.mumble] (Some [])).
  - reflexivity.
  - reflexivity.
  - reflexivity.
  - vm_compute. reflexivity.
Defined.

End VoskRuns.

(** ** Paths *)

Section PathFacts.

Lemma rfind_free (c : ascii) (s : str) : ¬ In c s → rfind c s = -1.
Proof.
  induction s as [|x s IH]; simpl; [reflexivity |]. intros H.
  rewrite IH by tauto. simpl.
  destruct (Ascii.eqb_spec x c); [tauto | reflexivity].
Qed.

Lemma rfind_app_free (c : ascii) (x f : str) :
  ¬ In c f → rfind c (x ++ c :: f) = Z.of_nat (length x).
Proof.
  intros Hf. induction x as [|a x IH]; simpl.
  - rewrite rfind_free by exact Hf. simpl. rewrite Ascii.eqb_refl. reflexivity.
  - rewrite IH. destruct (Z.leb_spec 0 (Z.of_nat (length x))); lia.
Qed.

Lemma rfind_app_r_free (c : ascii) (s t : str) :
  ¬ In c t → rfind c (s ++ t) = rfind c s.
Proof.
  intros Ht. induction s as [|a s IH]; simpl; [apply rfind_free, Ht |].
  rewrite IH. reflexivity.
Qed.

Lemma rfind_split (c : ascii) (s : str) :
  0 ≤ rfind c s →
  s = slice_to (rfind c s) s ++ c :: slice_from (rfind c s + 1) s.
Proof.
  unfold slice_to, slice_from.
  induction s as [|x s IH]; simpl; [lia |].
  pose proof (rfind_lower c s) as Hlow.
  destruct (Z.leb_spec 0 (rfind c s)) as [Hr | Hr].
  - intros _. replace (Z.to_nat (rfind c s + 1)) with (S (Z.to_nat (rfind c s))) by lia.
    replace (Z.to_nat (rfind c s + 1 + 1)) with (S (Z.to_nat (rfind c s + 1))) by lia.
    simpl. f_equal. apply IH, Hr.
  - destruct (Ascii.eqb_spec x c) as [-> | Hne]; [| lia].
    intros _. reflexivity.
Qed.

Lemma rfind_upper (c : ascii) (s : str) : rfind c s < Z.of_nat (length s).
Proof.
  induction s as [|x s IH]; simpl; [lia |].
  destruct (Z.leb_spec 0 (rfind c s)); [lia |].
  destruct (Ascii.eqb x c); lia.
Qed.

Lemma splitext_app (s : str) :
  fst (os_path.splitext s) ++ snd (os_path.splitext s) = s.
Proof.
  unfold os_path.splitext. destruct (_ && _); simpl; [| apply app_nil_r].
  apply firstn_skipn.
Qed.

Lemma splitext_ext_In (c : ascii) (s : str) : In c (snd (os_path.splitext s)) → In c s.
Proof. intros H. rewrite <- (splitext_app s). apply in_or_app. right. exact H. Qed.

Lemma endswith_char_split (c : ascii) (s : str) :
  endswith_char c s = true → ∃ s', s = s' ++ [c].
Proof.
  unfold endswith_char. destruct (rev s) as [|x r] eqn:E; simpl; [discriminate |].
  intros ->%Ascii.eqb_eq. exists (rev r).
  rewrite <- (rev_involutive s), E. reflexivity.
Qed.

(** [os.path.join] with a relative name, by the form of the directory. *)
Lemma join_cases (d f : str) :
  ¬ In chr_slash f →
  (d = [] ∧ os_path.join d f = f)
  ∨ (∃ d', d = d' ++ [chr_slash] ∧ os_path.join d f = d' ++ chr_slash :: f)
  ∨ (d ≠ [] ∧ endswith_char chr_slash d = false ∧ os_path.join d f = d ++ chr_slash :: f).
Proof.
  intros Hf. unfold os_path.join. rewrite (relative_name f Hf).
  destruct d as [|x d]; [left; auto |]. right.
  destruct (endswith_char chr_slash (x :: d)) eqn:E.
  - left. apply endswith_char_split in E as (d' & E). exists d'. split; [exact E |].
    change ((x :: d) ++ f = d' ++ chr_slash :: f).
    rewrite E, <- app_assoc. reflexivity.
  - right. split; [discriminate |]. split; reflexivity.
Qed.

Lemma basename_app (x f : str) :
  ¬ In chr_slash f → os_path.basename (x ++ chr_slash :: f) = f.
Proof.
  intros Hf. unfold os_path.basename, slice_from. rewrite rfind_app_free by exact Hf.
  replace (Z.to_nat (Z.of_nat (length x) + 1)) with (length (x ++ [chr_slash]))
    by (rewrite length_app; simpl; lia).
  replace (x ++ chr_slash :: f) with ((x ++ [chr_slash]) ++ f)
    by (rewrite <- app_assoc; reflexivity).
  rewrite skipn_app, skipn_all, Nat.sub_diag. reflexivity.
Qed.

Lemma basename_relative (f : str) : ¬ In chr_slash f → os_path.basename f = f.
Proof.
  intros Hf. unfold os_path.basename, slice_from. rewrite rfind_free by exact Hf.
  reflexivity.
Qed.

Lemma basename_join (d f : str) :
  ¬ In chr_slash f → os_path.basename (os_path.join d f) = f.
Proof.
  intros Hf.
  destruct (join_cases d f Hf) as [[_ ->] | [(d' & _ & ->) | (_ & _ & ->)]];
    [apply basename_relative | apply basename_app | apply basename_app]; exact Hf.
Qed.


Lemma dirname_relative (f : str) : ¬ In chr_slash f → os_path.dirname f = [].
Proof.
  intros Hf. unfold os_path.dirname. rewrite rfind_free by exact Hf. reflexivity.
Qed.

Lemma dirname_app (x f : str) :
  ¬ In chr_slash f →
  os_path.dirname (x ++ chr_slash :: f)
  = if negb (forallb (λ c, Ascii.eqb c chr_slash) (x ++ [chr_slash]))
    then rstrip_char chr_slash (x ++ [chr_slash])
    else x ++ [chr_slash].
Proof.
  intros Hf. unfold os_path.dirname, slice_to. rewrite rfind_app_free by exact Hf.
  replace (Z.to_nat (Z.of_nat (length x) + 1)) with (length (x ++ [chr_slash]))
    by (rewrite length_app; simpl; lia).
  replace (x ++ chr_slash :: f) with ((x ++ [chr_slash]) ++ f)
    by (rewrite <- app_assoc; reflexivity).
  rewrite firstn_app, firstn_all, Nat.sub_diag. simpl. rewrite app_nil_r.
  destruct (x ++ [chr_slash]) eqn:E; [destruct x; discriminate |]. reflexivity.
Qed.

Lemma rstrip_char_snoc (c : ascii) (s : str) :
  rstrip_char c (s ++ [c]) = rstrip_char c s.
Proof.
  unfold rstrip_char. rewrite rev_app_distr. simpl. rewrite Ascii.eqb_refl. reflexivity.
Qed.

Lemma rstrip_char_id (c : ascii) (s : str) :
  endswith_char c s = false → rstrip_char c s = s.
Proof.
  unfold endswith_char, rstrip_char. destruct (rev s) as [|x r] eqn:E; simpl.
  - intros _. rewrite <- (rev_involutive s), E. reflexivity.
  - intros ->. rewrite <- E. apply rev_involutive.
Qed.

Lemma endswith_rstrip_char (c : ascii) (s : str) :
  endswith_char c (rstrip_char c s) = false.
Proof.
  unfold endswith_char, rstrip_char. rewrite rev_involutive.
  induction (rev s) as [|x r IH]; simpl; [reflexivity |].
  destruct (Ascii.eqb x c) eqn:E; [exact IH | simpl; exact E].
Qed.

Lemma all_chars_endswith (c : ascii) (s : str) :
  s ≠ [] → forallb (λ x, Ascii.eqb x c) s = true → endswith_char c s = true.
Proof.
  intros Hne Hall. unfold endswith_char.
  destruct (rev s) as [|x r] eqn:E.
  - apply (f_equal (@rev ascii)) in E. rewrite rev_involutive in E. contradiction.
  - simpl. rewrite forallb_forall in Hall. apply Hall, in_rev. rewrite E. left. reflexivity.
Qed.

(** A directory name ends in a slash only when it holds nothing else. *)
Lemma dirname_shape (p : str) :
  endswith_char chr_slash (os_path.dirname p) = true →
  forallb (λ c, Ascii.eqb c chr_slash) (os_path.dirname p) = true.
Proof.
  unfold os_path.dirname.
  destruct (truthy _) eqn:Ht; simpl.
  - destruct (forallb _ _) eqn:Hall; simpl; [intros _; exact Hall |].
    rewrite endswith_rstrip_char. discriminate.
  - destruct (slice_to _ p); [reflexivity | discriminate].
Qed.

Lemma dirname_join_dirname (p f : str) :
  ¬ In chr_slash f →
  os_path.dirname (os_path.join (os_path.dirname p) f) = os_path.dirname p.
Proof.
  intros Hf. pose proof (dirname_shape p) as Hshape.
  destruct (join_cases (os_path.dirname p) f Hf)
    as [[Hd ->] | [(d' & Hd & ->) | (Hne & Hend & ->)]].
  - rewrite Hd. apply dirname_relative, Hf.
  - rewrite dirname_app by exact Hf. rewrite <- Hd.
    rewrite Hshape; [reflexivity |].
    rewrite Hd. unfold endswith_char. rewrite rev_app_distr. reflexivity.
  - rewrite dirname_app by exact Hf.
    assert (Hall : forallb (λ c, Ascii.eqb c chr_slash) (os_path.dirname p ++ [chr_slash])
                   = false).
    { rewrite forallb_app.
      destruct (forallb _ (os_path.dirname p)) eqn:E; [| reflexivity].
      rewrite (all_chars_endswith _ _ Hne E) in Hend. discriminate. }
    rewrite Hall. simpl. rewrite rstrip_char_snoc. apply rstrip_char_id, Hend.
Qed.


Lemma rfind_app_ge (c : ascii) (s t : str) : rfind c s ≤ rfind c (s ++ t).
Proof.
  induction s as [|x s IH]; simpl; [apply rfind_lower |].
  pose proof (rfind_lower c s). pose proof (rfind_lower c (s ++ t)).
  destruct (Z.leb_spec 0 (rfind c s)); destruct (Z.leb_spec 0 (rfind c (s ++ t)));
    destruct (Ascii.eqb x c); lia.
Qed.

(** An extension is empty or a dot followed by no other dot. *)
Lemma splitext_ext_shape (s : str) :
  snd (os_path.splitext s) = []
  ∨ ∃ rest, snd (os_path.splitext s) = chr_dot :: rest ∧ ¬ In chr_dot rest.
Proof.
  unfold os_path.splitext.
  destruct (_ <? _) eqn:Hlt; simpl; [| left; reflexivity].
  destruct (existsb _ _); simpl; [| left; reflexivity].
  right. apply Z.ltb_lt in Hlt. pose proof (rfind_lower chr_slash s) as Hlow.
  exists (slice_from (rfind chr_dot s + 1) s). split; [| apply rfind_tail_free].
  pose proof (rfind_split chr_dot s ltac:(lia)) as Hsplit.
  pose proof (rfind_upper chr_dot s) as Hup.
  unfold slice_from, slice_to in *.
  assert (Hlen : length (firstn (Z.to_nat (rfind chr_dot s)) s)
                 = Z.to_nat (rfind chr_dot s)) by (rewrite length_firstn; lia).
  revert Hsplit Hlen.
  generalize (firstn (Z.to_nat (rfind chr_dot s)) s) as pre.
  generalize (skipn (Z.to_nat (rfind chr_dot s + 1)) s) as tail.
  generalize (Z.to_nat (rfind chr_dot s)) as k.
  intros k tail pre -> <-.
  rewrite skipn_app, skipn_all, Nat.sub_diag. reflexivity.
Qed.

Lemma str_of_nat_digits (c : ascii) (n : nat) : In c (str_of_nat n) → isdigit c = true.
Proof.
  unfold str_of_nat. generalize (Nat.to_uint n) as d.
  induction d; simpl; try tauto; intros [<- | Hin]; try reflexivity; auto.
Qed.

Lemma strip_counter_prefix (name : str) : ∃ t, name = utils.strip_counter name ++ t.
Proof.
  unfold utils.strip_counter, utils.match_counter.
  destruct (_ && _).
  - eexists. symmetry. apply firstn_skipn.
  - exists []. symmetry. apply app_nil_r.
Qed.

Lemma nth_stem_prefix (name : str) (n : nat) : ∃ t, name = utils.nth_stem name n ++ t.
Proof.
  induction n as [|n (t & IH)]; simpl; [exists []; symmetry; apply app_nil_r |].
  destruct (strip_counter_prefix (utils.nth_stem name n)) as (t' & Ht').
  exists (t' ++ t). rewrite app_assoc, <- Ht'. exact IH.
Qed.

Lemma existsb_firstn {A : Type} (f : A → bool) (k : nat) (l : list A) :
  existsb f l = false → existsb f (firstn k l) = false.
Proof.
  revert k. induction l as [|x l IH]; intros [|k]; simpl; try reflexivity.
  intros [-> H]%orb_false_elim. simpl. apply IH, H.
Qed.

(** The extension of a file name survives the counter. *)
Lemma splitext_counter_name (filename : str) (n : nat) :
  ¬ In chr_slash filename →
  snd (os_path.splitext
         (utils.counter_name (utils.nth_stem (fst (os_path.splitext filename)) n) n
            (snd (os_path.splitext filename))))
  = snd (os_path.splitext filename).
Proof.
  intros Hfile.
  set (name := fst (os_path.splitext filename)).
  set (ext := snd (os_path.splitext filename)).
  set (stem := utils.nth_stem name n).
  assert (Hdigits_dot : ¬ In chr_dot (chr_underscore :: str_of_nat n)).
  { intros [H | H%str_of_nat_digits]; discriminate. }
  assert (Hstem_slash : ¬ In chr_slash stem).
  { intros H%nth_stem_In%splitext_root_In. exact (Hfile H). }
  assert (Hdigits_slash : ¬ In chr_slash (chr_underscore :: str_of_nat n)).
  { intros [H | H%str_of_nat_digits]; discriminate. }
  unfold utils.counter_name.
  destruct (splitext_ext_shape filename) as [Hext | (rest & Hext & Hrest)]; fold ext in Hext.
  - (* no extension: the name is the file name, dots only before its last dot *)
    rewrite Hext, app_nil_r.
    change (stem ++ chr_underscore :: str_of_nat n)
      with (stem ++ (chr_underscore :: str_of_nat n)).
    assert (Hname : name = filename).
    { pose proof (splitext_app filename) as H. fold name ext in H.
      rewrite Hext, app_nil_r in H. exact H. }
    destruct (nth_stem_prefix name n) as (t & Ht). fold stem in Ht. rewrite Hname in Ht.
    unfold os_path.splitext at 1.
    rewrite (rfind_free chr_slash) by (intros [H | H]%in_app_or; tauto).
    rewrite rfind_app_r_free by exact Hdigits_dot.
    destruct (Z.ltb_spec (-1) (rfind chr_dot stem)) as [Hdot | Hdot]; [| reflexivity].
    simpl andb.
    assert (Hlead : existsb (λ c, negb (Ascii.eqb c chr_dot))
                      (slice_from (-1 + 1)
                         (slice_to (rfind chr_dot stem)
                            (stem ++ chr_underscore :: str_of_nat n))) = false).
    { pose proof (rfind_upper chr_dot stem) as Hup.
      pose proof (rfind_app_ge chr_dot stem t) as Hge. rewrite <- Ht in Hge.
      assert (Hfile_cond : existsb (λ c, negb (Ascii.eqb c chr_dot))
                             (slice_to (rfind chr_dot filename) filename) = false).
      { revert Hext. unfold ext, os_path.splitext.
        rewrite (rfind_free chr_slash filename Hfile).
        destruct (Z.ltb_spec (-1) (rfind chr_dot filename)) as [_ | Hno]; [| lia].
        simpl andb. unfold slice_from at 1. simpl skipn.
        destruct (existsb _ _); [| reflexivity].
        simpl. intros Hnil.
        pose proof (rfind_split chr_dot filename ltac:(lia)) as Hsplit.
        apply (f_equal (@length ascii)) in Hsplit.
        rewrite length_app in Hsplit. simpl in Hsplit.
        apply (f_equal (@length ascii)) in Hnil. unfold slice_from, slice_to in *.
        rewrite length_skipn in Hnil. rewrite length_firstn, length_skipn in Hsplit.
        simpl in Hnil. pose proof (rfind_upper chr_dot filename). lia. }
      unfold slice_from, slice_to in *. simpl skipn.
      rewrite firstn_app.
      replace (Z.to_nat (rfind chr_dot stem) - length stem)%nat with 0%nat by lia.
      simpl firstn at 2. rewrite app_nil_r.
      assert (firstn (Z.to_nat (rfind chr_dot stem)) stem
              = firstn (Z.to_nat (rfind chr_dot stem))
                  (firstn (Z.to_nat (rfind chr_dot filename)) filename)) as ->.
      { rewrite firstn_firstn. replace (_ `min` _)%nat with (Z.to_nat (rfind chr_dot stem))
          by lia.
        rewrite Ht, firstn_app.
        replace (Z.to_nat (rfind chr_dot stem) - length stem)%nat with 0%nat by lia.
        simpl. rewrite app_nil_r. reflexivity. }
      apply existsb_firstn, Hfile_cond. }
    rewrite Hlead. reflexivity.
  - (* an extension: it starts at the last dot of the new name as well *)
    rewrite Hext.
    replace (stem ++ chr_underscore :: str_of_nat n ++ chr_dot :: rest)
      with ((stem ++ chr_underscore :: str_of_nat n) ++ chr_dot :: rest)
      by (rewrite <- app_assoc; reflexivity).
    unfold os_path.splitext.
    rewrite (rfind_free chr_slash).
    2:{ intros [[H | H]%in_app_or | [H | H]]%in_app_or; try tauto; try discriminate H.
        apply Hfile, splitext_ext_In. fold ext. rewrite Hext. right. exact H. }
    rewrite rfind_app_free by exact Hrest.
    destruct (Z.ltb_spec (-1) (Z.of_nat (length (stem ++ chr_underscore :: str_of_nat n))))
      as [_ | Hno]; [| lia].
    unfold slice_from, slice_to. rewrite Nat2Z.id. simpl skipn.
    rewrite firstn_app, firstn_all, Nat.sub_diag. simpl firstn. rewrite app_nil_r.
    change (Z.to_nat (-1 + 1)) with 0%nat. rewrite skipn_O.
    assert (existsb (λ c, negb (Ascii.eqb c chr_dot))
              (stem ++ chr_underscore :: str_of_nat n) = true) as ->.
    { apply existsb_exists. exists chr_underscore. split; [| reflexivity].
      apply in_or_app. right. left. reflexivity. }
    simpl. rewrite skipn_app, skipn_all, Nat.sub_diag. reflexivity.
Qed.

End PathFacts.

Section AllocatorPaths.
Import utils.

(** X23. The path the allocator gives is a sibling of the desired path with the
    same extension: it always gives one, free at the time, in the same
    directory as the desired path, and [os.path.splitext] finds the same
    extension in it. *)
Theorem get_unique_filename_keeps_directory_and_extension (fs : filesystem) (p : str) :
  ∃ q, get_unique_filename fs p = Some q
       ∧ path_exists fs q = false
       ∧ os_path.dirname q = os_path.dirname p
       ∧ snd (os_path.splitext (os_path.basename q))
         = snd (os_path.splitext (os_path.basename p)).
Proof.
  destruct (path_exists fs p) eqn:Hp.
  2:{ exists p. unfold get_unique_filename. rewrite Hp. auto. }
  destruct (get_unique_filename_first_free fs p Hp) as (n & _ & Hq & Hfree & _).
  exists (candidate p n). split; [exact Hq |]. split; [exact Hfree |].
  unfold candidate.
  pose proof (splitext_counter_name (os_path.basename p) n (basename_no_slash p)) as Hext.
  destruct (os_path.splitext (os_path.basename p)) as [name ext] eqn:Hsplit.
  cbn [fst snd] in Hext |- *.
  assert (Hfile : ¬ In chr_slash (counter_name (nth_stem name n) n ext)).
  { unfold counter_name.
    intros [H%nth_stem_In | [H | [H%str_of_nat_digits | H]%in_app_or]]%in_app_or.
    - apply (basename_no_slash p), (splitext_root_In chr_slash). rewrite Hsplit. exact H.
    - discriminate H.
    - discriminate H.
    - apply (basename_no_slash p), (splitext_ext_In chr_slash). rewrite Hsplit. exact H. }
  split; [apply dirname_join_dirname, Hfile |].
  rewrite basename_join by exact Hfile. exact Hext.
Qed.

End AllocatorPaths.

(** ** The video loader *)

Section VideoLoaderFacts.
Import video_loader.
Context (t : tools) (lg : logger).

#[local] Arguments py : simpl never.

Lemma unique_path_is_new (path : str) :
  ¬ In chr_slash (timestamp t) → ¬ In chr_slash (uuid4 t) →
  _get_unique_path t (os_path.join output_dir (os_path.basename path)) ≠ path.
Proof.
  intros Hts Huid Heq.
  pose proof (basename_no_slash path) as Hfile.
  apply (f_equal os_path.basename) in Heq. revert Heq.
  unfold _get_unique_path. rewrite (basename_join _ _ Hfile).
  pose proof (splitext_app (os_path.basename path)) as Happ.
  destruct (os_path.splitext (os_path.basename path)) as [file_name ext] eqn:Hsplit.
  cbn [fst snd] in Happ.
  assert (Hname : ¬ In chr_slash file_name).
  { intros H. apply Hfile, (splitext_root_In chr_slash). rewrite Hsplit. exact H. }
  assert (Hext : ¬ In chr_slash ext).
  { intros H. apply Hfile, (splitext_ext_In chr_slash). rewrite Hsplit. exact H. }
  rewrite basename_join.
  - intros Heq. rewrite <- Happ in Heq. apply (f_equal (@length ascii)) in Heq.
    rewrite !length_app in Heq. simpl in Heq. lia.
  - intros [H | [H | [H | [H | [H%In_slice_to | H]%in_app_or]%in_app_or]%in_app_or]%in_app_or]%in_app_or;
      try tauto; destruct H as [H | []]; discriminate H.
Qed.

(** X24. Loading a local video leaves the source as it is. A source that names
    an existing file is handled as a local file, whatever it looks like;
    [load] then returns the source path itself, the file there keeps its
    contents, and the only path that may change is that of the copy in
    [data/videos], which is a different path. *)
Theorem load_leaves_local_source_intact (source : str) (b : bytes) (w : World) :
  w_fs w !! source = Some b →
  ¬ In chr_slash (timestamp t) →
  ¬ In chr_slash (uuid4 t) →
  let r := load t lg source w in
  w_fs r.2 !! source = Some b
  ∧ (∀ video_path, r.1 = inr video_path → video_path = source)
  ∧ (∀ p, p ≠ _get_unique_path t (os_path.join output_dir (os_path.basename source)) →
          w_fs r.2 !! p = w_fs w !! p).
Proof.
  intros Hfile Hts Huid. cbv zeta.
  pose proof (unique_path_is_new source Hts Huid) as Hnew.
  unfold load, is_local_file, _handle_local_file, copy2, utils.exists_file_or_dir,
    utils.set_fs, path_exists.
  unfold_M. cbn. rewrite Hfile. cbn.
  destruct (_validate_video t source) as [e | []]; cbn;
    [split; [exact Hfile | split; [discriminate | intros; reflexivity]] |
     | split; [exact Hfile | split; [discriminate | intros; reflexivity]]].
  destruct (bool_decide _); cbn.
  - rewrite Hfile. cbn. split; [| split].
    + rewrite lookup_insert_ne; [exact Hfile | exact Hnew].
    + intros video_path [= <-]. reflexivity.
    + intros p Hp. apply lookup_insert_ne. congruence.
  - split; [exact Hfile |]. split; [| intros; reflexivity].
    intros video_path [= <-]. reflexivity.
Qed.

End VideoLoaderFacts.

(** ** Validating the configuration *)

Section ConfigFacts.
Import utils.

#[local] Arguments py : simpl never.

Lemma find_key (key : str) (entries : list (yaml * yaml)) :
  existsb (λ kv, is_str key kv.1) entries = true →
  ∃ kv, find (λ kv, is_str key kv.1) entries = Some kv.
Proof.
  induction entries as [|kv entries IH]; simpl; [discriminate |].
  destruct (is_str key kv.1); [eauto | exact IH].
Qed.

(** X25. What [validate_config] accepts, and what it cannot judge. It returns
    [True] exactly for a mapping with the keys [video_source] and [models]
    whose [models] entry is a mapping with the keys [transcription] and
    [summarization]; what the two lists hold is not looked at. For a
    document that is no mapping it never returns [True], but it does not
    always return [False] either: for a scalar that is not a string (the
    null of an empty file, a number, a boolean) the first membership test
    raises a [TypeError], and so does the indexing for a string or a
    sequence that holds both words. *)
Theorem validate_config_accepts_mappings_only (config : yaml) :
  (validate_config config = inr true
   ↔ ∃ entries models_entry models,
       config = YMap entries
       ∧ existsb (λ kv, is_str (py "video_source") kv.1) entries = true
       ∧ find (λ kv, is_str (py "models") kv.1) entries = Some models_entry
       ∧ models_entry.2 = YMap models
       ∧ existsb (λ kv, is_str (py "transcription") kv.1) models = true
       ∧ existsb (λ kv, is_str (py "summarization") kv.1) models = true)
  ∧ (config = YScalar → validate_config config = inl TypeError)
  ∧ (∀ s, config = YStr s →
          contains s (py "video_source") = true → contains s (py "models") = true →
          validate_config config = inl TypeError)
  ∧ (∀ items, config = YSeq items →
              existsb (is_str (py "video_source")) items = true →
              existsb (is_str (py "models")) items = true →
              validate_config config = inl TypeError).
Proof.
  split; [| split; [intros ->; reflexivity | split]].
  - split.
    + unfold validate_config.
      destruct config as [| s | items | items | entries]; cbn;
        try discriminate.
      * destruct (contains s (py "video_source")); [| discriminate].
        destruct (contains s (py "models")); discriminate.
      * destruct (existsb _ items); [| discriminate].
        destruct (existsb _ items); discriminate.
      * destruct (existsb _ items); [| discriminate].
        destruct (existsb _ items); discriminate.
      * destruct (existsb _ entries) eqn:Hsource; [| discriminate].
        destruct (existsb (λ kv, is_str (py "models") kv.1) entries) eqn:Hmodels;
          [| discriminate].
        destruct (find_key _ _ Hmodels) as (kv & Hfind). rewrite Hfind.
        destruct kv.2 as [| | | | models] eqn:Hkind; cbn; try discriminate.
        destruct (existsb _ models) eqn:Ht; [| discriminate].
        destruct (existsb (λ kv0, is_str (py "summarization") kv0.1) models) eqn:Hs;
          [| discriminate].
        intros _. exists entries, kv, models. auto 10.
    + intros (entries & kv & models & -> & Hsource & Hfind & Hkind & Ht & Hs).
      unfold validate_config. cbn. rewrite Hsource.
      assert (Hmodels : existsb (λ kv, is_str (py "models") kv.1) entries = true).
      { apply existsb_exists. exists kv. apply find_some in Hfind. exact Hfind. }
      rewrite Hmodels, Hfind, Hkind. cbn. rewrite Ht, Hs. reflexivity.
  - intros s -> Hsource Hmodels. unfold validate_config. cbn.
    rewrite Hsource, Hmodels. reflexivity.
  - intros items -> Hsource Hmodels. unfold validate_config. cbn.
    rewrite Hsource, Hmodels. reflexivity.
Qed.

End ConfigFacts.

(** ** More runs *)

Section MoreRuns.
Import summarizer summarizer.TransformerSummarizer run_all.

Lemma chunk_text_single_chunk_witness :
  _chunk_text word_encode (py "First point. Second point.") 1024
  = [join (py " ") (sentences_of (py "First point. Second point."))].
Proof.
  apply chunk_text_single_chunk.
  - vm_compute. discriminate.
  - vm_compute. discriminate.
Defined.

Lemma transformer_summarize_blank_witness :
  TransformerSummarizer.summarize
    (scenario.ext scenario.speech scenario.speech scenario.speech) (py "bart")
    (py " . .. ") scenario.world0
  = (inr [], scenario.world0).
Proof.
  apply transformer_summarize_blank.
  repeat (constructor; [first [left; reflexivity | right; reflexivity] |]).
  constructor.
Defined.

Lemma summarizing_stage_writes_only_summaries_witness :
  w_fs (summarize_transcripts
          (scenario.ext scenario.speech scenario.speech scenario.speech)
          (run_logger (py "lecture")) [py "bart"]
          [(py "vosk", scenario.video)] [] scenario.world0).2 !! scenario.video
  = w_fs scenario.world0 !! scenario.video.
Proof.
  apply summarizing_stage_writes_only_summaries; reflexivity.
Defined.

Lemma validate_model_agrees_with_listing_witness :
  NoDup [py "whisper_base"; py "vosk"]
  ∧ ∀ model_name,
      model_selector.validate_model scenario.profiles model_name (py "transcription")
      = inr (bool_decide (model_name ∈ [py "whisper_base"; py "vosk"])).
Proof.
  apply (validate_model_agrees_with_listing scenario.profiles (py "transcription")).
  - apply (bool_decide_unpack _). vm_compute. exact I.
  - reflexivity.
Defined.

Lemma load_leaves_local_source_intact_witness :
  let r := video_loader.load scenario.loader_tools (run_logger (py "lecture"))
             scenario.video scenario.world0 in
  w_fs r.2 !! scenario.video = Some scenario.media
  ∧ (∀ video_path, r.1 = inr video_path → video_path = scenario.video)
  ∧ (∀ p, p ≠ video_loader._get_unique_path scenario.loader_tools
                (os_path.join video_loader.output_dir (os_path.basename scenario.video)) →
          w_fs r.2 !! p = w_fs scenario.world0 !! p).
Proof.
  apply (load_leaves_local_source_intact scenario.loader_tools (run_logger (py "lecture"))
           scenario.video scenario.media scenario.world0).
  - reflexivity.
  - vm_compute. intros H. repeat destruct H as [H | H]; try discriminate H. exact H.
  - vm_compute. intros H. repeat destruct H as [H | H]; try discriminate H. exact H.
Defined.

End MoreRuns.
